(** * Disease surveillance (Kenya): the modeler's forecasting pipeline

    A shallow embedding of [modeler/model_train.py]: the synthesis of yearly
    series from the aggregate totals ([build_synthetic_if_empty]), the
    forecast of one series ([fit_and_forecast]), the batch provenance flag
    ([fetch_timeseries]) and the orchestration ([main]).

    Python's [float] is IEEE 754 binary64, which is the kernel's primitive
    [float]; Python's [int] is [Z].  Code that can raise returns in the
    [result] monad.  The two numerical collaborators that are not part of
    the repository are parameters of the development: the variates of
    numpy's seeded generator and the fit of statsmodels' exponential
    smoothing.

    The database is a record of its three tables, each a list of rows in
    insertion order.  What the code leaves to Postgres is left out: the
    creation of the tables, the rounding of the [NUMERIC(18,2)] columns
    and the [created_at] stamp.  So are the messages it prints.  The retry
    loop of [connect] is modelled on its own, over the outcome of each
    call of [psycopg2.connect]; [main] is modelled from the point where its
    connections are made, and with a database that accepts every statement
    the code sends.  What is proved of a run is proved of those runs. *)

From Stdlib Require Import ZArith List String Bool Lia Uint63 Floats Permutation Sorted.
Import ListNotations.

Set Warnings "-inexact-float".

Local Open Scope Z_scope.

(** ** Exceptions and the [result] monad *)

Inductive exn : Type :=
| ValueError (msg : string)
| OverflowError (msg : string)
| ZeroDivisionError (msg : string)
| IndexError (msg : string)
| LibraryError (msg : string).

(** [str(e)]: the text an f-string interpolates for [{e}]. *)
Definition str (e : exn) : string :=
  match e with
  | ValueError m | OverflowError m | ZeroDivisionError m
  | IndexError m | LibraryError m => m
  end.

Inductive result (A : Type) : Type :=
| Ok (a : A)
| Raise (e : exn).
Arguments Ok {A} a.
Arguments Raise {A} e.

Definition bind {A B} (m : result A) (k : A -> result B) : result B :=
  match m with
  | Ok a => k a
  | Raise e => Raise e
  end.

Notation "x <- m ;; k" := (bind m (fun x => k))
  (at level 61, m at next level, right associativity).
Notation "' pat <- m ;; k" := (bind m (fun x => match x with pat => k end))
  (at level 61, pat pattern, m at next level, right associativity).

(** [try: body except Exception as e: handler(e)] *)
Definition try_except {A} (body : result A) (handler : exn -> result A) : result A :=
  match body with
  | Ok a => Ok a
  | Raise e => handler e
  end.

Fixpoint mapM {A B} (f : A -> result B) (l : list A) : result (list B) :=
  match l with
  | [] => Ok []
  | a :: l' => b <- f a ;; bs <- mapM f l' ;; Ok (b :: bs)
  end.

(** ** Python numbers *)

Module Py.

(** [float(z)] for an [int]: the nearest binary64 for [|z| < 2^63], exact
    for [|z| < 2^53], which covers the 32-bit INTEGER columns the pipeline
    reads and the counts it derives from them.  Larger ints are outside
    the model. *)
Definition float_of_int (z : Z) : float :=
  match z with
  | Z0 => 0%float
  | Zpos _ => of_uint63 (Uint63.of_Z z)
  | Zneg p => (- of_uint63 (Uint63.of_Z (Zpos p)))%float
  end.

(** [a / b] on two ints (true division). *)
Definition int_truediv (a b : Z) : result float :=
  if b =? 0 then Raise (ZeroDivisionError "division by zero")
  else Ok (float_of_int a / float_of_int b)%float.

(** The builtin [max(a, b)] keeps its first argument unless the second
    compares strictly greater (so a NaN second argument is dropped). *)
Definition fmax (a b : float) : float := if (a <? b)%float then b else a.

(** The builtin [sum] over floats, accumulating from the left.  (CPython
    3.12 and later carry a compensation term through this loop; what is
    proved below of a float sum is that it is finite, and exact on
    integers below [2^53], which holds of both.) *)
Definition fsum (l : list float) : float := fold_left add l 0%float.

Definition zsum (l : list Z) : Z := fold_left Z.add l 0.

(** Round half to even of [m * 2^e], [m > 0]. *)
Definition round_half_even (m : positive) (e : Z) : Z :=
  match e with
  | Z0 => Zpos m
  | Zpos _ => Zpos m * 2 ^ e
  | Zneg p =>
      let d := 2 ^ Zpos p in
      let q := Zpos m / d in
      let r := Zpos m mod d in
      match 2 * r ?= d with
      | Lt => q
      | Gt => q + 1
      | Eq => if Z.even q then q else q + 1
      end
  end.

(** [round(x)] with one argument: the nearest int, ties to even; NaN and
    the infinities have no int. *)
Definition round (x : float) : result Z :=
  match Prim2SF x with
  | S754_nan => Raise (ValueError "cannot convert float NaN to integer")
  | S754_infinity _ => Raise (OverflowError "cannot convert float infinity to integer")
  | S754_zero _ => Ok 0
  | S754_finite s m e => Ok (cond_Zopp s (round_half_even m e))
  end.

(** [l[-1] += d] *)
Fixpoint add_to_last (l : list Z) (d : Z) : result (list Z) :=
  match l with
  | [] => Raise (IndexError "list index out of range")
  | [x] => Ok [x + d]
  | x :: l' => l'' <- add_to_last l' d ;; Ok (x :: l'')
  end.

(** [list(range(a, b))] *)
Definition range (a b : Z) : list Z :=
  map (fun i => a + Z.of_nat i) (seq 0 (Z.to_nat (b - a))).

(** [[x] * n] *)
Definition replicate {A} (x : A) (n : Z) : list A := repeat x (Z.to_nat n).

Definition len {A} (l : list A) : Z := Z.of_nat (List.length l).

(** [sys.maxsize]: no list, frame or series is longer. *)
Definition maxsize : Z := 2 ^ 63 - 1.

End Py.

(** ** numpy's generator

    [np.random.default_rng(seed)] is a stream of standard normal variates
    fixed by the seed; [bit_generator seed k] is its [k]-th variate.  The
    state of a generator is the seed and the number of variates drawn. *)

Record Generator := { gen_seed : Z; gen_drawn : nat }.

Definition default_rng (seed : Z) : Generator :=
  {| gen_seed := seed; gen_drawn := 0 |}.

(** [np.signbit(x)], as the generator's argument check reads it. *)
Definition signbit (x : float) : bool :=
  match Prim2SF x with
  | S754_zero s | S754_infinity s | S754_finite s _ _ => s
  | S754_nan => false
  end.

(** ** statsmodels' exponential smoothing

    What [ExponentialSmoothing(s, trend='add', ...).fit(optimized=True)]
    gives back: the in-sample fitted value at each position of [s], the
    out-of-sample prediction at each step ahead, and the exception, if
    any, with which [forecast(steps)] refuses a number of steps (it does
    for no step at all, and on an index of years that it cannot extend). *)

Record HoltWintersResults := {
  fittedvalue : nat -> float;
  prediction : nat -> float;
  forecast_error : Z -> option exn
}.

(** ** The tables *)

(** The two columns of [kenya_outbreaks_2007_2022] the modeler selects. *)
Record Outbreak := { ob_disease : string; ob_cases : Z }.

Record YearlyCase := {
  yc_disease : string;
  yc_year : Z;
  yc_cases : Z;
  yc_source : string
}.

Record Forecast := {
  fc_disease : string;
  fc_year : Z;
  fc_forecast_cases : float;
  fc_lower_ci : float;
  fc_upper_ci : float;
  fc_method : string;
  fc_data_source : string
}.

Record Database := {
  kenya_outbreaks_2007_2022 : list Outbreak;
  disease_cases_yearly : list YearlyCase;
  disease_forecasts : list Forecast
}.

Definition YEARS : list Z := Py.range 2007 2023.
Definition FORECAST_HORIZON : Z := 3.

(** ** SQL *)

Module Sql.

Section OrderBy.
Context {A : Type} (le : A -> A -> bool).

Fixpoint insert_sorted (x : A) (l : list A) : list A :=
  match l with
  | [] => [x]
  | y :: l' => if le x y then x :: l else y :: insert_sorted x l'
  end.

(** A stable sort: rows that tie keep the order they had. *)
Definition order_by (l : list A) : list A := fold_right insert_sorted [] l.
End OrderBy.

(** [SELECT disease, cases FROM kenya_outbreaks_2007_2022 ORDER BY cases DESC].
    Postgres leaves the order of rows with equal [cases] open; the model
    takes the one of the stable sort. *)
Definition select_totals (t : list Outbreak) : list (string * Z) :=
  map (fun r => (ob_disease r, ob_cases r))
      (order_by (fun a b => ob_cases b <=? ob_cases a) t).

Definition same_key (a b : YearlyCase) : bool :=
  (yc_disease a =? yc_disease b)%string && (yc_year a =? yc_year b).

(** [INSERT INTO disease_cases_yearly ... ON CONFLICT (disease, year) DO NOTHING] *)
Fixpoint insert_do_nothing (t : list YearlyCase) (rows : list YearlyCase) : list YearlyCase :=
  match rows with
  | [] => t
  | r :: rows' =>
      if existsb (same_key r) t then insert_do_nothing t rows'
      else insert_do_nothing (t ++ [r]) rows'
  end.

Definition disease_year_le (a b : YearlyCase) : bool :=
  match String.compare (yc_disease a) (yc_disease b) with
  | Lt => true
  | Eq => yc_year a <=? yc_year b
  | Gt => false
  end.

(** [SELECT disease, year, cases, source FROM disease_cases_yearly
    ORDER BY disease, year] *)
Definition select_yearly (t : list YearlyCase) : list YearlyCase :=
  order_by disease_year_le t.

Definition same_forecast_key (a b : Forecast) : bool :=
  (fc_disease a =? fc_disease b)%string && (fc_year a =? fc_year b).

Fixpoint upsert_one (t : list Forecast) (r : Forecast) : list Forecast :=
  match t with
  | [] => [r]
  | x :: t' => if same_forecast_key x r then r :: t' else x :: upsert_one t' r
  end.

(** [INSERT INTO disease_forecasts ... ON CONFLICT (disease, year) DO UPDATE SET ...] *)
Definition upsert (t : list Forecast) (rows : list Forecast) : list Forecast :=
  fold_left upsert_one rows t.

End Sql.

Section Modeler.

Variable bit_generator : Z -> nat -> float.
Variable ExponentialSmoothing : list (Z * float) -> result HoltWintersResults.

(** *** [build_synthetic_if_empty] *)

(** [rng.normal(loc, scale)]: [loc + scale * z] for the next standard
    normal [z]; a scale with its sign bit set (and not NaN) is refused. *)
Definition normal (loc scale : float) (rng : Generator) : result (float * Generator) :=
  if negb (is_nan scale) && signbit scale then Raise (ValueError "scale < 0")
  else
    let z := bit_generator (gen_seed rng) (gen_drawn rng) in
    Ok ((loc + scale * z)%float,
        {| gen_seed := gen_seed rng; gen_drawn := S (gen_drawn rng) |}).

(** The loop [for i, y in enumerate(YEARS)] that fills the provisional
    [yearly] list; [i] is the index of the head of [years]. *)
Fixpoint provisional (years : list Z) (i : Z) (base slope : float) (rng : Generator)
  : result (list float * Generator) :=
  match years with
  | [] => Ok ([], rng)
  | _ :: years' =>
      '(noise, rng1) <- normal 0 (base * 0.1) rng ;;
      let val := Py.fmax 0 (base + slope * Py.float_of_int i + noise) in
      '(rest, rng2) <- provisional years' (i + 1) base slope rng1 ;;
      Ok (val :: rest, rng2)
  end.

(** [yearly = [max(0, int(round(v * scale))) for v in yearly]] *)
Definition rescale (scale : float) (yearly : list float) : result (list Z) :=
  mapM (fun v => k <- Py.round (v * scale) ;; Ok (Z.max 0 k)) yearly.

(** The body of the loop [for disease, total_cases in totals], up to the
    corrected [yearly]; [years] stands for [YEARS]. *)
Definition synthesize (years : list Z) (total_cases : Z) (rng : Generator)
  : result (list Z * Generator) :=
  base <- Py.int_truediv total_cases (Py.len years) ;;
  let slope :=
    ((if (10000 <? total_cases)%Z then 0.15 else 0.05) * base
     / Py.float_of_int (Py.len years))%float in
  '(yearly, rng') <- provisional years 0 base slope rng ;;
  let scale := (Py.float_of_int total_cases / Py.fmax 1e-9 (Py.fsum yearly))%float in
  yearly <- rescale scale yearly ;;
  let diff := total_cases - Py.zsum yearly in
  yearly <- (if diff =? 0 then Ok yearly else Py.add_to_last yearly diff) ;;
  Ok (yearly, rng').

(** [for y, c in zip(YEARS, yearly): rows.append((disease, y, int(c), 'synthetic'))] *)
Definition synthetic_rows (disease : string) (years : list Z) (yearly : list Z)
  : list YearlyCase :=
  map (fun '(y, c) =>
         {| yc_disease := disease; yc_year := y; yc_cases := c;
            yc_source := "synthetic" |})
      (combine years yearly).

(** The loop [for disease, total_cases in totals] with its one shared [rng]. *)
Fixpoint synthesize_all (years : list Z) (totals : list (string * Z)) (rng : Generator)
  : result (list YearlyCase) :=
  match totals with
  | [] => Ok []
  | (disease, total_cases) :: totals' =>
      '(yearly, rng') <- synthesize years total_cases rng ;;
      rows <- synthesize_all years totals' rng' ;;
      Ok (synthetic_rows disease years yearly ++ rows)
  end.

(** The guard on the row count of [disease_cases_yearly], then the batch
    and its one [INSERT]. *)
Definition build_synthetic_if_empty (db : Database) : result Database :=
  if 0 <? Py.len (disease_cases_yearly db) then Ok db
  else
    let totals := Sql.select_totals (kenya_outbreaks_2007_2022 db) in
    rows <- synthesize_all YEARS totals (default_rng 42) ;;
    Ok {| kenya_outbreaks_2007_2022 := kenya_outbreaks_2007_2022 db;
          disease_cases_yearly := Sql.insert_do_nothing (disease_cases_yearly db) rows;
          disease_forecasts := disease_forecasts db |}.

(** *** [fetch_timeseries] *)

(** [df.groupby('disease')]: one group per disease, in the order of the
    sorted frame, each keeping its rows' [year] and [cases]. *)
Definition groupby_disease (df : list YearlyCase) : list (string * list (Z * Z)) :=
  map (fun d =>
         (d, map (fun r => (yc_year r, yc_cases r))
                 (filter (fun r => (yc_disease r =? d)%string) df)))
      (nodup string_dec (map yc_disease df)).

(** The frames by disease, and the provenance of the whole batch. *)
Definition fetch_timeseries (db : Database) : list (string * list (Z * Z)) * string :=
  let df := Sql.select_yearly (disease_cases_yearly db) in
  (groupby_disease df,
   if existsb (fun r => negb (yc_source r =? "synthetic")%string) df
   then "real"%string else "synthetic"%string).

(** *** [fit_and_forecast] *)

(** [series_df.set_index('year')['cases'].astype(float).sort_index()] *)
Definition to_series (series_df : list (Z * Z)) : list (Z * float) :=
  Sql.order_by (fun a b => fst a <=? fst b)
               (map (fun '(y, c) => (y, Py.float_of_int c)) series_df).

(** [s.sum()] *)
Definition series_sum (s : list (Z * float)) : float := Py.fsum (map snd s).

(** [s.mean()]: NaN on the empty series. *)
Definition series_mean (s : list (Z * float)) : float :=
  (series_sum s / Py.float_of_int (Py.len s))%float.

Definition mean (l : list float) : float :=
  (Py.fsum l / Py.float_of_int (Py.len l))%float.

(** [resid.std(ddof=1)]: the squared deviations from the mean, summed and
    divided by [count - 1], under a square root.  (pandas adds the terms
    in an order of its own, which can change the last bits of the result;
    what is stated below of the band holds of any value of [sd].) *)
Definition std_ddof1 (l : list float) : float :=
  let avg := mean l in
  let sqr := map (fun v => ((avg - v) * (avg - v))%float) l in
  sqrt (Py.fsum sqr / Py.float_of_int (Py.len l - 1))%float.

(** [model.forecast(horizon)]: raises, or gives one prediction per step. *)
Definition forecast (model : HoltWintersResults) (horizon : Z) : result (list float) :=
  match forecast_error model horizon with
  | Some e => Raise e
  | None => Ok (map (prediction model) (seq 0 (Z.to_nat horizon)))
  end.

(** [model.fittedvalues], on the index of [s] *)
Definition fittedvalues (model : HoltWintersResults) (s : list (Z * float)) : list float :=
  map (fittedvalue model) (seq 0 (List.length s)).

(** [f = [float(s.mean())] * horizon], returned as point, lower and upper. *)
Definition naive (s : list (Z * float)) (horizon : Z) (method : string)
  : list float * list float * list float * string :=
  let f := Py.replicate (series_mean s) horizon in
  (f, f, f, method).

Definition fit_and_forecast (series_df : list (Z * Z)) (horizon : Z)
  : result (list float * list float * list float * string) :=
  let s := to_series series_df in
  if (Py.len s <? 4) || (series_sum s =? 0)%float then
    Ok (naive s horizon "naive-mean")
  else
    try_except
      (model <- ExponentialSmoothing s ;;
       fc <- forecast model horizon ;;
       let resid := map (fun '(v, f) => (v - f)%float)
                        (combine (map snd s) (fittedvalues model s)) in
       let sd :=
         if 1 <? Py.len resid then std_ddof1 resid
         else if (0 <? series_mean s)%float then (0.15 * series_mean s)%float
              else 1%float in
       let lower := map (fun p => (p - 1.96 * sd)%float) fc in
       let upper := map (fun p => (p + 1.96 * sd)%float) fc in
       Ok (fc, lower, upper, "holt-winters-additive"%string))
      (fun e =>
         Ok (naive s horizon ("fallback-mean (" ++ str e ++ ")")%string)).

(** *** [write_forecasts] and [main] *)

(** The upsert of the rows into [disease_forecasts]. *)
Definition write_forecasts (db : Database) (forecasts_rows : list Forecast) : Database :=
  {| kenya_outbreaks_2007_2022 := kenya_outbreaks_2007_2022 db;
     disease_cases_yearly := disease_cases_yearly db;
     disease_forecasts := Sql.upsert (disease_forecasts db) forecasts_rows |}.

(** [int(df['year'].max())]; the maximum of no year is NaN, which has no int. *)
Definition year_max (df : list (Z * Z)) : result Z :=
  match df with
  | [] => Raise (ValueError "cannot convert float NaN to integer")
  | (y, _) :: df' => Ok (fold_left Z.max (map fst df') y)
  end.

(** [a[i]] on an array *)
Definition item (a : list float) (i : nat) : result float :=
  match nth_error a i with
  | Some x => Ok x
  | None => Raise (IndexError "index out of bounds")
  end.

(** [enumerate(l)] *)
Definition enumerate {A} (l : list A) : list (nat * A) :=
  combine (seq 0 (List.length l)) l.

(** The body of [for disease, df in ts_map.items()]: the rows it appends
    to [all_rows]. *)
Definition forecast_rows (horizon : Z) (data_source : string)
           (disease : string) (df : list (Z * Z)) : result (list Forecast) :=
  '(fc, lo, hi, method) <- fit_and_forecast df horizon ;;
  ymax <- year_max df ;;
  let start_year := ymax + 1 in
  mapM (fun '(i, y) =>
          p <- item fc i ;;
          l <- item lo i ;;
          u <- item hi i ;;
          Ok {| fc_disease := disease; fc_year := y;
                fc_forecast_cases := p; fc_lower_ci := l; fc_upper_ci := u;
                fc_method := method; fc_data_source := data_source |})
       (enumerate (Py.range start_year (start_year + horizon))).

(** [all_rows] as [main] hands it to [write_forecasts]. *)
Definition all_rows (horizon : Z) (db : Database) : result (list Forecast) :=
  let '(ts_map, data_source) := fetch_timeseries db in
  rows <- mapM (fun '(disease, df) => forecast_rows horizon data_source disease df)
               ts_map ;;
  Ok (List.concat rows).

(** [main], with the horizon it reads from [FORECAST_HORIZON] as an argument. *)
Definition run (horizon : Z) (db : Database) : result Database :=
  db1 <- build_synthetic_if_empty db ;;
  rows <- all_rows horizon db1 ;;
  Ok (write_forecasts db1 rows).

Definition main (db : Database) : result Database := run FORECAST_HORIZON db.

End Modeler.

(** ** Binary64 vocabulary

    The statements about the floating-point stage are made on the
    specification side ([Prim2SF]) of the primitive floats. *)

Module Binary64.

(** The exponent a number of magnitude [e] is rounded to. *)
Definition fexp64 (e : Z) : Z := fexp prec emax e.

(** The mantissa of an integer [p < 2^53], padded to 53 digits. *)
Definition canon (p : positive) : positive :=
  Z.to_pos (Zpos p * 2 ^ (53 - Zpos (digits2_pos p))).

(** The binary64 number that is the integer [z], [|z| < 2^53]. *)
Definition int_rep (z : Z) : spec_float :=
  match z with
  | Z0 => S754_zero false
  | Zpos p => S754_finite false (canon p) (Zpos (digits2_pos p) - 53)
  | Zneg p => S754_finite true (canon p) (Zpos (digits2_pos p) - 53)
  end.

(** [sf_bounded k x]: [x] is a zero or a finite number below [2^k] in
    absolute value. *)
Definition sf_bounded (k : Z) (x : spec_float) : Prop :=
  match x with
  | S754_zero _ => True
  | S754_finite _ m e => Zpos (digits2_pos m) + e <= k
  | _ => False
  end.

(** [sf_lower k x]: [x] is finite, not zero, and at least [2^(k-1)] in
    absolute value. *)
Definition sf_lower (k : Z) (x : spec_float) : Prop :=
  match x with
  | S754_finite _ m e => k <= Zpos (digits2_pos m) + e
  | _ => False
  end.

(** The sign of a number that has one. *)
Definition sf_signed (s : bool) (x : spec_float) : Prop :=
  match x with
  | S754_zero s' | S754_infinity s' | S754_finite s' _ _ => s' = s
  | S754_nan => True
  end.

(** The same on the primitive floats. *)
Definition bounded (k : Z) (x : float) : Prop := sf_bounded k (Prim2SF x).

Definition lower (k : Z) (x : float) : Prop := sf_lower k (Prim2SF x).

(** Not negative: a sign bit that is not set. *)
Definition nonneg (x : float) : Prop := sf_signed false (Prim2SF x).

End Binary64.

(** ** Views and sample collaborators used in the statements *)

(** The generator after [k] more draws. *)
Definition advance (rng : Generator) (k : nat) : Generator :=
  {| gen_seed := gen_seed rng; gen_drawn := (gen_drawn rng + k)%nat |}.

(** The yearly series a list of rows holds for one disease. *)
Definition series_of (disease : string) (rows : list YearlyCase) : list (Z * Z) :=
  map (fun r => (yc_year r, yc_cases r))
      (filter (fun r => (yc_disease r =? disease)%string) rows).

(** The batch provenance of a store: real as soon as one row is not synthetic. *)
Definition provenance (store : list YearlyCase) : string :=
  if existsb (fun r => negb (yc_source r =? "synthetic")%string) store
  then "real"%string else "synthetic"%string.


(** The sum of the absolute values, which bounds every partial sum. *)
Definition abs_sum (l : list Z) : Z := fold_right (fun c s => Z.abs c + s) 0 l.


(** A generator without noise: every variate is [0.0]. *)
Definition no_noise : Z -> nat -> float := fun _ _ => 0%float.

(** A generator with sixteen variates of the size a standard normal gives,
    then none. *)
Definition sample_noise : Z -> nat -> float :=
  fun _ k =>
    nth k [0.30471708; -1.03998411; 0.7504512; 0.94056472; -1.95103519;
           -1.30217951; 0.1278404; -0.31624259; -0.01680116; -0.85304393;
           0.87939797; 0.77779194; 0.0660307; 1.12724121; 0.46750934;
           -0.85929246]%float 0%float.

(** A fit that always fails, as statsmodels does when it cannot converge. *)
Definition failing_fit (msg : string) : list (Z * float) -> result HoltWintersResults :=
  fun _ => Raise (LibraryError msg).

(** A fit that succeeds: it reproduces the series in sample and continues
    the last step out of sample. *)
Definition linear_fit : list (Z * float) -> result HoltWintersResults :=
  fun s =>
    let v := map snd s in
    let last_v := last v 0%float in
    let step := (last_v - last (removelast v) 0)%float in
    Ok {| fittedvalue := fun i => nth i v 0%float;
          prediction := fun k => (last_v + step * Py.float_of_int (Z.of_nat (S k)))%float;
          forecast_error := fun steps =>
            if steps <? 1 then Some (ValueError "no step to forecast") else None |}.


(** A yearly store with one row that is not synthetic. *)
Definition mixed_store : Database :=
  {| kenya_outbreaks_2007_2022 := [];
     disease_cases_yearly :=
       [ {| yc_disease := "Cholera"; yc_year := 2021; yc_cases := 12;
            yc_source := "synthetic" |};
         {| yc_disease := "Measles"; yc_year := 2022; yc_cases := 40;
            yc_source := "moh-bulletin" |} ];
     disease_forecasts := [] |}.

(** A store with two aggregates and no yearly row yet, and what the
    synthetic fill makes of it under [sample_noise]. *)
Definition fresh_store : Database :=
  {| kenya_outbreaks_2007_2022 :=
       [ {| ob_disease := "Rabies"; ob_cases := 9 |};
         {| ob_disease := "Cholera"; ob_cases := 123456 |} ];
     disease_cases_yearly := [];
     disease_forecasts := [] |}.

Definition filled_store : Database :=
  Eval vm_compute in
    match build_synthetic_if_empty sample_noise fresh_store with
    | Ok db => db
    | Raise _ => fresh_store
    end.

(** Two aggregates and no yearly row: [first] with a total of its own,
    [second] with a total that puts it before or after [first] in the
    order of the query. *)
Definition two_outbreaks (first : string) (total : Z) (second : string) (other : Z)
  : Database :=
  {| kenya_outbreaks_2007_2022 :=
       [ {| ob_disease := first; ob_cases := total |};
         {| ob_disease := second; ob_cases := other |} ];
     disease_cases_yearly := [];
     disease_forecasts := [] |}.

(** The database after the synthesis step, when the step returns. *)
Definition synthesized (bit_generator : Z -> nat -> float) (db : Database) : Database :=
  match build_synthetic_if_empty bit_generator db with
  | Ok db' => db'
  | Raise _ => db
  end.

(** ** The helper [main] does not call, and the connection *)

(** [table_has_real_yearly_data]: whether the count of the rows of
    [disease_cases_yearly] with [source <> 'synthetic'] is above zero. *)
Definition table_has_real_yearly_data (db : Database) : bool :=
  0 <? Py.len (filter (fun r => negb (yc_source r =? "synthetic")%string)
                      (disease_cases_yearly db)).

(** A psycopg2 connection: what identifies the session, and its
    [autocommit] attribute. *)
Record Connection := { conn_handle : Z; autocommit : bool }.

(** What [connect] ends with: the connection it returns, or the
    [RuntimeError] it raises. *)
Inductive connect_outcome : Type :=
| Connected (conn : Connection)
| RuntimeError (msg : string).

Section Connect.

(** [psycopg2.connect(...)] is not part of the repository:
    [psycopg2_connect i] is what its call in round [i] of the loop gives. *)
Variable psycopg2_connect : nat -> result Connection.

(** The loop [for i in range(20)], at round [i] with [n] rounds to go;
    [slept] counts the seconds of [time.sleep(3)] so far. *)
Fixpoint connect_loop (n i : nat) (slept : Z) : connect_outcome * Z :=
  match n with
  | O => (RuntimeError "Could not connect to Postgres", slept)
  | S n' =>
      match psycopg2_connect i with
      | Ok conn =>
          (Connected {| conn_handle := conn_handle conn; autocommit := true |}, slept)
      | Raise _ => connect_loop n' (S i) (slept + 3)
      end
  end.

Definition connect : connect_outcome * Z := connect_loop 20 0 0.

End Connect.

(** A server that refuses the first three connections. *)
Definition slow_server : nat -> result Connection :=
  fun i => if (i <? 3)%nat then Raise (LibraryError "connection refused")
           else Ok {| conn_handle := Z.of_nat i; autocommit := false |}.

(** What one entity contributes: the rows of [forecast_rows], all under
    its name, one for each of [horizon] distinct years. *)
Definition entity_rows (ExponentialSmoothing : list (Z * float) -> result HoltWintersResults)
           (horizon : Z) (data_source : string)
           (g : string * list (Z * Z)) (rs : list Forecast) : Prop :=
  forecast_rows ExponentialSmoothing horizon data_source (fst g) (snd g) = Ok rs
  /\ Forall (fun r => fc_disease r = fst g) rs
  /\ NoDup (map fc_year rs)
  /\ List.length rs = Z.to_nat horizon.

(** A series of four points with a steady trend. *)
Definition four_points : list (Z * Z) :=
  [(2019, 100); (2020, 120); (2021, 140); (2022, 160)].

(** The keys of the two tables the modeler writes. *)
Definition yearly_key (r : YearlyCase) : string * Z := (yc_disease r, yc_year r).

Definition forecast_key (r : Forecast) : string * Z := (fc_disease r, fc_year r).

(** * Properties *)

(** ** The [result] monad *)

Lemma bind_ok {A B} (m : result A) (k : A -> result B) (b : B) :
  bind m k = Ok b -> exists a, m = Ok a /\ k a = Ok b.
Proof.
  destruct m as [a | e]; simpl; intros H; [ eauto | discriminate ].
Qed.

Ltac inv_bind H :=
  let a := fresh "a" in
  let Ha := fresh "Hm" in
  apply bind_ok in H; destruct H as (a & Ha & H).

Lemma mapM_length {A B} (f : A -> result B) (l : list A) (l' : list B) :
  mapM f l = Ok l' -> List.length l' = List.length l.
Proof.
  revert l'; induction l as [| a l IH]; simpl; intros l' H.
  - injection H as <-; reflexivity.
  - inv_bind H. inv_bind H. injection H as <-. simpl. f_equal. eauto.
Qed.

Lemma mapM_Forall {A B} (f : A -> result B) (P : B -> Prop) (l : list A) (l' : list B) :
  (forall a b, In a l -> f a = Ok b -> P b) ->
  mapM f l = Ok l' -> Forall P l'.
Proof.
  revert l'; induction l as [| a l IH]; simpl; intros l' Hf H.
  - injection H as <-; constructor.
  - inv_bind H. inv_bind H. injection H as <-. constructor; eauto.
Qed.

Lemma mapM_ok {A B} (f : A -> result B) (l : list A) :
  (forall a, In a l -> exists b, f a = Ok b) ->
  exists l', mapM f l = Ok l'.
Proof.
  induction l as [| a l IH]; simpl; intros Hf; [ eauto |].
  destruct (Hf a) as [b ->]; [ auto |].
  destruct IH as [l' ->]; [ auto |].
  simpl; eauto.
Qed.

(** ** Integer lists *)

Lemma zsum_acc (l : list Z) (a : Z) : fold_left Z.add l a = a + Py.zsum l.
Proof.
  unfold Py.zsum. revert a; induction l as [| x l IH]; simpl; intros a.
  - lia.
  - rewrite IH, (IH x). lia.
Qed.

Lemma zsum_cons (x : Z) (l : list Z) : Py.zsum (x :: l) = x + Py.zsum l.
Proof. unfold Py.zsum at 1; simpl. apply zsum_acc. Qed.

Lemma zsum_app (l1 l2 : list Z) : Py.zsum (l1 ++ l2) = Py.zsum l1 + Py.zsum l2.
Proof.
  induction l1 as [| x l1 IH]; simpl.
  - reflexivity.
  - rewrite !zsum_cons, IH. lia.
Qed.

Lemma zsum_removelast_last (l : list Z) :
  l <> [] -> Py.zsum l = Py.zsum (removelast l) + last l 0.
Proof.
  intros Hl. rewrite (app_removelast_last 0 Hl) at 1.
  rewrite zsum_app, zsum_cons. change (Py.zsum []) with 0. lia.
Qed.

(** [l[-1] += d] keeps every element but the last, which grows by [d]. *)
Lemma add_to_last_spec (l : list Z) (d : Z) :
  l <> [] ->
  exists l', Py.add_to_last l d = Ok l'
             /\ removelast l' = removelast l
             /\ last l' 0 = last l 0 + d
             /\ List.length l' = List.length l.
Proof.
  induction l as [| x l IH]; intros Hl; [ congruence |].
  destruct l as [| y l].
  - simpl. eexists; repeat split.
  - destruct IH as (l' & E & Hr & Hla & Hlen); [ discriminate |].
    change (Py.add_to_last (x :: y :: l) d)
      with (l'' <- Py.add_to_last (y :: l) d ;; Ok (x :: l'')).
    rewrite E. simpl bind.
    assert (Hl' : l' <> []) by (destruct l'; simpl in Hlen; congruence).
    exists (x :: l'). split; [ reflexivity |].
    destruct l' as [| z l']; [ congruence |].
    change (removelast (x :: z :: l')) with (x :: removelast (z :: l')).
    change (last (x :: z :: l') 0) with (last (z :: l') 0).
    change (removelast (x :: y :: l)) with (x :: removelast (y :: l)).
    change (last (x :: y :: l) 0) with (last (y :: l) 0).
    repeat split; [ congruence | assumption | simpl in *; congruence ].
Qed.

Lemma range_length (a b : Z) : List.length (Py.range a b) = Z.to_nat (b - a).
Proof. unfold Py.range. rewrite length_map, length_seq. reflexivity. Qed.

Lemma replicate_length {A} (x : A) (n : Z) :
  List.length (Py.replicate x n) = Z.to_nat n.
Proof. apply repeat_length. Qed.

(** ** The synthesizer *)

Section SynthesizerFacts.

Variable bit_generator : Z -> nat -> float.


Lemma provisional_spec years : forall i base slope rng yearly rng',
  provisional bit_generator years i base slope rng = Ok (yearly, rng') ->
  List.length yearly = List.length years
  /\ gen_seed rng' = gen_seed rng
  /\ gen_drawn rng' = (gen_drawn rng + List.length years)%nat.
Proof.
  induction years as [| y years IH]; simpl; intros i base slope rng yearly rng' H.
  - injection H as <- <-. repeat split. lia.
  - inv_bind H. destruct a as [noise rng1].
    inv_bind H. destruct a as [rest rng2]. injection H as <- <-.
    apply IH in Hm0. destruct Hm0 as (Hlen & Hseed & Hdrawn).
    unfold normal in Hm.
    destruct (negb (is_nan (base * 0.1)) && signbit (base * 0.1));
      [ discriminate |].
    injection Hm as _ <-. simpl in *. repeat split; [ congruence | assumption | lia ].
Qed.

Lemma rescale_nonneg scale yearly yearly' :
  rescale scale yearly = Ok yearly' -> Forall (fun c => 0 <= c) yearly'.
Proof.
  apply mapM_Forall. intros v c _ H. inv_bind H. injection H as <-. lia.
Qed.

(** What [synthesize bit_generator] returns, in terms of the rescaled list before the
    drift correction. *)
Lemma synthesize_inv years total_cases rng yearly rng' :
  synthesize bit_generator years total_cases rng = Ok (yearly, rng') ->
  exists rounded,
    Forall (fun c => 0 <= c) rounded
    /\ List.length rounded = List.length years
    /\ List.length yearly = List.length years
    /\ years <> []
    /\ removelast yearly = removelast rounded
    /\ last yearly 0 = last rounded 0 + (total_cases - Py.zsum rounded)
    /\ gen_seed rng' = gen_seed rng
    /\ gen_drawn rng' = (gen_drawn rng + List.length years)%nat.
Proof.
  unfold synthesize. intros H.
  inv_bind H. rename a into base.
  assert (Hy : years <> []).
  { unfold Py.int_truediv in Hm. intros ->. simpl in Hm. discriminate. }
  inv_bind H. destruct a as [prov rng1].
  inv_bind H. rename a into rounded.
  inv_bind H. injection H as <- <-.
  pose proof (provisional_spec _ _ _ _ _ _ _ Hm0) as (Hlen & Hseed & Hdrawn).
  pose proof (rescale_nonneg _ _ _ Hm1) as Hnn.
  pose proof (mapM_length _ _ _ Hm1) as Hlen'.
  exists rounded.
  destruct (total_cases - Py.zsum rounded =? 0) eqn:Ed.
  - injection Hm2 as <-. apply Z.eqb_eq in Ed.
    repeat split; try congruence; try lia.
  - destruct (add_to_last_spec rounded (total_cases - Py.zsum rounded))
      as (l' & E & Hr & Hla & Hl).
    { intros ->. simpl in Hlen'. destruct years; simpl in *; congruence. }
    rewrite E in Hm2. injection Hm2 as <-.
    repeat split; try congruence; try lia.
Qed.

End SynthesizerFacts.

(** ** Binary64: what rounding keeps

    The primitive operations are specified on [spec_float] through
    [binary_round_aux].  A positive mantissa above the underflow threshold
    rounds to a positive mantissa, and the result stays finite below the
    overflow threshold. *)

Module Binary64Facts.

Import Binary64.

Lemma digits2_pos_bounds (p : positive) :
  2 ^ (Zpos (digits2_pos p) - 1) <= Zpos p < 2 ^ Zpos (digits2_pos p).
Proof.
  induction p as [p IH | p IH |]; simpl digits2_pos;
    rewrite ?Pos2Z.inj_succ.
  - replace (Z.succ (Zpos (digits2_pos p)) - 1) with (Z.succ (Zpos (digits2_pos p) - 1)) by lia.
    rewrite !Z.pow_succ_r by lia. lia.
  - replace (Z.succ (Zpos (digits2_pos p)) - 1) with (Z.succ (Zpos (digits2_pos p) - 1)) by lia.
    rewrite !Z.pow_succ_r by lia. lia.
  - simpl. lia.
Qed.

Lemma Zdigits2_bounds (m : Z) :
  0 < m -> 0 < Zdigits2 m /\ 2 ^ (Zdigits2 m - 1) <= m < 2 ^ Zdigits2 m.
Proof.
  destruct m as [| p | p]; try lia. intros _. simpl Zdigits2.
  split; [ lia | apply digits2_pos_bounds ].
Qed.

Lemma Zdigits2_unique (m j : Z) :
  2 ^ (j - 1) <= m < 2 ^ j -> 0 < j -> Zdigits2 m = j.
Proof.
  intros [Hlo Hhi] Hj.
  assert (Hm : 0 < m) by (pose proof (Z.pow_pos_nonneg 2 (j - 1)); lia).
  destruct (Zdigits2_bounds m Hm) as (Hd & Hdlo & Hdhi).
  destruct (Z.lt_trichotomy (Zdigits2 m) j) as [H | [H | H]]; [ | assumption | ].
  - assert (2 ^ Zdigits2 m <= 2 ^ (j - 1)) by (apply Z.pow_le_mono_r; lia). lia.
  - assert (2 ^ j <= 2 ^ (Zdigits2 m - 1)) by (apply Z.pow_le_mono_r; lia). lia.
Qed.

Lemma Zdigits2_mono (a b : Z) : 0 < a <= b -> Zdigits2 a <= Zdigits2 b.
Proof.
  intros [Ha Hab].
  destruct (Zdigits2_bounds a Ha) as (Hda & Halo & Hahi).
  destruct (Zdigits2_bounds b ltac:(lia)) as (Hdb & Hblo & Hbhi).
  destruct (Z_le_gt_dec (Zdigits2 a) (Zdigits2 b)) as [H | H]; [ assumption |].
  assert (2 ^ Zdigits2 b <= 2 ^ (Zdigits2 a - 1)) by (apply Z.pow_le_mono_r; lia).
  lia.
Qed.

Lemma Zdigits2_succ (m : Z) :
  0 < m -> Zdigits2 m <= Zdigits2 (m + 1) <= Zdigits2 m + 1.
Proof.
  intros Hm. split; [ apply Zdigits2_mono; lia |].
  destruct (Zdigits2_bounds m Hm) as (Hd & Hlo & Hhi).
  destruct (Zdigits2_bounds (m + 1) ltac:(lia)) as (Hd' & Hlo' & Hhi').
  destruct (Z_le_gt_dec (Zdigits2 (m + 1)) (Zdigits2 m + 1)) as [H | H]; [ assumption |].
  assert (2 ^ (Zdigits2 m + 1) <= 2 ^ (Zdigits2 (m + 1) - 1))
    by (apply Z.pow_le_mono_r; lia).
  rewrite Z.pow_add_r in * by lia. lia.
Qed.

(** Dropping [k] low bits of a number of [d > k] digits leaves [d - k] digits. *)
Lemma Zdigits2_div_pow2 (m k : Z) :
  0 < m -> 0 <= k < Zdigits2 m ->
  0 < m / 2 ^ k /\ Zdigits2 (m / 2 ^ k) = Zdigits2 m - k.
Proof.
  intros Hm Hk.
  destruct (Zdigits2_bounds m Hm) as (Hd & Hlo & Hhi).
  assert (Hp : 0 < 2 ^ k) by (apply Z.pow_pos_nonneg; lia).
  assert (Hlo' : 2 ^ (Zdigits2 m - k - 1) <= m / 2 ^ k).
  { apply Z.div_le_lower_bound; [ assumption |].
    rewrite <- Z.pow_add_r by lia.
    replace (k + (Zdigits2 m - k - 1)) with (Zdigits2 m - 1) by lia. assumption. }
  assert (Hhi' : m / 2 ^ k < 2 ^ (Zdigits2 m - k)).
  { apply Z.div_lt_upper_bound; [ assumption |].
    rewrite <- Z.pow_add_r by lia.
    replace (k + (Zdigits2 m - k)) with (Zdigits2 m) by lia. assumption. }
  split.
  - pose proof (Z.pow_pos_nonneg 2 (Zdigits2 m - k - 1)). lia.
  - apply Zdigits2_unique; [ | lia ]. split; assumption.
Qed.

Lemma shr_1_m (r : shr_record) : 0 <= shr_m r -> shr_m (shr_1 r) = shr_m r / 2.
Proof.
  destruct r as [m r s]; simpl shr_m at 1 2. intros Hm.
  destruct m as [| [p | p |] | p]; simpl; try lia; try reflexivity.
  - rewrite Pos2Z.inj_xI.
    apply Z.div_unique with (r := 1); lia.
  - rewrite Pos2Z.inj_xO.
    apply Z.div_unique with (r := 0); lia.
Qed.

Lemma div_pow2_nonneg (m j : Z) : 0 <= m -> 0 <= j -> 0 <= m / 2 ^ j.
Proof.
  intros Hm Hj. apply Z.div_pos; [ lia | apply Z.pow_pos_nonneg; lia ].
Qed.

Lemma div_pow2_div_pow2 (m a b : Z) :
  0 <= a -> 0 <= b -> m / 2 ^ a / 2 ^ b = m / 2 ^ (a + b).
Proof.
  intros Ha Hb. rewrite Z.pow_add_r by lia.
  pose proof (Z.pow_pos_nonneg 2 a ltac:(lia) Ha).
  pose proof (Z.pow_pos_nonneg 2 b ltac:(lia) Hb).
  apply Z.div_div; lia.
Qed.

Lemma iter_shr_1_m (k : positive) : forall r : shr_record,
  0 <= shr_m r -> shr_m (iter_pos shr_1 k r) = shr_m r / 2 ^ Zpos k.
Proof.
  induction k as [k IH | k IH |]; intros r Hr; simpl iter_pos.
  - assert (H1 : 0 <= shr_m (shr_1 r)).
    { rewrite shr_1_m by assumption. apply (div_pow2_nonneg _ 1); lia. }
    assert (H2 : 0 <= shr_m (iter_pos shr_1 k (shr_1 r))).
    { rewrite IH by assumption. apply div_pow2_nonneg; lia. }
    rewrite IH, IH, shr_1_m by assumption.
    change (shr_m r / 2) with (shr_m r / 2 ^ 1).
    rewrite !div_pow2_div_pow2 by lia.
    f_equal. f_equal. lia.
  - assert (H2 : 0 <= shr_m (iter_pos shr_1 k r)).
    { rewrite IH by assumption. apply div_pow2_nonneg; lia. }
    rewrite IH, IH by assumption.
    rewrite !div_pow2_div_pow2 by lia.
    f_equal. f_equal. lia.
  - rewrite shr_1_m by assumption. reflexivity.
Qed.

Lemma shr_record_of_loc_m (m : Z) (l : location) : shr_m (shr_record_of_loc m l) = m.
Proof. destruct l as [| []]; reflexivity. Qed.

Lemma fexp64_eq (e : Z) : fexp64 e = Z.max (e - 53) (-1074).
Proof. reflexivity. Qed.

(** One alignment step of the rounding: above the underflow threshold the
    mantissa stays positive and the magnitude [digits + exponent] is kept. *)
Lemma shr_fexp_spec (m e : Z) (l : location) :
  0 < m -> -1074 < Zdigits2 m + e ->
  exists r e',
    shr_fexp prec emax m e l = (r, e')
    /\ 0 < shr_m r
    /\ Zdigits2 (shr_m r) + e' = Zdigits2 m + e
    /\ e' = Z.max e (fexp64 (Zdigits2 m + e)).
Proof.
  intros Hm HT. unfold shr_fexp, shr.
  fold (fexp64 (Zdigits2 m + e)).
  pose proof (fexp64_eq (Zdigits2 m + e)) as Hf.
  destruct (Zdigits2_bounds m Hm) as (Hd & _).
  destruct (fexp64 (Zdigits2 m + e) - e) as [| k | k] eqn:Ek.
  - do 2 eexists. split; [ reflexivity |].
    rewrite shr_record_of_loc_m. repeat split; lia.
  - do 2 eexists. split; [ reflexivity |].
    rewrite iter_shr_1_m by (rewrite shr_record_of_loc_m; lia).
    rewrite shr_record_of_loc_m.
    destruct (Zdigits2_div_pow2 m (Zpos k) Hm ltac:(lia)) as [Hpos Hdig].
    repeat split; lia.
  - do 2 eexists. split; [ reflexivity |].
    rewrite shr_record_of_loc_m. repeat split; lia.
Qed.

Lemma round_nearest_even_bounds (m : Z) (l : location) :
  m <= round_nearest_even m l <= m + 1.
Proof.
  destruct l as [| []]; simpl; try lia. destruct (Z.even m); lia.
Qed.

(** Rounding a positive mantissa in the normal range gives a finite,
    non-zero number whose magnitude grew by at most one binade. *)
Lemma binary_round_aux_finite (s : bool) (m e : Z) (l : location) :
  0 < m -> -1074 < Zdigits2 m + e -> Zdigits2 m + e < 1024 -> e <= 971 ->
  exists m' e',
    binary_round_aux prec emax s m e l = S754_finite s m' e'
    /\ Zdigits2 m + e <= Zpos (digits2_pos m') + e' <= Zdigits2 m + e + 1.
Proof.
  intros Hm Hlo Hhi He. unfold binary_round_aux.
  destruct (shr_fexp_spec m e l Hm Hlo) as (r1 & e1 & -> & Hr1 & HT1 & He1).
  pose proof (round_nearest_even_bounds (shr_m r1) (loc_of_shr_record r1)) as Hrne.
  set (m2 := round_nearest_even (shr_m r1) (loc_of_shr_record r1)) in *.
  assert (Hm2 : 0 < m2) by lia.
  assert (Hd2 : Zdigits2 (shr_m r1) <= Zdigits2 m2 <= Zdigits2 (shr_m r1) + 1).
  { pose proof (Zdigits2_succ (shr_m r1) Hr1).
    assert (m2 = shr_m r1 \/ m2 = shr_m r1 + 1) as [-> | ->] by lia; lia. }
  destruct (shr_fexp_spec m2 e1 loc_Exact Hm2 ltac:(lia)) as (r2 & e2 & -> & Hr2 & HT2 & He2).
  pose proof (fexp64_eq (Zdigits2 m + e)) as Hf1.
  pose proof (fexp64_eq (Zdigits2 m2 + e1)) as Hf2.
  destruct (shr_m r2) as [| p | p] eqn:Ep; try lia.
  replace (e2 <=? emax - prec) with true.
  - do 2 eexists. split; [ reflexivity |]. simpl Zdigits2 in HT2. lia.
  - symmetry. apply Z.leb_le. change (emax - prec) with 971. lia.
Qed.

Lemma iter_xO_digits (p : positive) (k : positive) :
  Zpos (digits2_pos (Pos.iter xO p k)) = Zpos (digits2_pos p) + Zpos k.
Proof.
  revert p. induction k as [| k IH] using Pos.peano_ind; intros p.
  - simpl. lia.
  - rewrite Pos.iter_succ. simpl digits2_pos. rewrite Pos2Z.inj_succ, IH. lia.
Qed.

(** [binary_round] first pads the mantissa to the target exponent. *)
Lemma binary_round_finite (s : bool) (m : positive) (e : Z) :
  -1074 < Zpos (digits2_pos m) + e -> Zpos (digits2_pos m) + e < 1024 ->
  exists m' e',
    binary_round prec emax s m e = S754_finite s m' e'
    /\ Zpos (digits2_pos m) + e <= Zpos (digits2_pos m') + e'
       <= Zpos (digits2_pos m) + e + 1.
Proof.
  intros Hlo Hhi. unfold binary_round, shl_align.
  fold (fexp64 (Zpos (digits2_pos m) + e)).
  pose proof (fexp64_eq (Zpos (digits2_pos m) + e)) as Hf.
  destruct (fexp64 (Zpos (digits2_pos m) + e) - e) as [| k | k] eqn:Ek.
  - apply binary_round_aux_finite; simpl Zdigits2; lia.
  - apply binary_round_aux_finite; simpl Zdigits2; lia.
  - destruct (binary_round_aux_finite s (Zpos (Pos.iter xO m k))
                (fexp64 (Zpos (digits2_pos m) + e)) loc_Exact)
      as (m' & e' & E & Hb);
      simpl Zdigits2; rewrite ?iter_xO_digits; try lia.
    exists m', e'. split; [ exact E |].
    simpl Zdigits2 in Hb. rewrite iter_xO_digits in Hb. lia.
Qed.

(** The conversion of a positive 63-bit integer is positive and finite. *)
Lemma of_uint63_finite (n : Z) :
  0 < n < 2 ^ 63 ->
  exists m e, Prim2SF (of_uint63 (Uint63.of_Z n)) = S754_finite false m e.
Proof.
  intros Hn. rewrite of_uint63_spec, Uint63.of_Z_spec.
  rewrite Z.mod_small by (change wB with (2 ^ 63); lia).
  destruct n as [| p | p]; try lia. simpl binary_normalize.
  assert (Hd : 0 < Zpos (digits2_pos p) <= 63).
  { split; [ lia |].
    destruct (Z_le_gt_dec (Zpos (digits2_pos p)) 63) as [H | H]; [ assumption |].
    pose proof (digits2_pos_bounds p) as [Hb _].
    assert (2 ^ 63 <= 2 ^ (Zpos (digits2_pos p) - 1)) by (apply Z.pow_le_mono_r; lia).
    lia. }
  destruct (binary_round_finite false p 0) as (m & e & E & _); try lia.
  eauto.
Qed.

Lemma float_of_int_pos (n : Z) :
  0 < n < 2 ^ 63 ->
  exists m e, Prim2SF (Py.float_of_int n) = S754_finite false m e.
Proof.
  intros Hn. destruct n as [| p | p]; try lia.
  apply of_uint63_finite. assumption.
Qed.

(** Zero divided by a positive count is zero. *)
Lemma zero_div_count (n : Z) :
  0 < n < 2 ^ 63 -> (0 / Py.float_of_int n)%float = 0%float.
Proof.
  intros Hn. destruct (float_of_int_pos n Hn) as (m & e & E).
  apply Prim2SF_inj. rewrite div_spec, E. reflexivity.
Qed.

(** *** Integers are exact

    An integer below [2^53] in absolute value has one representation,
    with its mantissa padded to 53 digits; sums of such integers that stay
    below [2^53] are computed without rounding. *)

Lemma iter_xO_value (m k : positive) :
  Zpos (Pos.iter xO m k) = Zpos m * 2 ^ Zpos k.
Proof.
  induction k as [| k IH] using Pos.peano_ind.
  - simpl. lia.
  - rewrite Pos.iter_succ, Pos2Z.inj_succ, Z.pow_succ_r by lia.
    change (Zpos (Pos.iter xO m k)~0) with (2 * Zpos (Pos.iter xO m k)).
    rewrite IH. lia.
Qed.

Lemma shr_1_exact (m : Z) :
  0 <= m ->
  shr_1 {| shr_m := 2 * m; shr_r := false; shr_s := false |}
  = {| shr_m := m; shr_r := false; shr_s := false |}.
Proof. destruct m as [| p | p]; try lia; reflexivity. Qed.

Lemma iter_shr_1_exact (k : positive) : forall m,
  0 <= m ->
  iter_pos shr_1 k {| shr_m := m * 2 ^ Zpos k; shr_r := false; shr_s := false |}
  = {| shr_m := m; shr_r := false; shr_s := false |}.
Proof.
  induction k as [k IH | k IH |]; intros m Hm.
  - replace (m * 2 ^ Zpos k~1) with (2 * ((m * 2 ^ Zpos k) * 2 ^ Zpos k)).
    + pose proof (Z.pow_pos_nonneg 2 (Zpos k) ltac:(lia) ltac:(lia)).
      cbn [iter_pos]. rewrite shr_1_exact by nia.
      rewrite IH by nia. apply IH. assumption.
    + rewrite Pos2Z.inj_xI.
      replace (2 * Zpos k + 1) with (1 + Zpos k + Zpos k) by lia.
      rewrite !Z.pow_add_r by lia. change (2 ^ 1) with 2. ring.
  - replace (m * 2 ^ Zpos k~0) with ((m * 2 ^ Zpos k) * 2 ^ Zpos k).
    + pose proof (Z.pow_pos_nonneg 2 (Zpos k) ltac:(lia) ltac:(lia)).
      cbn [iter_pos]. rewrite IH by nia. apply IH. assumption.
    + replace (Zpos k~0) with (Zpos k + Zpos k) by lia.
      rewrite !Z.pow_add_r by lia. ring.
  - replace (m * 2 ^ 1) with (2 * m) by (change (2 ^ 1) with 2; ring).
    cbn [iter_pos]. apply shr_1_exact. assumption.
Qed.

(** A mantissa already at its target exponent is kept by the rounding. *)
Lemma binary_round_aux_canonical (s : bool) (m : positive) (e : Z) :
  fexp64 (Zpos (digits2_pos m) + e) = e -> e <= 971 ->
  binary_round_aux prec emax s (Zpos m) e loc_Exact = S754_finite s m e.
Proof.
  intros Hc He. unfold binary_round_aux, shr_fexp.
  change (Zdigits2 (Zpos m)) with (Zpos (digits2_pos m)).
  fold (fexp64 (Zpos (digits2_pos m) + e)). rewrite Hc, Z.sub_diag.
  cbn [shr shr_record_of_loc shr_m loc_of_shr_record round_nearest_even].
  change (Zdigits2 (Zpos m)) with (Zpos (digits2_pos m)).
  fold (fexp64 (Zpos (digits2_pos m) + e)). rewrite Hc, Z.sub_diag.
  cbn [shr shr_record_of_loc shr_m].
  replace (e <=? emax - prec) with true; [ reflexivity |].
  symmetry. apply Z.leb_le. change (emax - prec) with 971. assumption.
Qed.

Lemma digits2_pos_mul_pow2 (m m' : positive) (k : Z) :
  0 <= k -> Zpos m' = Zpos m * 2 ^ k ->
  Zpos (digits2_pos m') = Zpos (digits2_pos m) + k.
Proof.
  intros Hk E.
  pose proof (digits2_pos_bounds m) as [Hlo Hhi].
  change (Zpos (digits2_pos m')) with (Zdigits2 (Zpos m')).
  apply Zdigits2_unique; [ | lia ].
  rewrite E. pose proof (Z.pow_pos_nonneg 2 k ltac:(lia) Hk) as Hp.
  replace (Zpos (digits2_pos m) + k - 1) with ((Zpos (digits2_pos m) - 1) + k) by lia.
  rewrite !Z.pow_add_r by lia. split; nia.
Qed.

(** A value that fits the target exponent [t] of its magnitude is rounded
    to itself: [m * 2^e = m' * 2^t], both sides scaled by [2^-lo]. *)
Lemma binary_round_exact (s : bool) (m m' : positive) (e lo : Z) :
  let t := fexp64 (Zpos (digits2_pos m) + e) in
  lo <= e -> lo <= t -> t <= 971 ->
  Zpos m * 2 ^ (e - lo) = Zpos m' * 2 ^ (t - lo) ->
  binary_round prec emax s m e = S754_finite s m' t.
Proof.
  intros t Hle Hlt Ht E. unfold binary_round, shl_align.
  fold (fexp64 (Zpos (digits2_pos m) + e)). fold t.
  destruct (t - e) as [| k | k] eqn:Ek.
  - assert (t = e) by lia.
    assert (m' = m).
    { replace (t - lo) with (e - lo) in E by lia.
      pose proof (Z.pow_pos_nonneg 2 (e - lo) ltac:(lia) ltac:(lia)). nia. }
    subst m'. replace t with e by lia.
    apply binary_round_aux_canonical; unfold t in *; lia.
  - (* the mantissa carries [k] low zero bits *)
    assert (Em : Zpos m = Zpos m' * 2 ^ Zpos k).
    { replace (t - lo) with ((e - lo) + Zpos k) in E by lia.
      rewrite Z.pow_add_r in E by lia.
      pose proof (Z.pow_pos_nonneg 2 (e - lo) ltac:(lia) ltac:(lia)). nia. }
    pose proof (digits2_pos_mul_pow2 m' m (Zpos k) ltac:(lia) Em) as Hd.
    unfold binary_round_aux, shr_fexp.
    change (Zdigits2 (Zpos m)) with (Zpos (digits2_pos m)).
    fold (fexp64 (Zpos (digits2_pos m) + e)). fold t. rewrite Ek.
    cbn [shr shr_record_of_loc]. rewrite Em, iter_shr_1_exact by lia.
    cbn [shr_m loc_of_shr_record round_nearest_even].
    change (Zdigits2 (Zpos m')) with (Zpos (digits2_pos m')).
    replace (Zpos (digits2_pos m') + (e + Zpos k)) with (Zpos (digits2_pos m) + e) by lia.
    fold (fexp64 (Zpos (digits2_pos m) + e)). fold t.
    replace (t - (e + Zpos k)) with 0 by lia.
    cbn [shr shr_record_of_loc shr_m].
    replace (e + Zpos k) with t by lia.
    replace (t <=? emax - prec) with true; [ reflexivity |].
    symmetry. apply Z.leb_le. change (emax - prec) with 971. assumption.
  - (* the mantissa is padded with [k] zero bits *)
    assert (Em : Zpos m' = Zpos m * 2 ^ Zpos k).
    { replace (e - lo) with ((t - lo) + Zpos k) in E by lia.
      rewrite Z.pow_add_r in E by lia.
      pose proof (Z.pow_pos_nonneg 2 (t - lo) ltac:(lia) ltac:(lia)). nia. }
    assert (Pos.iter xO m k = m').
    { apply Pos2Z.inj. rewrite iter_xO_value. congruence. }
    subst m'.
    apply binary_round_aux_canonical; [ | assumption ].
    rewrite iter_xO_digits.
    replace (Zpos (digits2_pos m) + Zpos k + t) with (Zpos (digits2_pos m) + e) by lia.
    reflexivity.
Qed.

Lemma digits2_pos_le_53 (p : positive) : Zpos p < 2 ^ 53 -> Zpos (digits2_pos p) <= 53.
Proof.
  intros Hp. destruct (Z_le_gt_dec (Zpos (digits2_pos p)) 53) as [H | H]; [ assumption |].
  pose proof (digits2_pos_bounds p) as [Hb _].
  assert (2 ^ 53 <= 2 ^ (Zpos (digits2_pos p) - 1)) by (apply Z.pow_le_mono_r; lia).
  lia.
Qed.

Lemma canon_value (p : positive) :
  Zpos p < 2 ^ 53 -> Zpos (canon p) = Zpos p * 2 ^ (53 - Zpos (digits2_pos p)).
Proof.
  intros Hp. pose proof (digits2_pos_le_53 p Hp).
  unfold canon. rewrite Z2Pos.id; [ reflexivity |].
  pose proof (Z.pow_pos_nonneg 2 (53 - Zpos (digits2_pos p)) ltac:(lia) ltac:(lia)). nia.
Qed.


Lemma pow2_split (a b : Z) : 0 <= a -> 0 <= b -> 2 ^ a * 2 ^ b = 2 ^ (a + b).
Proof. intros. symmetry. apply Z.pow_add_r; assumption. Qed.

(** Rounding the integer [z], given as [z * 2^-ez] units of [2^ez]. *)
Lemma binary_normalize_int (z ez : Z) :
  ez <= 0 -> Z.abs z < 2 ^ 53 ->
  binary_normalize prec emax (z * 2 ^ (- ez)) ez false = int_rep z.
Proof.
  intros Hez Hz.
  pose proof (Z.pow_pos_nonneg 2 (- ez) ltac:(lia) ltac:(lia)) as Hp.
  assert (Hround : forall (s : bool) (q P : positive),
             Zpos q < 2 ^ 53 -> Zpos P = Zpos q * 2 ^ (- ez) ->
             binary_round prec emax s P ez
             = S754_finite s (canon q) (Zpos (digits2_pos q) - 53)).
  { intros s q P Hq EP.
    pose proof (digits2_pos_le_53 q Hq) as Hd.
    pose proof (digits2_pos_mul_pow2 q P (- ez) ltac:(lia) EP) as HdP.
    assert (Ht : fexp64 (Zpos (digits2_pos P) + ez) = Zpos (digits2_pos q) - 53).
    { rewrite fexp64_eq. lia. }
    rewrite <- Ht.
    apply (binary_round_exact s P (canon q) ez (Z.min ez (Zpos (digits2_pos q) - 53)));
      rewrite ?Ht; try lia.
    rewrite EP, canon_value by assumption.
    rewrite <- !Z.mul_assoc, !pow2_split by lia.
    do 2 f_equal. lia. }
  destruct z as [| q | q].
  - reflexivity.
  - destruct (Zpos q * 2 ^ (- ez)) as [| P | P] eqn:EP; try lia.
    simpl binary_normalize. apply Hround; [ simpl in Hz; lia | congruence ].
  - destruct (Zneg q * 2 ^ (- ez)) as [| P | P] eqn:EP; try lia.
    simpl binary_normalize. apply Hround; [ simpl in Hz; lia | lia ].
Qed.

Lemma Prim2SF_float_of_int (z : Z) :
  Z.abs z < 2 ^ 53 -> Prim2SF (Py.float_of_int z) = int_rep z.
Proof.
  intros Hz.
  assert (Hpos : forall p, Zpos p < 2 ^ 53 ->
                           Prim2SF (of_uint63 (Uint63.of_Z (Zpos p))) = int_rep (Zpos p)).
  { intros p Hp. rewrite of_uint63_spec, Uint63.of_Z_spec.
    rewrite Z.mod_small by (change wB with (2 ^ 63); lia).
    rewrite <- (binary_normalize_int (Zpos p) 0) by (simpl; lia).
    change (2 ^ (- 0)) with 1. rewrite Z.mul_1_r. reflexivity. }
  destruct z as [| p | p]; unfold Py.float_of_int.
  - reflexivity.
  - apply Hpos. simpl in Hz. lia.
  - rewrite opp_spec, Hpos by (simpl in Hz; lia). reflexivity.
Qed.

Lemma shl_align_value (m : positive) (e ez : Z) :
  ez <= e -> Zpos (fst (shl_align m e ez)) = Zpos m * 2 ^ (e - ez).
Proof.
  intros H. unfold shl_align.
  destruct (ez - e) as [| k | k] eqn:Ek; simpl fst.
  - replace (e - ez) with 0 by lia. simpl. lia.
  - lia.
  - rewrite iter_xO_value. do 2 f_equal. lia.
Qed.

(** The mantissa of an integer, aligned to a lower exponent [ez]. *)
Lemma canon_aligned (p : positive) (ez : Z) :
  Zpos p < 2 ^ 53 -> ez <= Zpos (digits2_pos p) - 53 ->
  Zpos (fst (shl_align (canon p) (Zpos (digits2_pos p) - 53) ez))
  = Zpos p * 2 ^ (- ez).
Proof.
  intros Hp Hez. pose proof (digits2_pos_le_53 p Hp) as Hd.
  rewrite shl_align_value by assumption.
  rewrite canon_value by assumption.
  rewrite <- Z.mul_assoc, pow2_split by lia. do 2 f_equal. lia.
Qed.

(** Addition of integers is exact as long as the sum fits 53 bits. *)
Lemma SFadd_int (a b : Z) :
  Z.abs a < 2 ^ 53 -> Z.abs b < 2 ^ 53 -> Z.abs (a + b) < 2 ^ 53 ->
  SF64add (int_rep a) (int_rep b) = int_rep (a + b).
Proof.
  intros Ha Hb Hab.
  destruct a as [| p | p]; [ destruct b; reflexivity | | ];
    (destruct b as [| q | q]; [ reflexivity | | ]);
    unfold SF64add, int_rep at 1 2, SFadd;
    set (ez := Z.min (Zpos (digits2_pos p) - 53) (Zpos (digits2_pos q) - 53));
    pose proof (digits2_pos_le_53 p ltac:(simpl in Ha; lia));
    pose proof (digits2_pos_le_53 q ltac:(simpl in Hb; lia));
    rewrite !canon_aligned by (simpl in Ha, Hb; lia);
    cbn [cond_Zopp].
  - rewrite <- Z.mul_add_distr_r.
    apply binary_normalize_int; [ lia | assumption ].
  - replace (Zpos p * 2 ^ (- ez) + - (Zpos q * 2 ^ (- ez)))
      with ((Zpos p + Zneg q) * 2 ^ (- ez)) by lia.
    apply binary_normalize_int; [ lia | assumption ].
  - replace (- (Zpos p * 2 ^ (- ez)) + Zpos q * 2 ^ (- ez))
      with ((Zneg p + Zpos q) * 2 ^ (- ez)) by lia.
    apply binary_normalize_int; [ lia | assumption ].
  - replace (- (Zpos p * 2 ^ (- ez)) + - (Zpos q * 2 ^ (- ez)))
      with ((Zneg p + Zneg q) * 2 ^ (- ez)) by lia.
    apply binary_normalize_int; [ lia | assumption ].
Qed.

Lemma float_of_int_add (a b : Z) :
  Z.abs a < 2 ^ 53 -> Z.abs b < 2 ^ 53 -> Z.abs (a + b) < 2 ^ 53 ->
  (Py.float_of_int a + Py.float_of_int b)%float = Py.float_of_int (a + b).
Proof.
  intros Ha Hb Hab. apply Prim2SF_inj.
  rewrite add_spec, !Prim2SF_float_of_int by assumption.
  apply SFadd_int; assumption.
Qed.

(** Only the integer zero converts to a zero. *)
Lemma float_of_int_eqb_zero (z : Z) :
  Z.abs z < 2 ^ 53 -> (Py.float_of_int z =? 0)%float = (z =? 0).
Proof.
  intros Hz. rewrite eqb_spec, Prim2SF_float_of_int by assumption.
  destruct z; reflexivity.
Qed.

(** What [is_finite] means on the specification side. *)
Lemma is_finite_spec (x : float) :
  is_finite x = true <->
  match Prim2SF x with
  | S754_zero _ | S754_finite _ _ _ => True
  | _ => False
  end.
Proof.
  unfold is_finite, is_nan, is_infinity.
  rewrite !eqb_spec, abs_spec.
  change (Prim2SF infinity) with (S754_infinity false).
  destruct (Prim2SF x) as [s | s | | s m e]; simpl; try tauto.
  - destruct s; simpl; split; auto; discriminate.
  - split; auto; discriminate.
  - unfold SFeqb, SFcompare. rewrite Z.compare_refl, Pos.compare_cont_refl.
    destruct s; simpl; tauto.
Qed.


(** *** Magnitudes

    The operations keep a bound [sf_bounded k] up to a binade or two, which
    is what it takes to see that a computation stays finite. *)

Lemma Zdigits2_lt_pow (m j : Z) : 0 <= m < 2 ^ j -> 0 <= j -> Zdigits2 m <= j.
Proof.
  intros [Hm Hj] H0. destruct (Z.eq_dec m 0) as [-> | Hne]; [ simpl; lia |].
  destruct (Zdigits2_bounds m ltac:(lia)) as (Hd & Hlo & _).
  destruct (Z_le_gt_dec (Zdigits2 m) j) as [H | H]; [ assumption |].
  assert (2 ^ j <= 2 ^ (Zdigits2 m - 1)) by (apply Z.pow_le_mono_r; lia). lia.
Qed.

Lemma Zdigits2_div_pow2_le (m k : Z) :
  0 <= m -> 0 <= k ->
  0 <= m / 2 ^ k /\ Zdigits2 (m / 2 ^ k) <= Z.max (Zdigits2 m - k) 0.
Proof.
  intros Hm Hk. split; [ apply div_pow2_nonneg; assumption |].
  destruct (Z.eq_dec m 0) as [-> | Hne].
  - rewrite Z.div_0_l by (pose proof (Z.pow_pos_nonneg 2 k); lia). simpl. lia.
  - destruct (Z_lt_ge_dec k (Zdigits2 m)) as [H | H].
    + destruct (Zdigits2_div_pow2 m k ltac:(lia) ltac:(lia)) as [_ ->]. lia.
    + destruct (Zdigits2_bounds m ltac:(lia)) as (_ & _ & Hhi).
      assert (2 ^ Zdigits2 m <= 2 ^ k) by (apply Z.pow_le_mono_r; lia).
      rewrite Z.div_small by lia. simpl. lia.
Qed.

Lemma Zdigits2_succ_le (m : Z) : 0 <= m -> Zdigits2 (m + 1) <= Zdigits2 m + 1.
Proof.
  intros Hm. destruct (Z.eq_dec m 0) as [-> | Hne]; [ simpl; lia |].
  apply Zdigits2_succ. lia.
Qed.

Lemma Zdigits2_mul_le (a b : Z) :
  0 < a -> 0 < b -> Zdigits2 (a * b) <= Zdigits2 a + Zdigits2 b.
Proof.
  intros Ha Hb.
  destruct (Zdigits2_bounds a Ha) as (Hda & _ & Hahi).
  destruct (Zdigits2_bounds b Hb) as (Hdb & _ & Hbhi).
  apply Zdigits2_lt_pow; [ | lia ].
  rewrite Z.pow_add_r by lia. nia.
Qed.

(** The alignment step in general: the mantissa stays non-negative, the
    exponent is raised to the target one, the magnitude does not grow. *)
Lemma shr_fexp_bound (m e : Z) (l : location) :
  0 <= m ->
  exists r e',
    shr_fexp prec emax m e l = (r, e')
    /\ 0 <= shr_m r
    /\ e' = Z.max e (fexp64 (Zdigits2 m + e))
    /\ Zdigits2 (shr_m r) + e' <= Z.max (Zdigits2 m + e) (-1074).
Proof.
  intros Hm. unfold shr_fexp, shr.
  fold (fexp64 (Zdigits2 m + e)).
  pose proof (fexp64_eq (Zdigits2 m + e)) as Hf.
  destruct (fexp64 (Zdigits2 m + e) - e) as [| k | k] eqn:Ek.
  - do 2 eexists. split; [ reflexivity |].
    rewrite shr_record_of_loc_m. repeat split; lia.
  - do 2 eexists. split; [ reflexivity |].
    rewrite iter_shr_1_m by (rewrite shr_record_of_loc_m; lia).
    rewrite shr_record_of_loc_m.
    destruct (Zdigits2_div_pow2_le m (Zpos k) Hm ltac:(lia)) as [Hpos Hdig].
    repeat split; lia.
  - do 2 eexists. split; [ reflexivity |].
    rewrite shr_record_of_loc_m. repeat split; lia.
Qed.

(** Rounding in general: below the overflow threshold the result is a zero
    or finite, of the sign asked for, at most one binade above the input
    (or above the smallest subnormal). *)
Lemma binary_round_aux_bounded (s : bool) (m e : Z) (l : location) (k : Z) :
  0 <= m -> Zdigits2 m + e <= k -> -1074 <= k -> k < 1024 -> e <= 971 ->
  sf_bounded (k + 1) (binary_round_aux prec emax s m e l)
  /\ sf_signed s (binary_round_aux prec emax s m e l).
Proof.
  intros Hm Hk Hk0 Hk1 He. unfold binary_round_aux.
  destruct (shr_fexp_bound m e l Hm) as (r1 & e1 & -> & Hr1 & He1 & HT1).
  pose proof (round_nearest_even_bounds (shr_m r1) (loc_of_shr_record r1)) as Hrne.
  set (m2 := round_nearest_even (shr_m r1) (loc_of_shr_record r1)) in *.
  assert (Hd2 : Zdigits2 m2 <= Zdigits2 (shr_m r1) + 1).
  { pose proof (Zdigits2_succ_le (shr_m r1) Hr1).
    assert (m2 = shr_m r1 \/ m2 = shr_m r1 + 1) as [-> | ->] by lia; lia. }
  destruct (shr_fexp_bound m2 e1 loc_Exact ltac:(lia)) as (r2 & e2 & -> & Hr2 & He2 & HT2).
  pose proof (fexp64_eq (Zdigits2 m + e)) as Hf1.
  pose proof (fexp64_eq (Zdigits2 m2 + e1)) as Hf2.
  destruct (shr_m r2) as [| p | p] eqn:Ep; try lia.
  - split; simpl; auto.
  - replace (e2 <=? emax - prec) with true.
    + change (Zdigits2 (Zpos p)) with (Zpos (digits2_pos p)) in HT2.
      split; [ unfold sf_bounded; lia | reflexivity ].
    + symmetry. apply Z.leb_le. change (emax - prec) with 971. lia.
Qed.

Lemma sf_signed_round_aux (s : bool) (m e : Z) (l : location) :
  sf_signed s (binary_round_aux prec emax s m e l).
Proof.
  unfold binary_round_aux.
  destruct (shr_fexp prec emax m e l) as [r1 e1].
  destruct (shr_fexp prec emax _ e1 loc_Exact) as [r2 e2].
  destruct (shr_m r2); [ reflexivity | | exact I ].
  destruct (e2 <=? emax - prec); unfold sf_signed; reflexivity.
Qed.

Lemma binary_round_bounded (s : bool) (m : positive) (e k : Z) :
  Zpos (digits2_pos m) + e <= k -> -1074 <= k -> k < 1024 ->
  sf_bounded (k + 1) (binary_round prec emax s m e)
  /\ sf_signed s (binary_round prec emax s m e).
Proof.
  intros Hk Hk0 Hk1. unfold binary_round, shl_align.
  fold (fexp64 (Zpos (digits2_pos m) + e)).
  pose proof (fexp64_eq (Zpos (digits2_pos m) + e)) as Hf.
  destruct (fexp64 (Zpos (digits2_pos m) + e) - e) as [| j | j] eqn:Ej.
  - apply binary_round_aux_bounded; simpl Zdigits2; lia.
  - apply binary_round_aux_bounded; simpl Zdigits2; lia.
  - apply binary_round_aux_bounded; simpl Zdigits2; rewrite ?iter_xO_digits; lia.
Qed.

(** A valid finite number has at most 53 digits, exactly 53 above the
    subnormal exponent. *)
Lemma valid_finite (s : bool) (m : positive) (e : Z) :
  valid_binary (S754_finite s m e) = true ->
  e <= 971 /\ -1074 <= e /\ Zpos (digits2_pos m) <= 53
  /\ (-1074 < e -> Zpos (digits2_pos m) = 53).
Proof.
  unfold SpecFloat.valid_binary, bounded, SpecFloat.bounded, canonical_mantissa.
  intros H. apply andb_true_iff in H. destruct H as [Hc He].
  apply Z.eqb_eq in Hc. apply Z.leb_le in He.
  fold (fexp64 (Zpos (digits2_pos m) + e)) in Hc.
  rewrite fexp64_eq in Hc. change (emax - prec) with 971 in He. lia.
Qed.

Lemma SFmul_bounded (x y : spec_float) (a b k : Z) :
  valid_binary x = true -> valid_binary y = true ->
  sf_bounded a x -> sf_bounded b y ->
  a + b <= k -> -1074 <= k -> k < 1024 ->
  sf_bounded (k + 1) (SF64mul x y).
Proof.
  intros Vx Vy Hx Hy Hab Hk0 Hk1.
  destruct x as [sx | sx | | sx mx ex], y as [sy | sy | | sy my ey];
    cbn [sf_bounded] in Hx, Hy; try contradiction; try exact I.
  unfold SF64mul, SFmul.
  destruct (valid_finite _ _ _ Vx) as (Hex & Hex' & Hdx & Hnx).
  destruct (valid_finite _ _ _ Vy) as (Hey & Hey' & Hdy & Hny).
  pose proof (Zdigits2_mul_le (Zpos mx) (Zpos my) ltac:(lia) ltac:(lia)) as Hd.
  change (Zdigits2 (Zpos mx)) with (Zpos (digits2_pos mx)) in Hd.
  change (Zdigits2 (Zpos my)) with (Zpos (digits2_pos my)) in Hd.
  assert (He : ex + ey <= 971) by lia.
  change (Zdigits2 (Zpos mx * Zpos my)) with (Zpos (digits2_pos (mx * my))) in Hd.
  apply binary_round_aux_bounded; try lia.
  change (Zdigits2 (Zpos (mx * my))) with (Zpos (digits2_pos (mx * my))). lia.
Qed.

Lemma SFmul_signed (x y : spec_float) (sx sy : bool) :
  sf_signed sx x -> sf_signed sy y -> sf_signed (xorb sx sy) (SF64mul x y).
Proof.
  destruct x as [s1 | s1 | | s1 m1 e1], y as [s2 | s2 | | s2 m2 e2];
    simpl; intros; subst; try reflexivity; try exact I.
  apply sf_signed_round_aux.
Qed.

Lemma sf_signed_round (s : bool) (m : positive) (e : Z) :
  sf_signed s (binary_round prec emax s m e).
Proof.
  unfold binary_round. destruct (shl_align m e _) as [mz ez].
  apply sf_signed_round_aux.
Qed.

Lemma SFadd_bounded (x y : spec_float) (a b k : Z) :
  sf_bounded a x -> sf_bounded b y ->
  Z.max a b + 1 <= k -> -1074 <= k -> k < 1024 ->
  sf_bounded (k + 1) (SF64add x y).
Proof.
  intros Hx Hy Hab Hk0 Hk1.
  destruct x as [sx | sx | | sx mx ex], y as [sy | sy | | sy my ey];
    cbn [sf_bounded] in Hx, Hy; try contradiction.
  - destruct sx, sy; exact I.
  - cbn [SF64add SFadd sf_bounded]. lia.
  - cbn [SF64add SFadd sf_bounded]. lia.
  - unfold SF64add, SFadd.
    set (ez := Z.min ex ey).
    rewrite !shl_align_value by (unfold ez; lia).
    pose proof (digits2_pos_bounds mx) as [_ Bx].
    pose proof (digits2_pos_bounds my) as [_ By].
    set (M := Z.max a b) in *.
    assert (Hmx : Zpos mx * 2 ^ (ex - ez) < 2 ^ (M - ez)).
    { apply Z.lt_le_trans with (2 ^ Zpos (digits2_pos mx) * 2 ^ (ex - ez)).
      - pose proof (Z.pow_pos_nonneg 2 (ex - ez) ltac:(lia) ltac:(unfold ez; lia)). nia.
      - rewrite pow2_split by (unfold ez; lia).
        apply Z.pow_le_mono_r; unfold M; lia. }
    assert (Hmy : Zpos my * 2 ^ (ey - ez) < 2 ^ (M - ez)).
    { apply Z.lt_le_trans with (2 ^ Zpos (digits2_pos my) * 2 ^ (ey - ez)).
      - pose proof (Z.pow_pos_nonneg 2 (ey - ez) ltac:(lia) ltac:(unfold ez; lia)). nia.
      - rewrite pow2_split by (unfold ez; lia).
        apply Z.pow_le_mono_r; unfold M; lia. }
    assert (HM : 0 <= M - ez) by (unfold M, ez; lia).
    assert (Hsum : Z.abs (cond_Zopp sx (Zpos mx * 2 ^ (ex - ez))
                          + cond_Zopp sy (Zpos my * 2 ^ (ey - ez)))
                   < 2 ^ (M - ez + 1)).
    { rewrite Z.pow_add_r by lia. change (2 ^ 1) with 2.
      destruct sx, sy; cbn [cond_Zopp]; lia. }
    destruct (cond_Zopp sx (Zpos mx * 2 ^ (ex - ez))
              + cond_Zopp sy (Zpos my * 2 ^ (ey - ez))) as [| P | P];
      cbn [binary_normalize]; [ exact I | | ];
      apply binary_round_bounded; try lia;
      pose proof (Zdigits2_lt_pow (Zpos P) (M - ez + 1) ltac:(simpl in Hsum; lia) ltac:(lia)) as Hd;
      change (Zdigits2 (Zpos P)) with (Zpos (digits2_pos P)) in Hd; lia.
Qed.

Lemma SFdiv_bounded (x y : spec_float) (a b k : Z) :
  sf_bounded a x -> sf_lower b y ->
  a - b + 1 <= k -> -1074 <= k -> k < 1024 ->
  sf_bounded (k + 1) (SF64div x y).
Proof.
  intros Hx Hy Hab Hk0 Hk1.
  destruct x as [sx | sx | | sx mx ex], y as [sy | sy | | sy my ey];
    cbn [sf_bounded sf_lower] in Hx, Hy; try contradiction.
  - exact I.
  - unfold SF64div, SFdiv, SFdiv_core_binary.
    change (Zdigits2 (Zpos mx)) with (Zpos (digits2_pos mx)).
    change (Zdigits2 (Zpos my)) with (Zpos (digits2_pos my)).
    set (d1 := Zpos (digits2_pos mx)) in *. set (d2 := Zpos (digits2_pos my)) in *.
    fold (fexp64 (d1 + ex - (d2 + ey))).
    pose proof (fexp64_eq (d1 + ex - (d2 + ey))) as Hf.
    set (e' := Z.min (fexp64 (d1 + ex - (d2 + ey))) (ex - ey)) in *.
    remember (ex - ey - e') as sh eqn:Esh.
    assert (Hsh : 0 <= sh) by (unfold e' in Esh; lia).
    assert (Em : match sh with
                 | 0 => Zpos mx
                 | Zpos _ => Z.shiftl (Zpos mx) sh
                 | Zneg _ => 0
                 end = Zpos mx * 2 ^ sh).
    { destruct sh as [| p | p]; [ lia | | lia ].
      apply Z.shiftl_mul_pow2. lia. }
    rewrite Em. set (m' := Zpos mx * 2 ^ sh).
    pose proof (digits2_pos_bounds mx) as [_ Bx]. fold d1 in Bx.
    pose proof (digits2_pos_bounds my) as [By _]. fold d2 in By.
    pose proof (Z.div_eucl_eq m' (Zpos my) ltac:(lia)) as Hde.
    pose proof (Z.mod_pos_bound m' (Zpos my) ltac:(lia)) as Hmod.
    unfold Z.modulo in Hmod.
    destruct (Z.div_eucl m' (Zpos my)) as [q r].
    pose proof (Z.pow_pos_nonneg 2 sh ltac:(lia) Hsh) as Hpsh.
    assert (Hm' : 0 < m' < 2 ^ (d1 + sh)).
    { unfold m'. rewrite Z.pow_add_r by (unfold d1; lia). nia. }
    assert (Hq : 0 <= q) by nia.
    assert (Hd2 : 0 < d2) by (unfold d2; lia).
    pose proof (Z.pow_pos_nonneg 2 (d2 - 1) ltac:(lia) ltac:(lia)) as Hpd2.
    assert (HTq : Zdigits2 q + e' <= k).
    { destruct (Z_le_gt_dec (d2 - 1) (d1 + sh)) as [Hc | Hc].
      - assert (q < 2 ^ (d1 + sh - (d2 - 1))).
        { apply Z.mul_lt_mono_pos_r with (2 ^ (d2 - 1)); [ assumption |].
          rewrite pow2_split by lia.
          replace (d1 + sh - (d2 - 1) + (d2 - 1)) with (d1 + sh) by lia. nia. }
        pose proof (Zdigits2_lt_pow q (d1 + sh - (d2 - 1)) ltac:(lia) ltac:(lia)).
        lia.
      - assert (2 ^ (d1 + sh) <= 2 ^ (d2 - 1)) by (apply Z.pow_le_mono_r; lia).
        assert (q = 0) by nia. subst q. simpl Zdigits2. unfold e'. lia. }
    apply binary_round_aux_bounded; unfold e'; lia.
Qed.

Lemma SFdiv_signed (x y : spec_float) (sx sy : bool) :
  sf_signed sx x -> sf_signed sy y -> sf_signed (xorb sx sy) (SF64div x y).
Proof.
  destruct x as [s1 | s1 | | s1 m1 e1], y as [s2 | s2 | | s2 m2 e2];
    simpl; intros; subst; try reflexivity; try exact I.
  unfold SF64div, SFdiv.
  destruct (SFdiv_core_binary prec emax (Zpos m1) e1 (Zpos m2) e2) as [[mz ez] lz].
  apply sf_signed_round_aux.
Qed.

(** *** The same, on the primitive floats *)

Lemma mul_bounded (a b k : Z) (x y : float) :
  bounded a x -> bounded b y -> a + b <= k -> -1074 <= k -> k < 1024 ->
  bounded (k + 1) (x * y).
Proof.
  unfold bounded. intros. rewrite mul_spec.
  eapply SFmul_bounded; eauto using Prim2SF_valid.
Qed.

Lemma add_bounded (a b k : Z) (x y : float) :
  bounded a x -> bounded b y -> Z.max a b + 1 <= k -> -1074 <= k -> k < 1024 ->
  bounded (k + 1) (x + y).
Proof.
  unfold bounded. intros. rewrite add_spec. eapply SFadd_bounded; eauto.
Qed.

Lemma div_bounded (a b k : Z) (x y : float) :
  bounded a x -> lower b y -> a - b + 1 <= k -> -1074 <= k -> k < 1024 ->
  bounded (k + 1) (x / y).
Proof.
  unfold bounded, lower. intros. rewrite div_spec. eapply SFdiv_bounded; eauto.
Qed.

Lemma mul_nonneg (x y : float) : nonneg x -> nonneg y -> nonneg (x * y).
Proof.
  unfold nonneg. intros Hx Hy. rewrite mul_spec.
  apply (SFmul_signed _ _ false false); assumption.
Qed.

Lemma div_nonneg (x y : float) : nonneg x -> nonneg y -> nonneg (x / y).
Proof.
  unfold nonneg. intros Hx Hy. rewrite div_spec.
  apply (SFdiv_signed _ _ false false); assumption.
Qed.

Lemma nonneg_signbit (x : float) : nonneg x -> signbit x = false.
Proof. unfold nonneg, signbit. destruct (Prim2SF x); simpl; auto. Qed.

(** The conversion of any 63-bit integer is below [2^64] and not negative. *)
Lemma of_uint63_bounded (n : int) : bounded 64 (of_uint63 n) /\ nonneg (of_uint63 n).
Proof.
  unfold bounded, nonneg. rewrite of_uint63_spec.
  pose proof (Uint63.to_Z_bounded n) as Hn. change wB with (2 ^ 63) in Hn.
  destruct (to_Z n) as [| p | p]; try lia.
  - split; [ exact I | reflexivity ].
  - cbn [binary_normalize].
    split; [ | apply sf_signed_round ].
    pose proof (Zdigits2_lt_pow (Zpos p) 63 ltac:(lia) ltac:(lia)) as Hd.
    change (Zdigits2 (Zpos p)) with (Zpos (digits2_pos p)) in Hd.
    apply (binary_round_bounded false p 0 63); lia.
Qed.

Lemma float_of_int_bounded (z : Z) :
  0 <= z -> bounded 64 (Py.float_of_int z) /\ nonneg (Py.float_of_int z).
Proof.
  intros Hz. destruct z as [| p | p]; try lia.
  - split; [ exact I | reflexivity ].
  - apply of_uint63_bounded.
Qed.

(** A positive count is at least one. *)
Lemma float_of_int_lower (n : Z) : 0 < n < 2 ^ 63 -> lower 1 (Py.float_of_int n).
Proof.
  intros Hn. destruct n as [| p | p]; try lia.
  unfold lower, Py.float_of_int. rewrite of_uint63_spec, Uint63.of_Z_spec.
  rewrite Z.mod_small by (change wB with (2 ^ 63); lia).
  cbn [binary_normalize].
  pose proof (Zdigits2_lt_pow (Zpos p) 63 ltac:(lia) ltac:(lia)) as Hd.
  change (Zdigits2 (Zpos p)) with (Zpos (digits2_pos p)) in Hd.
  destruct (binary_round_finite false p 0) as (m & e & -> & Hb); try lia.
  cbn [sf_lower]. lia.
Qed.

(** [max(0.0, x)] of a finite number. *)
Lemma fmax_zero_bounded (k : Z) (x : float) : bounded k x -> bounded k (Py.fmax 0 x).
Proof.
  intros Hx. unfold Py.fmax. destruct (0 <? x)%float; [ assumption | exact I ].
Qed.

(** [max(1e-9, s)] of a finite number is at least [1e-9]. *)
Lemma fmax_eps_bounded (k : Z) (s : float) :
  bounded k s -> -29 <= k ->
  bounded k (Py.fmax 1e-9 s) /\ lower (-29) (Py.fmax 1e-9 s).
Proof.
  intros Hs Hk. unfold Py.fmax.
  destruct (1e-9 <? s)%float eqn:El.
  - split; [ assumption |].
    rewrite ltb_spec in El. unfold bounded in Hs. unfold lower.
    pose proof (Prim2SF_valid s) as Hv.
    change (Prim2SF 1e-9) with (S754_finite false 4835703278458517 (-82)) in El.
    destruct (Prim2SF s) as [sy | sy | | sy my ey]; cbn [sf_bounded] in Hs;
      try contradiction; try discriminate.
    destruct (valid_finite _ _ _ Hv) as (_ & _ & Hd & Hn).
    unfold SFltb, SFcompare in El. cbn [sf_lower].
    destruct sy; [ discriminate |].
    destruct (Z.compare_spec (-82) ey) as [E | E | E]; try discriminate; lia.
  - split; [ | unfold lower; change (Prim2SF 1e-9)
                   with (S754_finite false 4835703278458517 (-82));
                 cbn [sf_lower]; reflexivity ].
    unfold bounded. change (Prim2SF 1e-9) with (S754_finite false 4835703278458517 (-82)).
    cbn [sf_bounded]. change (Zpos (digits2_pos 4835703278458517)) with 53. lia.
Qed.





(** [round] returns on every finite number. *)
Lemma round_ok (k : Z) (x : float) : bounded k x -> exists z, Py.round x = Ok z.
Proof.
  unfold bounded, Py.round. destruct (Prim2SF x); simpl; intros H;
    try contradiction; eauto.
Qed.

End Binary64Facts.

(** ** The synthesizer returns

    On a total that is not negative and a range of 1 to 400 years, with
    variates below 64 in absolute value (those of a normal generator are),
    no step of the synthesizer can raise: the noise scale is not negative
    and every rescaled value is finite. *)

Section SynthesizerTotal.

Import Binary64 Binary64Facts.

Variable bit_generator : Z -> nat -> float.

Lemma fsum_bounded (v : Z) (l : list float) : forall (a : Z) (acc : float),
  Forall (bounded v) l -> bounded a acc -> v <= a -> -1074 <= a ->
  a + 2 * Py.len l < 1024 ->
  bounded (a + 2 * Py.len l) (fold_left add l acc).
Proof.
  unfold Py.len.
  induction l as [| x l IH]; intros a acc Hl Hacc Hva Ha Hn; simpl fold_left.
  - replace (a + 2 * Z.of_nat (List.length (@nil float))) with a by (simpl; lia).
    assumption.
  - inversion Hl as [| ? ? Hx Hl']; subst.
    change (List.length (x :: l)) with (S (List.length l)) in *.
    rewrite Nat2Z.inj_succ in *.
    replace (a + 2 * Z.succ (Z.of_nat (List.length l)))
      with ((a + 2) + 2 * Z.of_nat (List.length l)) by lia.
    apply IH; try assumption; try lia.
    replace (a + 2) with ((a + 1) + 1) by lia.
    apply (add_bounded a v); try assumption; lia.
Qed.

Lemma normal_ok (sigma : float) (rng : Generator) :
  nonneg sigma -> bounded 63 sigma ->
  bounded 6 (bit_generator (gen_seed rng) (gen_drawn rng)) ->
  exists noise,
    normal bit_generator 0 sigma rng = Ok (noise, advance rng 1)
    /\ bounded 72 noise.
Proof.
  intros Hs Hb Hz. unfold normal.
  rewrite (nonneg_signbit _ Hs), andb_false_r.
  eexists. split.
  - unfold advance. do 3 f_equal. lia.
  - apply (add_bounded 70 70 71); try lia; [ exact I |].
    apply (mul_bounded 63 6 69); try assumption; lia.
Qed.

Lemma provisional_ok (base slope : float) (seed : Z) :
  nonneg base -> bounded 65 base -> bounded 65 slope ->
  (forall k, bounded 6 (bit_generator seed k)) ->
  forall years i rng,
    0 <= i -> gen_seed rng = seed ->
    exists yearly rng',
      provisional bit_generator years i base slope rng = Ok (yearly, rng')
      /\ Forall (bounded 134) yearly.
Proof.
  intros Hnn Hb Hs Hg.
  assert (H01 : nonneg 0.1) by reflexivity.
  assert (B01 : bounded (-3) 0.1) by (vm_compute; discriminate).
  induction years as [| y years IH]; intros i rng Hi Hseed; simpl provisional.
  - do 2 eexists. split; [ reflexivity | constructor ].
  - destruct (normal_ok (base * 0.1) rng) as (noise & -> & Hnoise).
    + apply mul_nonneg; assumption.
    + apply (mul_bounded 65 (-3) 62); try assumption; lia.
    + rewrite Hseed. apply Hg.
    + simpl bind.
      destruct (IH (i + 1) (advance rng 1) ltac:(lia) Hseed) as (rest & rng' & -> & Hrest).
      simpl bind. do 2 eexists. split; [ reflexivity |].
      constructor; [ | assumption ].
      apply fmax_zero_bounded.
      apply (add_bounded 132 72 133); try assumption; try lia.
      apply (add_bounded 65 130 131); try assumption; try lia.
      apply (mul_bounded 65 64 129); try assumption; try lia.
      apply float_of_int_bounded. assumption.
Qed.

Lemma rescale_ok (scale : float) (yearly : list float) :
  bounded 95 scale -> Forall (bounded 134) yearly ->
  exists rounded, rescale scale yearly = Ok rounded.
Proof.
  intros Hs Hy. apply mapM_ok. intros v Hv.
  rewrite Forall_forall in Hy.
  destruct (round_ok 230 (v * scale)) as [z ->].
  - apply (mul_bounded 134 95 229); auto; lia.
  - simpl. eauto.
Qed.

Theorem synthesize_returns (years : list Z) (total_cases : Z) (rng : Generator) :
  0 <= total_cases ->
  0 < Py.len years <= 400 ->
  (forall k, bounded 6 (bit_generator (gen_seed rng) k)) ->
  exists yearly rng',
    synthesize bit_generator years total_cases rng = Ok (yearly, rng').
Proof.
  intros Ht Hn Hg. unfold synthesize, Py.int_truediv.
  replace (Py.len years =? 0) with false by (symmetry; apply Z.eqb_neq; lia).
  simpl bind.
  destruct (float_of_int_bounded total_cases Ht) as [Bt Nt].
  destruct (float_of_int_bounded (Py.len years) ltac:(lia)) as [Bn Nn].
  pose proof (float_of_int_lower (Py.len years)
                ltac:(change (2 ^ 63) with 9223372036854775808; lia)) as Ln.
  set (base := (Py.float_of_int total_cases / Py.float_of_int (Py.len years))%float).
  assert (Bbase : bounded 65 base) by (apply (div_bounded 64 1 64); auto; lia).
  assert (Nbase : nonneg base) by (apply div_nonneg; assumption).
  set (c := if 10000 <? total_cases then 0.15%float else 0.05%float).
  assert (Bc : bounded (-2) c).
  { unfold c. destruct (10000 <? total_cases); vm_compute; discriminate. }
  assert (Bslope : bounded 65 (c * base / Py.float_of_int (Py.len years))).
  { apply (div_bounded 64 1 64); auto; try lia.
    apply (mul_bounded (-2) 65 63); auto; lia. }
  destruct (provisional_ok base _ (gen_seed rng) Nbase Bbase Bslope Hg years 0 rng
              ltac:(lia) eq_refl) as (yearly & rng' & Hprov & Hall).
  fold c. rewrite Hprov. simpl bind.
  pose proof (provisional_spec _ _ _ _ _ _ _ _ Hprov) as (Hlen & _).
  assert (Bsum : bounded (134 + 2 * Py.len yearly) (Py.fsum yearly)).
  { unfold Py.fsum. apply (fsum_bounded 134); auto; try lia; [ exact I |].
    unfold Py.len in *. rewrite Hlen. lia. }
  destruct (fmax_eps_bounded _ _ Bsum ltac:(unfold Py.len; lia)) as [Bmax Lmax].
  assert (Bscale : bounded 95 (Py.float_of_int total_cases
                               / Py.fmax 1e-9 (Py.fsum yearly))).
  { apply (div_bounded 64 (-29) 94); auto; lia. }
  destruct (rescale_ok _ _ Bscale Hall) as [rounded Hr]. rewrite Hr. simpl bind.
  destruct (total_cases - Py.zsum rounded =? 0).
  - simpl. eauto.
  - pose proof (mapM_length _ _ _ Hr) as Hlr.
    destruct (add_to_last_spec rounded (total_cases - Py.zsum rounded)) as (l' & -> & _).
    + intros ->. unfold Py.len in Hn. simpl in Hlr. lia.
    + simpl. eauto.
Qed.

End SynthesizerTotal.

(** ** Sorting keeps the rows *)

Section OrderByFacts.

Context {A : Type} (le : A -> A -> bool).

Lemma insert_sorted_perm (x : A) (l : list A) :
  Permutation (x :: l) (Sql.insert_sorted le x l).
Proof.
  induction l as [| y l IH]; simpl.
  - apply Permutation_refl.
  - destruct (le x y).
    + apply Permutation_refl.
    + eapply perm_trans; [ apply perm_swap |].
      apply perm_skip. exact IH.
Qed.

Lemma order_by_perm (l : list A) : Permutation l (Sql.order_by le l).
Proof.
  induction l as [| x l IH]; simpl.
  - apply perm_nil.
  - eapply perm_trans; [ | apply insert_sorted_perm ].
    apply perm_skip. exact IH.
Qed.

Lemma order_by_length (l : list A) : List.length (Sql.order_by le l) = List.length l.
Proof. symmetry. apply Permutation_length, order_by_perm. Qed.

Lemma order_by_Forall (P : A -> Prop) (l : list A) :
  Forall P l -> Forall P (Sql.order_by le l).
Proof. apply Permutation_Forall, order_by_perm. Qed.

Lemma order_by_In (x : A) (l : list A) : In x (Sql.order_by le l) <-> In x l.
Proof.
  split; apply Permutation_in;
    [ apply Permutation_sym |]; apply order_by_perm.
Qed.

Lemma order_by_existsb (f : A -> bool) (l : list A) :
  existsb f (Sql.order_by le l) = existsb f l.
Proof.
  apply Bool.eq_iff_eq_true. rewrite !existsb_exists.
  split; intros (x & Hx & Hf); exists x; split; try assumption;
    apply order_by_In; assumption.
Qed.

End OrderByFacts.

(** ** The forecast engine *)

Lemma to_series_length (series_df : list (Z * Z)) :
  List.length (to_series series_df) = List.length series_df.
Proof. unfold to_series. rewrite order_by_length, length_map. reflexivity. Qed.

Lemma to_series_len (series_df : list (Z * Z)) :
  Py.len (to_series series_df) = Py.len series_df.
Proof. unfold Py.len. rewrite to_series_length. reflexivity. Qed.

Lemma fsum_zeros (l : list float) :
  Forall (fun v => v = 0%float) l -> Py.fsum l = 0%float.
Proof.
  unfold Py.fsum. induction 1 as [| v l -> _ IH]; simpl; [ reflexivity |].
  exact IH.
Qed.

(** The values of an all-zero frame are all [0.0], whatever the order. *)
Lemma to_series_zeros (series_df : list (Z * Z)) :
  Forall (fun yc => snd yc = 0) series_df ->
  Forall (fun v => v = 0%float) (map snd (to_series series_df)).
Proof.
  intros H. apply Forall_map. unfold to_series. apply order_by_Forall.
  apply Forall_map. revert H. apply Forall_impl.
  intros [y c]; simpl; intros ->; reflexivity.
Qed.

Lemma series_mean_zeros (series_df : list (Z * Z)) :
  0 < Py.len series_df < 2 ^ 63 ->
  Forall (fun yc => snd yc = 0) series_df ->
  series_mean (to_series series_df) = 0%float.
Proof.
  intros Hlen Hz. unfold series_mean, series_sum.
  rewrite (fsum_zeros _ (to_series_zeros _ Hz)), to_series_len.
  apply Binary64Facts.zero_div_count. assumption.
Qed.

Lemma series_sum_zeros (series_df : list (Z * Z)) :
  Forall (fun yc => snd yc = 0) series_df ->
  series_sum (to_series series_df) = 0%float.
Proof.
  intros Hz. unfold series_sum. apply fsum_zeros, to_series_zeros, Hz.
Qed.

Lemma forecast_length (model : HoltWintersResults) (horizon : Z) (fc : list float) :
  forecast model horizon = Ok fc ->
  fc = map (prediction model) (seq 0 (Z.to_nat horizon))
  /\ List.length fc = Z.to_nat horizon.
Proof.
  unfold forecast. destruct (forecast_error model horizon); [ discriminate |].
  intros H. injection H as <-. rewrite length_map, length_seq. split; reflexivity.
Qed.

Lemma Forall_removelast {A} (P : A -> Prop) (l : list A) :
  Forall P l -> Forall P (removelast l).
Proof.
  induction 1 as [| x l Hx Hl IH]; simpl; [ constructor |].
  destruct l; [ constructor | constructor; assumption ].
Qed.

(** *** Integer series are summed exactly *)

Lemma order_by_map {A B} (f : A -> B) (le : A -> A -> bool) (le' : B -> B -> bool)
      (l : list A) :
  (forall a b, le' (f a) (f b) = le a b) ->
  Sql.order_by le' (map f l) = map f (Sql.order_by le l).
Proof.
  intros Hle.
  assert (Hins : forall x l0, Sql.insert_sorted le' (f x) (map f l0)
                              = map f (Sql.insert_sorted le x l0)).
  { intros x l0. induction l0 as [| y l0 IH]; simpl; [ reflexivity |].
    rewrite Hle. destruct (le x y); simpl; [ reflexivity |]. f_equal. exact IH. }
  induction l as [| x l IH]; simpl; [ reflexivity |].
  rewrite IH. apply Hins.
Qed.

(** The values of the series are the case counts, as floats, in the order
    of the years. *)
Lemma to_series_values (series_df : list (Z * Z)) :
  map snd (to_series series_df)
  = map Py.float_of_int
        (map snd (Sql.order_by (fun a b : Z * Z => fst a <=? fst b) series_df)).
Proof.
  unfold to_series.
  rewrite (order_by_map (fun '(y, c) => (y, Py.float_of_int c))
             (fun a b : Z * Z => fst a <=? fst b)).
  - rewrite !map_map. apply map_ext. intros [y c]. reflexivity.
  - intros [y c] [y' c']. reflexivity.
Qed.

Lemma abs_sum_perm (l l' : list Z) : Permutation l l' -> abs_sum l = abs_sum l'.
Proof. induction 1; simpl; lia. Qed.

Lemma zsum_perm (l l' : list Z) : Permutation l l' -> Py.zsum l = Py.zsum l'.
Proof. induction 1; rewrite ?zsum_cons; lia. Qed.


Lemma zsum_le_abs_sum (l : list Z) : Z.abs (Py.zsum l) <= abs_sum l.
Proof.
  induction l as [| c l IH]; simpl abs_sum; [ reflexivity |].
  rewrite zsum_cons. lia.
Qed.

Lemma fsum_ints_acc (l : list Z) : forall acc,
  Z.abs acc + abs_sum l < 2 ^ 53 ->
  fold_left add (map Py.float_of_int l) (Py.float_of_int acc)
  = Py.float_of_int (acc + Py.zsum l).
Proof.
  induction l as [| c l IH]; intros acc Hb; simpl.
  - f_equal. change (Py.zsum []) with 0. lia.
  - simpl abs_sum in Hb. pose proof (zsum_le_abs_sum l).
    assert (0 <= abs_sum l) by lia.
    rewrite Binary64Facts.float_of_int_add by lia.
    rewrite IH by lia. f_equal. rewrite zsum_cons. lia.
Qed.

Lemma fsum_ints (l : list Z) :
  abs_sum l < 2 ^ 53 -> Py.fsum (map Py.float_of_int l) = Py.float_of_int (Py.zsum l).
Proof.
  intros Hb. unfold Py.fsum. change 0%float with (Py.float_of_int 0).
  rewrite fsum_ints_acc by (simpl; lia). reflexivity.
Qed.

(** The float sum of a series of integers is their integer sum. *)
Lemma series_sum_exact (series_df : list (Z * Z)) :
  abs_sum (map snd series_df) < 2 ^ 53 ->
  series_sum (to_series series_df) = Py.float_of_int (Py.zsum (map snd series_df)).
Proof.
  intros Hb. unfold series_sum. rewrite to_series_values.
  assert (Hperm : Permutation (map snd series_df)
                    (map snd (Sql.order_by (fun a b : Z * Z => fst a <=? fst b) series_df)))
    by (apply Permutation_map, order_by_perm).
  rewrite fsum_ints by (rewrite <- (abs_sum_perm _ _ Hperm); assumption).
  f_equal. symmetry. apply zsum_perm. exact Hperm.
Qed.


(** The mean of a series of integers is the quotient of their sum by their
    number, rounded once. *)
Lemma series_mean_exact (series_df : list (Z * Z)) :
  abs_sum (map snd series_df) < 2 ^ 53 ->
  series_mean (to_series series_df)
  = (Py.float_of_int (Py.zsum (map snd series_df))
     / Py.float_of_int (Py.len series_df))%float.
Proof.
  intros Hb. unfold series_mean.
  rewrite series_sum_exact, to_series_len by assumption. reflexivity.
Qed.


(** The test [s.sum() == 0] is the test that the integer sum is zero. *)
Lemma series_sum_zero_iff (series_df : list (Z * Z)) :
  abs_sum (map snd series_df) < 2 ^ 53 ->
  (series_sum (to_series series_df) =? 0)%float = (Py.zsum (map snd series_df) =? 0).
Proof.
  intros Hb. rewrite series_sum_exact by assumption.
  apply Binary64Facts.float_of_int_eqb_zero.
  pose proof (zsum_le_abs_sum (map snd series_df)). lia.
Qed.

(** [fit_and_forecast] always returns, with [horizon] values in each array. *)
Lemma fit_and_forecast_ok ExponentialSmoothing (series_df : list (Z * Z)) (horizon : Z) :
  exists fc lo hi method,
    fit_and_forecast ExponentialSmoothing series_df horizon = Ok (fc, lo, hi, method)
    /\ List.length fc = Z.to_nat horizon
    /\ List.length lo = Z.to_nat horizon
    /\ List.length hi = Z.to_nat horizon.
Proof.
  unfold fit_and_forecast.
  destruct ((Py.len (to_series series_df) <? 4)
            || (series_sum (to_series series_df) =? 0)%float).
  - do 4 eexists. split; [ reflexivity |].
    repeat split; apply replicate_length.
  - destruct (ExponentialSmoothing (to_series series_df)) as [model | e];
      cbn [bind try_except].
    + destruct (forecast model horizon) as [fc | e] eqn:Efc; cbn [bind try_except].
      * destruct (forecast_length _ _ _ Efc) as [_ Hlen].
        do 4 eexists. split; [ reflexivity |].
        rewrite !length_map. repeat split; exact Hlen.
      * do 4 eexists. split; [ reflexivity |].
        repeat split; apply replicate_length.
    + do 4 eexists. split; [ reflexivity |].
      repeat split; apply replicate_length.
Qed.

Lemma fold_left_max_spec (l : list Z) : forall a,
  (fold_left Z.max l a = a \/ In (fold_left Z.max l a) l)
  /\ a <= fold_left Z.max l a
  /\ Forall (fun y => y <= fold_left Z.max l a) l.
Proof.
  induction l as [| x l IH]; simpl; intros a.
  - repeat split; [ left; reflexivity | lia | constructor ].
  - destruct (IH (Z.max a x)) as (Hin & Hle & Hall).
    split; [ | split; [ lia | constructor; [ lia | assumption ] ] ].
    destruct Hin as [Hin | Hin]; [ | right; right; assumption ].
    rewrite Hin. destruct (Z.max_spec a x) as [[_ ->] | [_ ->]]; auto.
Qed.

(** [df['year'].max()] is the largest year of a frame that has a row. *)
Lemma year_max_spec (df : list (Z * Z)) :
  df <> [] ->
  exists ymax,
    year_max df = Ok ymax
    /\ In ymax (map fst df)
    /\ Forall (fun y => y <= ymax) (map fst df).
Proof.
  destruct df as [| [y c] df]; [ congruence |]. intros _. simpl year_max.
  destruct (fold_left_max_spec (map fst df) y) as (Hin & Hle & Hall).
  eexists. split; [ reflexivity |]. simpl map.
  split; [ destruct Hin as [-> | Hin]; [ left; reflexivity | right; assumption ] |].
  constructor; assumption.
Qed.

Lemma item_ok (a : list float) (i : nat) :
  (i < List.length a)%nat -> exists x, item a i = Ok x.
Proof.
  intros Hi. unfold item. destruct (nth_error a i) eqn:E; [ eauto |].
  apply nth_error_None in E. lia.
Qed.

Lemma enumerate_spec {A} (l : list A) (i : nat) (x : A) :
  In (i, x) (enumerate l) -> (i < List.length l)%nat.
Proof.
  unfold enumerate. intros H. apply in_combine_l in H.
  apply in_seq in H. lia.
Qed.

Lemma enumerate_snd {A} (l : list A) : map snd (enumerate l) = l.
Proof.
  unfold enumerate. generalize 0%nat. induction l as [| x l IH]; intros n; simpl.
  - reflexivity.
  - f_equal. apply IH.
Qed.

(** The rows of one entity: [forecast_rows] returns, one row per year of
    the range that starts after the last observed year. *)
Lemma forecast_rows_spec ExponentialSmoothing (horizon : Z) (data_source disease : string)
      (df : list (Z * Z)) :
  df <> [] ->
  exists rows ymax fc lo hi method,
    forecast_rows ExponentialSmoothing horizon data_source disease df = Ok rows
    /\ year_max df = Ok ymax
    /\ fit_and_forecast ExponentialSmoothing df horizon = Ok (fc, lo, hi, method)
    /\ map fc_year rows = Py.range (ymax + 1) (ymax + 1 + horizon)
    /\ Forall (fun r => fc_disease r = disease /\ fc_data_source r = data_source
                        /\ fc_method r = method) rows.
Proof.
  intros Hdf. unfold forecast_rows.
  destruct (fit_and_forecast_ok ExponentialSmoothing df horizon)
    as (fc & lo & hi & method & -> & Hfc & Hlo & Hhi).
  destruct (year_max_spec df Hdf) as (ymax & Hy & _). rewrite Hy. simpl bind.
  set (years := Py.range (ymax + 1) (ymax + 1 + horizon)).
  assert (Hlen : List.length years = Z.to_nat horizon).
  { unfold years. rewrite range_length. f_equal. lia. }
  assert (Hmap : forall l : list (nat * Z),
             (forall i y, In (i, y) l -> (i < Z.to_nat horizon)%nat) ->
             exists rows,
               mapM (fun '(i, y) =>
                       p <- item fc i ;; l <- item lo i ;; u <- item hi i ;;
                       Ok {| fc_disease := disease; fc_year := y;
                             fc_forecast_cases := p; fc_lower_ci := l;
                             fc_upper_ci := u; fc_method := method;
                             fc_data_source := data_source |}) l = Ok rows
               /\ map fc_year rows = map snd l
               /\ Forall (fun r => fc_disease r = disease
                                   /\ fc_data_source r = data_source
                                   /\ fc_method r = method) rows).
  { induction l as [| [i y] l IH]; intros Hl.
    - exists []. repeat split. constructor.
    - destruct IH as (rows & E & Hyears & Hall);
        [ intros i' y' H; apply (Hl i' y'); right; exact H |].
      assert (Hi : (i < Z.to_nat horizon)%nat) by (apply (Hl i y); left; reflexivity).
      destruct (item_ok fc i ltac:(lia)) as [p Ep].
      destruct (item_ok lo i ltac:(lia)) as [lw El].
      destruct (item_ok hi i ltac:(lia)) as [up Eu].
      simpl mapM. rewrite Ep, El, Eu. simpl bind. rewrite E. simpl bind.
      eexists. split; [ reflexivity |]. simpl. split; [ f_equal; exact Hyears |].
      constructor; [ repeat split | exact Hall ]. }
  destruct (Hmap (enumerate years)) as (rows & E & Hyears & Hall).
  { intros i y H. apply enumerate_spec in H. lia. }
  exists rows, ymax, fc, lo, hi, method.
  rewrite enumerate_snd in Hyears. repeat split; assumption.
Qed.

(** ** The batch loop and its shared generator *)

Lemma synthetic_rows_length (disease : string) (years yearly : list Z) :
  List.length yearly = List.length years ->
  List.length (synthetic_rows disease years yearly) = List.length years.
Proof.
  intros H. unfold synthetic_rows. rewrite length_map, length_combine. lia.
Qed.

Lemma series_of_synthetic_rows (disease : string) (years yearly : list Z) :
  series_of disease (synthetic_rows disease years yearly) = combine years yearly.
Proof.
  unfold series_of, synthetic_rows. revert yearly.
  induction years as [| y years IH]; intros [| c yearly]; simpl; try reflexivity.
  rewrite String.eqb_refl. simpl. f_equal. apply IH.
Qed.

Lemma series_of_other (disease other : string) (years yearly : list Z) :
  other <> disease ->
  series_of disease (synthetic_rows other years yearly) = [].
Proof.
  intros Hne. unfold series_of, synthetic_rows. revert yearly.
  induction years as [| y years IH]; intros [| c yearly]; simpl; try reflexivity.
  apply String.eqb_neq in Hne. rewrite Hne. apply IH.
Qed.

Lemma series_of_app (disease : string) (l1 l2 : list YearlyCase) :
  series_of disease (l1 ++ l2) = series_of disease l1 ++ series_of disease l2.
Proof. unfold series_of. rewrite filter_app, map_app. reflexivity. Qed.

Lemma combine_inj_r {A B} (l : list A) (l1 l2 : list B) :
  List.length l1 = List.length l -> List.length l2 = List.length l ->
  combine l l1 = combine l l2 -> l1 = l2.
Proof.
  revert l1 l2. induction l as [| a l IH]; intros [| b1 l1] [| b2 l2] H1 H2 E;
    simpl in *; try congruence.
  injection E as -> E. f_equal. apply IH; congruence.
Qed.

Section BatchFacts.

Variable bit_generator : Z -> nat -> float.


(** One series draws exactly one variate per year. *)
Lemma synthesize_advances years total_cases rng yearly rng' :
  synthesize bit_generator years total_cases rng = Ok (yearly, rng') ->
  rng' = advance rng (List.length years) /\ List.length yearly = List.length years.
Proof.
  intros H.
  destruct (synthesize_inv _ _ _ _ _ _ H) as (_ & _ & _ & Hlen & _ & _ & _ & Hseed & Hdrawn).
  split; [ | assumption ].
  destruct rng' as [seed drawn]. unfold advance. simpl in *. congruence.
Qed.

Lemma advance_advance rng (a b : nat) : advance (advance rng a) b = advance rng (a + b).
Proof. unfold advance. simpl. f_equal. lia. Qed.

Lemma advance_0 rng : advance rng 0 = rng.
Proof. destruct rng. unfold advance. simpl. f_equal. lia. Qed.

Lemma insert_do_nothing_length (rows t : list YearlyCase) :
  (List.length t <= List.length (Sql.insert_do_nothing t rows))%nat.
Proof.
  revert t. induction rows as [| r rows IH]; intros t; simpl; [ lia |].
  destruct (existsb (Sql.same_key r) t); [ apply IH |].
  specialize (IH (t ++ [r])). rewrite length_app in IH. simpl in IH. lia.
Qed.

Lemma insert_do_nothing_nonempty (rows : list YearlyCase) :
  rows <> [] -> Sql.insert_do_nothing [] rows <> [].
Proof.
  destruct rows as [| r rows]; [ congruence |]. intros _. simpl.
  pose proof (insert_do_nothing_length rows [r]) as H.
  destruct (Sql.insert_do_nothing [r] rows); simpl in H; [ lia | discriminate ].
Qed.

(** The guard of the synthesis step. *)
Lemma build_synthetic_skips (db : Database) :
  disease_cases_yearly db <> [] -> build_synthetic_if_empty bit_generator db = Ok db.
Proof.
  intros H. unfold build_synthetic_if_empty.
  replace (0 <? Py.len (disease_cases_yearly db)) with true; [ reflexivity |].
  symmetry. apply Z.ltb_lt. unfold Py.len.
  destruct (disease_cases_yearly db); simpl; [ congruence | lia ].
Qed.

(** What the step leaves behind makes the next call a no-op. *)
Lemma build_synthetic_idempotent (db db' : Database) :
  build_synthetic_if_empty bit_generator db = Ok db' -> build_synthetic_if_empty bit_generator db' = Ok db'.
Proof.
  intros H. pose proof H as H0.
  unfold build_synthetic_if_empty in H.
  destruct (0 <? Py.len (disease_cases_yearly db)) eqn:Eg.
  - injection H as <-. exact H0.
  - inv_bind H. rename a into rows. injection H as <-.
    assert (Hempty : disease_cases_yearly db = []).
    { apply Z.ltb_ge in Eg. unfold Py.len in Eg.
      destruct (disease_cases_yearly db); simpl in Eg; [ reflexivity | lia ]. }
    destruct rows as [| r rows].
    + rewrite Hempty.
      unfold build_synthetic_if_empty.
      cbn [disease_cases_yearly kenya_outbreaks_2007_2022 disease_forecasts
           Sql.insert_do_nothing].
      change (0 <? Py.len (@nil YearlyCase)) with false. cbv iota.
      rewrite Hm. reflexivity.
    + apply build_synthetic_skips.
      cbn [disease_cases_yearly]. rewrite Hempty.
      apply insert_do_nothing_nonempty. discriminate.
Qed.

Lemma build_synthetic_keeps (db db' : Database) :
  build_synthetic_if_empty bit_generator db = Ok db' ->
  kenya_outbreaks_2007_2022 db' = kenya_outbreaks_2007_2022 db
  /\ disease_forecasts db' = disease_forecasts db.
Proof.
  unfold build_synthetic_if_empty. intros H.
  destruct (0 <? Py.len (disease_cases_yearly db)).
  - injection H as <-. split; reflexivity.
  - inv_bind H. injection H as <-. split; reflexivity.
Qed.

(** The step reads the aggregates and the yearly store, nothing else. *)
Lemma build_synthetic_reads (db1 db2 : Database) :
  kenya_outbreaks_2007_2022 db1 = kenya_outbreaks_2007_2022 db2 ->
  disease_cases_yearly db1 = disease_cases_yearly db2 ->
  match build_synthetic_if_empty bit_generator db1, build_synthetic_if_empty bit_generator db2 with
  | Ok d1, Ok d2 => disease_cases_yearly d1 = disease_cases_yearly d2
                    /\ kenya_outbreaks_2007_2022 d1 = kenya_outbreaks_2007_2022 d2
  | Raise e1, Raise e2 => e1 = e2
  | _, _ => False
  end.
Proof.
  intros Ha Hy. unfold build_synthetic_if_empty.
  rewrite Ha, Hy.
  destruct (0 <? Py.len (disease_cases_yearly db2)).
  - split; assumption.
  - destruct (synthesize_all bit_generator YEARS
                (Sql.select_totals (kenya_outbreaks_2007_2022 db2)) (default_rng 42));
      simpl; [ split; reflexivity | reflexivity ].
Qed.

End BatchFacts.

(** ** The stored series *)

Lemma series_of_absent (disease : string) (rows : list YearlyCase) :
  ~ In disease (map yc_disease rows) -> series_of disease rows = [].
Proof.
  unfold series_of. induction rows as [| r rows IH]; simpl; intros H; [ reflexivity |].
  destruct (String.eqb_spec (yc_disease r) disease) as [E | E].
  - exfalso. apply H. left. exact E.
  - apply IH. intros Hin. apply H. right. exact Hin.
Qed.

Lemma synthetic_rows_names (disease : string) (years yearly : list Z) :
  forall d, In d (map yc_disease (synthetic_rows disease years yearly)) -> d = disease.
Proof.
  unfold synthetic_rows. intros d H. rewrite map_map in H.
  apply in_map_iff in H. destruct H as ([y c] & <- & _). reflexivity.
Qed.

Lemma synthetic_rows_keys (disease : string) (years yearly : list Z) :
  List.length yearly = List.length years ->
  map (fun r => (yc_disease r, yc_year r)) (synthetic_rows disease years yearly)
  = map (fun y => (disease, y)) years.
Proof.
  unfold synthetic_rows. revert yearly.
  induction years as [| y years IH]; intros [| c yearly] H; simpl in *;
    try congruence.
  f_equal. apply IH. congruence.
Qed.

Lemma map_fst_combine {A B} (l : list A) : forall l' : list B,
  List.length l' = List.length l -> map fst (combine l l') = l.
Proof.
  induction l as [| a l IH]; intros [| b l'] H; simpl in *; try congruence.
  f_equal. apply IH. congruence.
Qed.

Lemma map_snd_combine {A B} (l : list A) : forall l' : list B,
  List.length l' = List.length l -> map snd (combine l l') = l'.
Proof.
  induction l as [| a l IH]; intros [| b l'] H; simpl in *; try congruence.
  f_equal. apply IH. congruence.
Qed.

Section StoredSeries.

Variable bit_generator : Z -> nat -> float.

Lemma synthesize_all_names years : forall totals rng rows,
  synthesize_all bit_generator years totals rng = Ok rows ->
  forall d, In d (map yc_disease rows) -> In d (map fst totals).
Proof.
  induction totals as [| [d0 t0] totals IH]; intros rng rows H d Hd; simpl in H.
  - injection H as <-. contradiction.
  - apply bind_ok in H. destruct H as ([y0 rng'] & _ & H).
    apply bind_ok in H. destruct H as (rest & Hrest & H). injection H as <-.
    rewrite map_app in Hd. apply in_app_or in Hd. destruct Hd as [Hd | Hd].
    + left. symmetry. apply (synthetic_rows_names _ _ _ _ Hd).
    + right. apply (IH _ _ Hrest). exact Hd.
Qed.

(** With one row per name in the batch, the rows of an entity are its own
    series, which sums to its total. *)
Lemma synthesize_all_series years : forall totals rng rows,
  synthesize_all bit_generator years totals rng = Ok rows ->
  NoDup (map fst totals) ->
  forall d t, In (d, t) totals ->
    exists yearly,
      series_of d rows = combine years yearly
      /\ List.length yearly = List.length years
      /\ Py.zsum yearly = t.
Proof.
  induction totals as [| [d0 t0] totals IH]; intros rng rows H Hnd d t Hin;
    [ contradiction |].
  simpl in H.
  apply bind_ok in H. destruct H as ([y0 rng'] & Hs & H).
  apply bind_ok in H. destruct H as (rest & Hrest & H). injection H as <-.
  inversion Hnd as [| ? ? Hd0 Hnd']; subst.
  rewrite series_of_app.
  destruct (synthesize_inv _ _ _ _ _ _ Hs)
    as (rounded & _ & Hlr & Hlen & Hy & Hr & Hla & _).
  destruct Hin as [E | Hin].
  - injection E as <- <-. exists y0.
    rewrite series_of_synthetic_rows, series_of_absent.
    + rewrite app_nil_r. repeat split; [ assumption |].
      assert (Hyl : y0 <> []) by (destruct y0, years; simpl in *; congruence).
      assert (Hrl : rounded <> [])
        by (destruct rounded, years; simpl in *; congruence).
      rewrite (zsum_removelast_last y0 Hyl), Hr, Hla.
      rewrite (zsum_removelast_last rounded Hrl). lia.
    + intros Hd. apply Hd0. apply (synthesize_all_names _ _ _ _ Hrest). exact Hd.
  - assert (Hne : d0 <> d).
    { intros <-. apply Hd0. apply in_map_iff. exists (d0, t). auto. }
    rewrite (series_of_other d d0) by assumption.
    apply (IH _ _ Hrest Hnd' d t Hin).
Qed.

Lemma synthesize_all_keys years : forall totals rng rows,
  synthesize_all bit_generator years totals rng = Ok rows ->
  NoDup (map fst totals) -> NoDup years ->
  NoDup (map (fun r => (yc_disease r, yc_year r)) rows).
Proof.
  induction totals as [| [d0 t0] totals IH]; intros rng rows H Hnd Hy; simpl in H.
  - injection H as <-. constructor.
  - apply bind_ok in H. destruct H as ([y0 rng'] & Hs & H).
    apply bind_ok in H. destruct H as (rest & Hrest & H). injection H as <-.
    inversion Hnd as [| ? ? Hd0 Hnd']; subst.
    destruct (synthesize_inv _ _ _ _ _ _ Hs) as (_ & _ & _ & Hlen & _).
    rewrite map_app, synthetic_rows_keys by assumption.
    apply NoDup_app.
    + apply Finite.Injective_map_NoDup; [ | assumption ].
      intros a b E. congruence.
    + apply (IH _ _ Hrest Hnd' Hy).
    + intros [d y] H1 H2. apply in_map_iff in H1. destruct H1 as (y' & E & _).
      injection E as <- <-.
      apply in_map_iff in H2. destruct H2 as (r & E & Hr). injection E as E _.
      apply Hd0. apply (synthesize_all_names _ _ _ _ Hrest).
      rewrite <- E. apply in_map. exact Hr.
Qed.

Lemma insert_do_nothing_fresh (rows : list YearlyCase) : forall t,
  NoDup (map (fun r => (yc_disease r, yc_year r)) (t ++ rows)) ->
  Sql.insert_do_nothing t rows = t ++ rows.
Proof.
  induction rows as [| r rows IH]; intros t Hnd; simpl.
  - symmetry. apply app_nil_r.
  - replace (existsb (Sql.same_key r) t) with false.
    + rewrite IH; rewrite <- app_assoc; [ reflexivity | exact Hnd ].
    + symmetry. apply not_true_is_false. intros Hex.
      apply existsb_exists in Hex. destruct Hex as (x & Hx & Hk).
      unfold Sql.same_key in Hk. apply andb_true_iff in Hk. destruct Hk as [Hd Hy].
      apply String.eqb_eq in Hd. apply Z.eqb_eq in Hy.
      rewrite map_app in Hnd. simpl in Hnd.
      apply NoDup_remove_2 in Hnd. apply Hnd. apply in_or_app. left.
      apply in_map_iff. exists x. split; [ congruence | assumption ].
Qed.

(** After the step has filled an empty store, the series stored for each
    entity covers [YEARS] and sums to the entity's aggregate total. *)
Lemma build_synthetic_sums (db db' : Database) :
  NoDup (map ob_disease (kenya_outbreaks_2007_2022 db)) ->
  disease_cases_yearly db = [] ->
  build_synthetic_if_empty bit_generator db = Ok db' ->
  forall r, In r (kenya_outbreaks_2007_2022 db) ->
    map fst (series_of (ob_disease r) (disease_cases_yearly db')) = YEARS
    /\ Py.zsum (map snd (series_of (ob_disease r) (disease_cases_yearly db')))
       = ob_cases r.
Proof.
  intros Hnd Hempty H r Hr. unfold build_synthetic_if_empty in H.
  rewrite Hempty in H. change (0 <? Py.len (@nil YearlyCase)) with false in H.
  cbv iota in H. apply bind_ok in H. destruct H as (rows & Hrows & H).
  injection H as <-. cbn [disease_cases_yearly].
  assert (Hnames : NoDup (map fst (Sql.select_totals (kenya_outbreaks_2007_2022 db)))).
  { unfold Sql.select_totals. rewrite map_map. cbn [fst].
    eapply Permutation_NoDup; [ | exact Hnd ].
    apply Permutation_map, order_by_perm. }
  assert (Hyears : NoDup YEARS).
  { apply (NoDup_map_inv (fun y => y)). rewrite map_id.
    unfold YEARS, Py.range. apply Finite.Injective_map_NoDup; [ | apply seq_NoDup ].
    intros a b E. lia. }
  rewrite (insert_do_nothing_fresh rows [])
    by (apply (synthesize_all_keys _ _ _ _ Hrows Hnames Hyears)).
  cbn [app].
  destruct (synthesize_all_series _ _ _ _ Hrows Hnames (ob_disease r) (ob_cases r))
    as (yearly & -> & Hlen & Hsum).
  - unfold Sql.select_totals. apply in_map_iff. exists r. split; [ reflexivity |].
    apply order_by_In. exact Hr.
  - split.
    + apply map_fst_combine. exact Hlen.
    + rewrite map_snd_combine by exact Hlen. exact Hsum.
Qed.

End StoredSeries.

(** ** The orchestrator *)

Lemma forecast_rows_tags ExponentialSmoothing horizon data_source disease df rows :
  forecast_rows ExponentialSmoothing horizon data_source disease df = Ok rows ->
  Forall (fun r => fc_data_source r = data_source /\ fc_disease r = disease) rows.
Proof.
  unfold forecast_rows. intros H.
  inv_bind H. destruct a as [[[fc lo] hi] method].
  inv_bind H. revert H. apply mapM_Forall.
  intros [i y] r _ H. inv_bind H. inv_bind H. inv_bind H. injection H as <-.
  split; reflexivity.
Qed.

Lemma fetch_timeseries_provenance (db : Database) :
  snd (fetch_timeseries db) = provenance (disease_cases_yearly db).
Proof.
  unfold fetch_timeseries, provenance, Sql.select_yearly. simpl.
  rewrite order_by_existsb. reflexivity.
Qed.

Lemma all_rows_reads ExponentialSmoothing horizon (db1 db2 : Database) :
  disease_cases_yearly db1 = disease_cases_yearly db2 ->
  all_rows ExponentialSmoothing horizon db1 = all_rows ExponentialSmoothing horizon db2.
Proof.
  intros H. unfold all_rows, fetch_timeseries. rewrite H. reflexivity.
Qed.

(** ** The batch of forecasts is built *)

Lemma groupby_disease_nonempty (df : list YearlyCase) :
  Forall (fun g : string * list (Z * Z) => snd g <> []) (groupby_disease df).
Proof.
  unfold groupby_disease. apply Forall_map, Forall_forall.
  intros d Hd. apply nodup_In, in_map_iff in Hd. destruct Hd as (r & <- & Hr).
  simpl. intros Hnil. apply map_eq_nil in Hnil.
  assert (Hin : In r (filter (fun r' => (yc_disease r' =? yc_disease r)%string) df)).
  { apply filter_In. split; [ assumption | apply String.eqb_refl ]. }
  rewrite Hnil in Hin. contradiction.
Qed.

(** Forecasting never raises: every group of the frame has a row, and
    every array has a value for each forecast year. *)
Lemma all_rows_returns ExponentialSmoothing (horizon : Z) (db : Database) :
  exists rows, all_rows ExponentialSmoothing horizon db = Ok rows.
Proof.
  unfold all_rows, fetch_timeseries.
  set (df := Sql.select_yearly (disease_cases_yearly db)).
  set (data_source := if existsb _ df then _ else _).
  destruct (mapM_ok (fun '(disease, g) =>
                       forecast_rows ExponentialSmoothing horizon data_source disease g)
                    (groupby_disease df)) as [rows Hrows].
  - intros [d g] Hin.
    pose proof (groupby_disease_nonempty df) as Hne.
    rewrite Forall_forall in Hne. specialize (Hne _ Hin). simpl in Hne.
    destruct (forecast_rows_spec ExponentialSmoothing horizon data_source d g Hne)
      as (rows & _ & _ & _ & _ & _ & E & _).
    eauto.
  - rewrite Hrows. simpl. eauto.
Qed.

(** * Further properties of the code *)

(** ** [connect] *)

Lemma connect_loop_success psycopg2_connect : forall n i slept k conn,
  (k < n)%nat ->
  (forall j, (j < k)%nat -> exists e, psycopg2_connect (i + j)%nat = Raise e) ->
  psycopg2_connect (i + k)%nat = Ok conn ->
  connect_loop psycopg2_connect n i slept
  = (Connected {| conn_handle := conn_handle conn; autocommit := true |},
     slept + 3 * Z.of_nat k).
Proof.
  induction n as [| n IH]; intros i slept k conn Hk Hfail Hok; [ lia |].
  cbn [connect_loop]. destruct k as [| k].
  - rewrite Nat.add_0_r in Hok. rewrite Hok. f_equal. lia.
  - destruct (Hfail 0%nat ltac:(lia)) as [e He].
    rewrite Nat.add_0_r in He. rewrite He.
    assert (Hk' : (k < n)%nat) by lia.
    assert (Hfail' : forall j, (j < k)%nat ->
                       exists e', psycopg2_connect (S i + j)%nat = Raise e').
    { intros j Hj. destruct (Hfail (S j) ltac:(lia)) as [e' He'].
      exists e'. rewrite <- He'. f_equal. lia. }
    assert (Hok' : psycopg2_connect (S i + k)%nat = Ok conn).
    { rewrite <- Hok. f_equal. lia. }
    rewrite (IH (S i) (slept + 3) k conn Hk' Hfail' Hok').
    f_equal. lia.
Qed.

Lemma connect_loop_failure psycopg2_connect : forall n i slept,
  (forall j, (j < n)%nat -> exists e, psycopg2_connect (i + j)%nat = Raise e) ->
  connect_loop psycopg2_connect n i slept
  = (RuntimeError "Could not connect to Postgres", slept + 3 * Z.of_nat n).
Proof.
  induction n as [| n IH]; intros i slept Hfail.
  - simpl. f_equal. lia.
  - cbn [connect_loop]. destruct (Hfail 0%nat ltac:(lia)) as [e He].
    rewrite Nat.add_0_r in He. rewrite He.
    rewrite IH; [ f_equal; lia |].
    intros j Hj. destruct (Hfail (S j) ltac:(lia)) as [e' He'].
    exists e'. rewrite <- He'. f_equal. lia.
Qed.

Lemma connect_loop_reads p q : forall n i slept,
  (forall j, (j < n)%nat -> q (i + j)%nat = p (i + j)%nat) ->
  connect_loop q n i slept = connect_loop p n i slept.
Proof.
  induction n as [| n IH]; intros i slept H; [ reflexivity |].
  cbn [connect_loop]. pose proof (H 0%nat ltac:(lia)) as H0.
  rewrite Nat.add_0_r in H0. rewrite H0.
  destruct (p i); [ reflexivity |].
  apply IH. intros j Hj. specialize (H (S j) ltac:(lia)).
  replace (S i + j)%nat with (i + S j)%nat by lia. exact H.
Qed.

(** X1. [connect] returns the connection of the first call of
    [psycopg2.connect] that succeeds among the first 20, with [autocommit]
    switched on, after sleeping 3 seconds for each call that failed before
    it.  When all 20 calls fail it raises [RuntimeError], 60 seconds of
    sleep later; and there is never a 21st call. *)
Theorem connect_retries :
  forall psycopg2_connect,
    (forall k conn,
        (k < 20)%nat ->
        (forall j, (j < k)%nat -> exists e, psycopg2_connect j = Raise e) ->
        psycopg2_connect k = Ok conn ->
        connect psycopg2_connect
        = (Connected {| conn_handle := conn_handle conn; autocommit := true |},
           3 * Z.of_nat k))
    /\ ((forall j, (j < 20)%nat -> exists e, psycopg2_connect j = Raise e) ->
        connect psycopg2_connect
        = (RuntimeError "Could not connect to Postgres", 60))
    /\ (forall other,
           (forall j, (j < 20)%nat -> other j = psycopg2_connect j) ->
           connect other = connect psycopg2_connect).
Proof.
  intros p. split; [ | split ].
  - intros k conn Hk Hfail Hok. unfold connect.
    rewrite (connect_loop_success p 20 0 0 k conn Hk); [ reflexivity | | exact Hok ].
    intros j Hj. apply Hfail. exact Hj.
  - intros Hfail. unfold connect.
    rewrite connect_loop_failure; [ reflexivity |].
    intros j Hj. apply Hfail. exact Hj.
  - intros q H. unfold connect. apply connect_loop_reads.
    intros j Hj. apply H. exact Hj.
Qed.

Lemma connect_retries_witness :
  connect slow_server
  = (Connected {| conn_handle := 3; autocommit := true |}, 9).
Proof.
  apply (proj1 (connect_retries slow_server) 3%nat
           {| conn_handle := 3; autocommit := false |}).
  - lia.
  - intros j Hj. exists (LibraryError "connection refused").
    unfold slow_server. replace (j <? 3)%nat with true; [ reflexivity |].
    symmetry. apply Nat.ltb_lt. exact Hj.
  - reflexivity.
Defined.

(** ** [table_has_real_yearly_data] *)

Lemma count_filter_existsb {A} (f : A -> bool) (l : list A) :
  (0 <? Py.len (filter f l)) = existsb f l.
Proof.
  induction l as [| x l IH]; [ reflexivity |].
  simpl. destruct (f x); [ | exact IH ].
  unfold Py.len. simpl List.length. apply Z.ltb_lt. lia.
Qed.

(** X2. The count that [table_has_real_yearly_data] takes in SQL and the
    flag that [fetch_timeseries] computes on the frame agree: the helper
    answers true exactly when the run tags its forecasts [real]. *)
Theorem real_data_check_agrees :
  forall db,
    (table_has_real_yearly_data db = true
     <-> snd (fetch_timeseries db) = "real"%string)
    /\ (table_has_real_yearly_data db = false
        <-> snd (fetch_timeseries db) = "synthetic"%string).
Proof.
  intros db. rewrite fetch_timeseries_provenance.
  unfold table_has_real_yearly_data, provenance.
  rewrite count_filter_existsb.
  destruct (existsb _ (disease_cases_yearly db)); split; split;
    intros H; try reflexivity; discriminate.
Qed.

(** ** Totals at the edge: zero and negative *)

Section EdgeTotals.

Import Binary64 Binary64Facts.

Variable bit_generator : Z -> nat -> float.

Lemma zero_mul_finite (z : float) :
  is_finite z = true -> (0 * z = 0 \/ 0 * z = neg_zero)%float.
Proof.
  intros H. apply is_finite_spec in H.
  destruct (Prim2SF z) as [s | s | | s m e] eqn:E; try contradiction.
  - destruct s; [ right | left ]; apply Prim2SF_inj; rewrite mul_spec, E; reflexivity.
  - destruct s; [ right | left ]; apply Prim2SF_inj; rewrite mul_spec, E; reflexivity.
Qed.

Lemma bounded_is_finite (k : Z) (x : float) : bounded k x -> is_finite x = true.
Proof.
  unfold bounded. intros H. apply is_finite_spec.
  destruct (Prim2SF x); simpl in H; tauto.
Qed.

Lemma is_finite_not_nan (x : float) : is_finite x = true -> is_nan x = false.
Proof.
  unfold is_finite. intros H. apply negb_true_iff, orb_false_iff in H. apply H.
Qed.

(** With a base of zero every provisional value is [0.0], whatever the
    (finite) variates are. *)
Lemma provisional_zero (seed : Z) :
  (forall k, is_finite (bit_generator seed k) = true) ->
  forall years i rng,
    0 <= i -> gen_seed rng = seed ->
    provisional bit_generator years i 0 0 rng
    = Ok (repeat 0%float (List.length years), advance rng (List.length years)).
Proof.
  intros Hg. induction years as [| y years IH]; intros i rng Hi Hseed.
  - simpl. rewrite advance_0. reflexivity.
  - cbn [provisional]. unfold normal.
    change (negb (is_nan (0 * 0.1)) && signbit (0 * 0.1)) with false. cbv iota.
    change (0 * 0.1)%float with 0%float.
    cbn [bind].
    rewrite (IH (i + 1)) by (simpl; lia || assumption). cbn [bind].
    destruct (zero_mul_finite (bit_generator (gen_seed rng) (gen_drawn rng)))
      as [-> | ->]; [ rewrite Hseed; apply Hg | | ];
      (destruct (zero_mul_finite (Py.float_of_int i))
        as [-> | ->];
       [ apply (bounded_is_finite 64), float_of_int_bounded; assumption | | ]);
      (f_equal; f_equal; unfold advance; simpl; f_equal; lia).
Qed.

Lemma rescale_zero (n : nat) :
  rescale 0 (repeat 0%float n) = Ok (repeat 0 n).
Proof.
  unfold rescale. induction n as [| n IH]; [ reflexivity |].
  cbn [repeat mapM]. rewrite IH. reflexivity.
Qed.

Lemma zsum_repeat_zero (n : nat) : Py.zsum (repeat 0 n) = 0.
Proof.
  induction n as [| n IH]; [ reflexivity |].
  cbn [repeat]. rewrite zsum_cons, IH. reflexivity.
Qed.

Lemma synthesize_zero (years : list Z) (rng : Generator) :
  0 < Py.len years <= Py.maxsize ->
  (forall k, is_finite (bit_generator (gen_seed rng) k) = true) ->
  synthesize bit_generator years 0 rng
  = Ok (repeat 0 (List.length years), advance rng (List.length years)).
Proof.
  intros Hn Hg. unfold Py.maxsize in Hn.
  assert (Hn' : 0 < Py.len years < 2 ^ 63) by lia.
  unfold synthesize, Py.int_truediv.
  replace (Py.len years =? 0) with false by (symmetry; apply Z.eqb_neq; lia).
  cbn [bind]. change (Py.float_of_int 0) with 0%float.
  rewrite (zero_div_count _ Hn').
  change ((if (10000 <? 0)%Z then 0.15 else 0.05) * 0)%float with 0%float.
  rewrite (zero_div_count _ Hn').
  rewrite (provisional_zero (gen_seed rng) Hg years 0 rng ltac:(lia) eq_refl).
  cbn [bind].
  rewrite (fsum_zeros (repeat 0%float (List.length years)))
    by (apply Forall_forall; intros v Hv; apply repeat_spec in Hv; exact Hv).
  change (0 / Py.fmax 1e-9 0)%float with 0%float.
  rewrite rescale_zero. cbn [bind].
  rewrite zsum_repeat_zero. reflexivity.
Qed.

(** The float of a negative int carries a sign bit. *)
Lemma float_of_int_neg (z : Z) :
  z < 0 -> bounded 64 (Py.float_of_int z) /\ sf_signed true (Prim2SF (Py.float_of_int z)).
Proof.
  intros Hz. destruct z as [| p | p]; try lia.
  unfold Py.float_of_int, bounded. rewrite opp_spec.
  destruct (of_uint63_bounded (Uint63.of_Z (Zpos p))) as [Hb Hs].
  unfold bounded, nonneg in Hb, Hs.
  destruct (Prim2SF (of_uint63 (Uint63.of_Z (Zpos p)))) as [s | s | | s m e];
    simpl in *; try contradiction; subst; split; auto.
Qed.

Lemma normal_negative_scale (k : Z) (loc scale : float) (rng : Generator) :
  bounded k scale -> sf_signed true (Prim2SF scale) ->
  normal bit_generator loc scale rng = Raise (ValueError "scale < 0").
Proof.
  intros Hb Hs. unfold normal.
  rewrite (is_finite_not_nan _ (bounded_is_finite _ _ Hb)).
  replace (signbit scale) with true; [ reflexivity |].
  unfold signbit, bounded in *.
  destruct (Prim2SF scale); simpl in *; try contradiction; congruence.
Qed.

Lemma synthesize_negative (years : list Z) (total_cases : Z) (rng : Generator) :
  total_cases < 0 ->
  0 < Py.len years <= Py.maxsize ->
  synthesize bit_generator years total_cases rng = Raise (ValueError "scale < 0").
Proof.
  intros Ht Hn. unfold Py.maxsize in Hn.
  unfold synthesize, Py.int_truediv.
  replace (Py.len years =? 0) with false by (symmetry; apply Z.eqb_neq; lia).
  cbn [bind].
  destruct (float_of_int_neg total_cases Ht) as [Bt St].
  destruct (float_of_int_bounded (Py.len years) ltac:(lia)) as [Bn Nn].
  pose proof (float_of_int_lower (Py.len years) ltac:(lia)) as Ln.
  set (base := (Py.float_of_int total_cases / Py.float_of_int (Py.len years))%float).
  assert (Bbase : bounded 65 base) by (apply (div_bounded 64 1 64); auto; lia).
  assert (Sbase : sf_signed true (Prim2SF base)).
  { unfold base. rewrite div_spec.
    apply (SFdiv_signed _ _ true false); assumption. }
  assert (Bsigma : bounded 63 (base * 0.1)).
  { apply (mul_bounded 65 (-3) 62); try assumption; try lia.
    vm_compute. discriminate. }
  assert (Ssigma : sf_signed true (Prim2SF (base * 0.1))).
  { rewrite mul_spec. apply (SFmul_signed _ _ true false); [ assumption | reflexivity ]. }
  destruct years as [| y years]; [ unfold Py.len in Hn; simpl in Hn; lia |].
  cbn [provisional].
  rewrite (normal_negative_scale 63 0 (base * 0.1) rng Bsigma Ssigma).
  reflexivity.
Qed.

Lemma synthesize_all_negative (years : list Z) :
  0 < Py.len years <= Py.maxsize ->
  forall totals rng,
    Exists (fun dt : string * Z => snd dt < 0) totals ->
    exists e, synthesize_all bit_generator years totals rng = Raise e.
Proof.
  intros Hn. induction totals as [| [d t] totals IH]; intros rng Hex.
  - inversion Hex.
  - cbn [synthesize_all].
    destruct (synthesize bit_generator years t rng) as [[yearly rng'] | e] eqn:Es;
      [ | cbn [bind]; eauto ].
    inversion Hex as [? ? Hneg | ? ? Hrest]; subst.
    + simpl in Hneg. rewrite (synthesize_negative years t rng Hneg Hn) in Es.
      discriminate.
    + cbn [bind]. destruct (IH rng' Hrest) as [e ->]. cbn [bind]. eauto.
Qed.

End EdgeTotals.

(** X3. An entity whose aggregate total is 0 gets a series of zeros, one
    per year, whatever (finite) noise the generator draws for it; and the
    forecast of that series is the naive mean, [0.0] throughout, so no
    model is ever fitted to it. *)
Theorem zero_total_zero_series :
  forall bit_generator ExponentialSmoothing years rng horizon,
    0 < Py.len years <= Py.maxsize ->
    (forall k, is_finite (bit_generator (gen_seed rng) k) = true) ->
    synthesize bit_generator years 0 rng
    = Ok (repeat 0 (List.length years), advance rng (List.length years))
    /\ fit_and_forecast ExponentialSmoothing
         (combine years (repeat 0 (List.length years))) horizon
       = Ok (Py.replicate 0%float horizon, Py.replicate 0%float horizon,
             Py.replicate 0%float horizon, "naive-mean"%string).
Proof.
  intros g E years rng h Hn Hg.
  split; [ apply synthesize_zero; assumption |].
  set (df := combine years (repeat 0 (List.length years))).
  assert (Hlen : Py.len df = Py.len years).
  { unfold Py.len, df. rewrite length_combine, repeat_length. lia. }
  assert (Hz : Forall (fun yc : Z * Z => snd yc = 0) df).
  { apply Forall_forall. intros [y c] Hin. apply in_combine_r in Hin.
    apply repeat_spec in Hin. exact Hin. }
  unfold fit_and_forecast.
  rewrite (series_sum_zeros _ Hz). change (0 =? 0)%float with true.
  rewrite orb_true_r. unfold naive.
  rewrite (series_mean_zeros df); [ reflexivity | | exact Hz ].
  unfold Py.maxsize in Hn. rewrite Hlen. lia.
Qed.

Lemma zero_total_zero_series_witness :
  synthesize sample_noise YEARS 0 (default_rng 42)
  = Ok (repeat 0 16, {| gen_seed := 42; gen_drawn := 16 |}).
Proof.
  refine (proj1 (zero_total_zero_series sample_noise linear_fit YEARS (default_rng 42) 3
                   _ _)).
  - vm_compute. split; [ reflexivity | discriminate ].
  - intros k. unfold sample_noise.
    do 17 (destruct k as [| k]; [ reflexivity |]).
    destruct k; reflexivity.
Defined.

(** X4. A negative aggregate total stops the synthesis: the noise scale
    [base * 0.1] is negative, the generator refuses it with
    [ValueError: scale < 0], and since the one [INSERT] comes after the
    loop, [build_synthetic_if_empty] raises without writing a row. *)
Theorem negative_total_raises :
  forall bit_generator,
    (forall years total_cases rng,
        - 2 ^ 31 <= total_cases < 0 ->
        0 < Py.len years <= Py.maxsize ->
        synthesize bit_generator years total_cases rng = Raise (ValueError "scale < 0"))
    /\ (forall db,
           disease_cases_yearly db = [] ->
           Exists (fun r => - 2 ^ 31 <= ob_cases r < 0) (kenya_outbreaks_2007_2022 db) ->
           exists e, build_synthetic_if_empty bit_generator db = Raise e).
Proof.
  intros g. split.
  - intros years t rng Ht Hn. apply synthesize_negative; [ lia | assumption ].
  - intros db Hempty Hex. unfold build_synthetic_if_empty.
    rewrite Hempty. change (0 <? Py.len (@nil YearlyCase)) with false. cbv iota.
    destruct (synthesize_all_negative g YEARS
                ltac:(vm_compute; split; [ reflexivity | discriminate ])
                (Sql.select_totals (kenya_outbreaks_2007_2022 db)) (default_rng 42))
      as [e ->]; [ | cbn [bind]; eauto ].
    unfold Sql.select_totals. apply Exists_exists.
    apply Exists_exists in Hex. destruct Hex as (r & Hr & Hneg).
    exists (ob_disease r, ob_cases r). split; [ | simpl; lia ].
    apply in_map_iff. exists r. split; [ reflexivity |].
    apply order_by_In. exact Hr.
Qed.

Lemma negative_total_raises_witness :
  synthesize no_noise YEARS (-5) (default_rng 42) = Raise (ValueError "scale < 0").
Proof.
  apply (proj1 (negative_total_raises no_noise) YEARS (-5) (default_rng 42)).
  - lia.
  - vm_compute. split; [ reflexivity | discriminate ].
Defined.

(** ** What the synthetic fill stores *)

Lemma synthetic_rows_tagged (disease : string) (years yearly : list Z) :
  Forall (fun r => yc_source r = "synthetic"%string
                   /\ yc_disease r = disease /\ In (yc_year r) years)
         (synthetic_rows disease years yearly).
Proof.
  unfold synthetic_rows. apply Forall_map, Forall_forall.
  intros [y c] Hin. simpl. repeat split. apply in_combine_l in Hin. exact Hin.
Qed.

Lemma synthesize_all_shape bit_generator (years : list Z) : forall totals rng rows,
  synthesize_all bit_generator years totals rng = Ok rows ->
  List.length rows = (List.length totals * List.length years)%nat
  /\ Forall (fun r => yc_source r = "synthetic"%string
                      /\ In (yc_disease r) (map fst totals)
                      /\ In (yc_year r) years) rows.
Proof.
  induction totals as [| [d t] totals IH]; intros rng rows H; simpl in H.
  - injection H as <-. split; [ reflexivity | constructor ].
  - apply bind_ok in H. destruct H as ([y0 rng'] & Hs & H).
    apply bind_ok in H. destruct H as (rest & Hrest & H). injection H as <-.
    destruct (synthesize_advances _ _ _ _ _ _ Hs) as [_ Hlen].
    destruct (IH _ _ Hrest) as [Hl Hall].
    split.
    + rewrite length_app, synthetic_rows_length, Hl by assumption. simpl. lia.
    + apply Forall_app. split.
      * eapply Forall_impl; [ | apply synthetic_rows_tagged ].
        intros r (Hsrc & Hd & Hy). repeat split; try assumption.
        left. symmetry. exact Hd.
      * revert Hall. apply Forall_impl.
        intros r (Hsrc & Hd & Hy). repeat split; try assumption.
        right. exact Hd.
Qed.

Lemma provenance_synthetic (store : list YearlyCase) :
  Forall (fun r => yc_source r = "synthetic"%string) store ->
  provenance store = "synthetic"%string.
Proof.
  intros H. unfold provenance.
  replace (existsb (fun r => negb (yc_source r =? "synthetic")%string) store) with false;
    [ reflexivity |].
  symmetry. apply not_true_is_false. intros Hex.
  apply existsb_exists in Hex. destruct Hex as (r & Hin & Hr).
  rewrite Forall_forall in H. rewrite (H r Hin) in Hr. discriminate.
Qed.

Lemma YEARS_NoDup : NoDup YEARS.
Proof.
  unfold YEARS, Py.range. apply Finite.Injective_map_NoDup; [ | apply seq_NoDup ].
  intros a b E. lia.
Qed.

Lemma select_totals_names (t : list Outbreak) :
  Permutation (map ob_disease t) (map fst (Sql.select_totals t)).
Proof.
  unfold Sql.select_totals. rewrite map_map. cbn [fst].
  apply Permutation_map, order_by_perm.
Qed.

(** On an empty table with one aggregate per disease, what is stored is
    the batch itself: no row of it is dropped as a conflict. *)
Lemma build_synthetic_store bit_generator (db db' : Database) :
  NoDup (map ob_disease (kenya_outbreaks_2007_2022 db)) ->
  disease_cases_yearly db = [] ->
  build_synthetic_if_empty bit_generator db = Ok db' ->
  synthesize_all bit_generator YEARS
                 (Sql.select_totals (kenya_outbreaks_2007_2022 db)) (default_rng 42)
  = Ok (disease_cases_yearly db')
  /\ NoDup (map yearly_key (disease_cases_yearly db')).
Proof.
  intros Hnd Hempty H. unfold build_synthetic_if_empty in H.
  rewrite Hempty in H. change (0 <? Py.len (@nil YearlyCase)) with false in H.
  cbv iota in H. apply bind_ok in H. destruct H as (rows & Hrows & H).
  assert (Hnames : NoDup (map fst (Sql.select_totals (kenya_outbreaks_2007_2022 db))))
    by (eapply Permutation_NoDup; [ apply select_totals_names | exact Hnd ]).
  pose proof (synthesize_all_keys bit_generator _ _ _ _ Hrows Hnames YEARS_NoDup) as Hkeys.
  assert (Hstore : disease_cases_yearly db' = rows).
  { injection H as <-. cbn [disease_cases_yearly].
    apply (insert_do_nothing_fresh rows []). exact Hkeys. }
  rewrite Hstore. split; [ exact Hrows | exact Hkeys ].
Qed.

(** X5. When [build_synthetic_if_empty] fills an empty table from
    aggregates that have one row per disease, it stores [len(YEARS)] rows
    for each aggregate, every one tagged [synthetic], for a disease of the
    aggregates and a year of [YEARS], and no two with the same
    (disease, year); the batch that is read back is tagged [synthetic]. *)
Theorem synthetic_fill_shape :
  forall bit_generator db db',
    NoDup (map ob_disease (kenya_outbreaks_2007_2022 db)) ->
    disease_cases_yearly db = [] ->
    build_synthetic_if_empty bit_generator db = Ok db' ->
    Py.len (disease_cases_yearly db')
    = Py.len YEARS * Py.len (kenya_outbreaks_2007_2022 db)
    /\ Forall (fun r => yc_source r = "synthetic"%string
                        /\ In (yc_disease r) (map ob_disease (kenya_outbreaks_2007_2022 db))
                        /\ In (yc_year r) YEARS)
              (disease_cases_yearly db')
    /\ NoDup (map yearly_key (disease_cases_yearly db'))
    /\ snd (fetch_timeseries db') = "synthetic"%string.
Proof.
  intros g db db' Hnd Hempty H.
  destruct (build_synthetic_store g db db' Hnd Hempty H) as [Hrows Hkeys].
  destruct (synthesize_all_shape g _ _ _ _ Hrows) as [Hlen Hall].
  assert (Hsyn : Forall (fun r => yc_source r = "synthetic"%string)
                        (disease_cases_yearly db')).
  { revert Hall. apply Forall_impl. intros r [Hr _]. exact Hr. }
  rewrite fetch_timeseries_provenance.
  split; [ | split; [ | split; [ exact Hkeys | apply provenance_synthetic, Hsyn ] ] ].
  - unfold Py.len. rewrite Hlen. unfold Sql.select_totals.
    rewrite length_map, order_by_length, Nat2Z.inj_mul. lia.
  - revert Hall. apply Forall_impl. intros r (Hsrc & Hd & Hy).
    repeat split; try assumption.
    eapply Permutation_in; [ apply Permutation_sym, select_totals_names | exact Hd ].
Qed.

Lemma synthetic_fill_shape_witness :
  Py.len (disease_cases_yearly filled_store) = 32
  /\ snd (fetch_timeseries filled_store) = "synthetic"%string.
Proof.
  destruct (synthetic_fill_shape sample_noise fresh_store filled_store)
    as (Hlen & _ & _ & Hsrc).
  - repeat constructor; simpl; intuition discriminate.
  - reflexivity.
  - vm_compute. reflexivity.
  - split; [ exact Hlen | exact Hsrc ].
Defined.

(** ** The groups of [fetch_timeseries] *)

Lemma filter_perm {A} (f : A -> bool) (l l' : list A) :
  Permutation l l' -> Permutation (filter f l) (filter f l').
Proof.
  induction 1 as [| x l l' _ IH | x y l | l l' l'' _ IH1 _ IH2]; simpl.
  - constructor.
  - destruct (f x); [ constructor | ]; exact IH.
  - destruct (f x), (f y); try apply Permutation_refl. constructor.
  - eapply perm_trans; eassumption.
Qed.

Lemma groupby_disease_names (df : list YearlyCase) :
  map fst (groupby_disease df) = nodup string_dec (map yc_disease df).
Proof.
  unfold groupby_disease. rewrite map_map. cbn [fst]. apply map_id.
Qed.

Lemma groupby_disease_series (df : list YearlyCase) :
  Forall (fun g => snd g = series_of (fst g) df) (groupby_disease df).
Proof.
  unfold groupby_disease. apply Forall_map, Forall_forall.
  intros d _. reflexivity.
Qed.

(** Counting the rows disease by disease counts every row once. *)
Lemma count_by_disease (ds : list string) :
  NoDup ds ->
  forall rows : list YearlyCase,
    (forall r, In r rows -> In (yc_disease r) ds) ->
    list_sum (map (fun d => List.length (series_of d rows)) ds) = List.length rows.
Proof.
  intros Hnd.
  assert (Hc : forall x l, list_sum (x :: l) = (x + list_sum l)%nat) by reflexivity.
  assert (Hone : forall k, In k ds ->
            forall c : string -> nat,
              list_sum (map (fun d => ((if (k =? d)%string then 1 else 0) + c d)%nat) ds)
              = S (list_sum (map c ds))).
  { induction Hnd as [| d ds Hd Hnd IH]; intros k Hk c; [ contradiction |].
    cbn [map].
    rewrite !Hc. destruct Hk as [-> | Hk].
    - rewrite String.eqb_refl.
      assert (E : map (fun d' => ((if (k =? d')%string then 1 else 0) + c d')%nat) ds
                  = map c ds).
      { apply map_ext_in. intros d' Hd'.
        replace (k =? d')%string with false; [ reflexivity |].
        symmetry. apply String.eqb_neq. intros ->. contradiction. }
      rewrite E. lia.
    - replace (k =? d)%string with false
        by (symmetry; apply String.eqb_neq; intros ->; contradiction).
      rewrite (IH k Hk c). lia. }
  induction rows as [| r rows IH]; intros Hin.
  - clear. induction ds as [| d ds IHd]; [ reflexivity | exact IHd ].
  - simpl List.length. rewrite <- IH by (intros r' Hr'; apply Hin; right; exact Hr').
    rewrite <- (Hone (yc_disease r) (Hin r (or_introl eq_refl))).
    f_equal. apply map_ext. intros d. unfold series_of. simpl filter.
    destruct (yc_disease r =? d)%string; reflexivity.
Qed.

(** X6. [fetch_timeseries] makes one group for each disease that has a row
    in the store, no disease twice; the group of a disease holds exactly
    the (year, cases) pairs of its rows; and the groups together hold as
    many rows as the store, so grouping neither drops nor repeats a row. *)
Theorem fetch_timeseries_groups :
  forall db,
    NoDup (map fst (fst (fetch_timeseries db)))
    /\ (forall d, In d (map fst (fst (fetch_timeseries db)))
                  <-> In d (map yc_disease (disease_cases_yearly db)))
    /\ Forall (fun g => Permutation (snd g)
                                    (series_of (fst g) (disease_cases_yearly db)))
              (fst (fetch_timeseries db))
    /\ list_sum (map (fun g => List.length (snd g)) (fst (fetch_timeseries db)))
       = List.length (disease_cases_yearly db).
Proof.
  intros db. unfold fetch_timeseries. cbn [fst].
  set (df := Sql.select_yearly (disease_cases_yearly db)).
  assert (Hperm : Permutation (disease_cases_yearly db) df)
    by apply order_by_perm.
  rewrite groupby_disease_names.
  split; [ apply NoDup_nodup |].
  split; [ | split ].
  - intros d. rewrite nodup_In.
    split; apply Permutation_in, Permutation_map;
      [ apply Permutation_sym |]; exact Hperm.
  - eapply Forall_impl; [ | apply groupby_disease_series ].
    intros [d g] Hg. simpl in *. subst g. unfold series_of.
    apply Permutation_map, filter_perm, Permutation_sym, Hperm.
  - rewrite (Permutation_length Hperm).
    rewrite <- (count_by_disease (nodup string_dec (map yc_disease df)));
      [ | apply NoDup_nodup
        | intros r Hr; apply nodup_In, in_map; exact Hr ].
    unfold groupby_disease. rewrite map_map. reflexivity.
Qed.

(** ** The rows [main] hands to [write_forecasts] *)

Lemma mapM_Forall2 {A B} (f : A -> result B) (l : list A) : forall l',
  mapM f l = Ok l' -> Forall2 (fun a b => f a = Ok b) l l'.
Proof.
  induction l as [| a l IH]; simpl; intros l' H.
  - injection H as <-. constructor.
  - apply bind_ok in H. destruct H as (b & Hb & H).
    apply bind_ok in H. destruct H as (bs & Hbs & H). injection H as <-.
    constructor; [ exact Hb | apply IH; exact Hbs ].
Qed.

Lemma range_NoDup (a b : Z) : NoDup (Py.range a b).
Proof.
  unfold Py.range. apply Finite.Injective_map_NoDup; [ | apply seq_NoDup ].
  intros i j E. lia.
Qed.

Lemma all_rows_structure ExponentialSmoothing (horizon : Z) (db : Database)
      (rows : list Forecast) :
  all_rows ExponentialSmoothing horizon db = Ok rows ->
  exists rowss,
    rows = List.concat rowss
    /\ Forall2 (entity_rows ExponentialSmoothing horizon (snd (fetch_timeseries db)))
               (fst (fetch_timeseries db)) rowss.
Proof.
  unfold all_rows. intros H.
  pose proof (groupby_disease_nonempty (Sql.select_yearly (disease_cases_yearly db)))
    as Hne.
  change (groupby_disease (Sql.select_yearly (disease_cases_yearly db)))
    with (fst (fetch_timeseries db)) in Hne.
  destruct (fetch_timeseries db) as [ts_map data_source]. cbn [fst snd] in *.
  apply bind_ok in H. destruct H as (rowss & Hm & H). injection H as <-.
  exists rowss. split; [ reflexivity |].
  apply mapM_Forall2 in Hm.
  induction Hm as [| [d df] rs ts rowss Hrs _ IH]; [ constructor |].
  inversion Hne as [| ? ? Hdf Hne']; subst. simpl in Hdf.
  constructor; [ | apply IH; exact Hne' ].
  destruct (forecast_rows_spec ExponentialSmoothing horizon data_source d df Hdf)
    as (rs' & ymax & fc & lo & hi & m & Hrs' & _ & _ & Hyears & Hall).
  assert (rs' = rs) as -> by congruence.
  unfold entity_rows. cbn [fst snd].
  split; [ exact Hrs |]. split; [ | split ].
  - revert Hall. apply Forall_impl. intros r [Hr _]. exact Hr.
  - rewrite Hyears. apply range_NoDup.
  - rewrite <- (length_map fc_year), Hyears, range_length. f_equal. lia.
Qed.

Section ConcatByEntity.

Variable P : string * list (Z * Z) -> list Forecast -> Prop.

Hypothesis P_named : forall g rs, P g rs -> Forall (fun r => fc_disease r = fst g) rs.

Lemma concat_other_entities (d : string) (groups : list (string * list (Z * Z)))
      (rowss : list (list Forecast)) :
  Forall2 P groups rowss ->
  ~ In d (map fst groups) ->
  filter (fun r => (fc_disease r =? d)%string) (List.concat rowss) = [].
Proof.
  induction 1 as [| g rs groups rowss Hg _ IH]; intros Hd; [ reflexivity |].
  simpl. rewrite filter_app, IH by (intros Hin; apply Hd; right; exact Hin).
  rewrite app_nil_r.
  pose proof (P_named g rs Hg) as Hall.
  assert (Hne : fst g <> d) by (intros E; apply Hd; left; exact E).
  clear - Hall Hne. induction Hall as [| r rs Hr _ IHr]; [ reflexivity |].
  simpl. rewrite Hr. apply String.eqb_neq in Hne. rewrite Hne. exact IHr.
Qed.

Lemma concat_own_entity (groups : list (string * list (Z * Z)))
      (rowss : list (list Forecast)) :
  Forall2 P groups rowss ->
  NoDup (map fst groups) ->
  Forall2 (fun g rs =>
             filter (fun r => (fc_disease r =? fst g)%string) (List.concat rowss) = rs)
          groups rowss.
Proof.
  intros H Hnd.
  assert (Hgen : forall pre,
             (forall r, In r pre -> ~ In (fc_disease r) (map fst groups)) ->
             Forall2 (fun g rs =>
                        filter (fun r => (fc_disease r =? fst g)%string)
                               (pre ++ List.concat rowss) = rs)
                     groups rowss).
  { induction H as [| g rs groups rowss Hg Hrest IH]; intros pre Hpre; [ constructor |].
    inversion Hnd as [| ? ? Hd Hnd']; subst.
    pose proof (P_named g rs Hg) as Hall.
    assert (Hpre0 : filter (fun r => (fc_disease r =? fst g)%string) pre = []).
    { clear - Hpre. induction pre as [| r pre IHp]; [ reflexivity |].
      simpl. replace (fc_disease r =? fst g)%string with false.
      - apply IHp. intros r' Hr'. apply Hpre. right. exact Hr'.
      - symmetry. apply String.eqb_neq. intros E.
        apply (Hpre r (or_introl eq_refl)). left. symmetry. exact E. }
    constructor.
    - cbn [List.concat]. rewrite !filter_app, Hpre0.
      rewrite (concat_other_entities (fst g) groups rowss Hrest Hd), app_nil_r.
      cbn [app]. clear - Hall. induction Hall as [| r rs Hr _ IHr]; [ reflexivity |].
      simpl. rewrite Hr, String.eqb_refl. f_equal. exact IHr.
    - cbn [List.concat]. 
      assert (Hstep : Forall2 (fun g0 rs0 =>
                  filter (fun r => (fc_disease r =? fst g0)%string)
                         ((pre ++ rs) ++ List.concat rowss) = rs0) groups rowss).
      { apply (IH Hnd'). intros r Hr. apply in_app_or in Hr. destruct Hr as [Hr | Hr].
        - intros Hin. apply (Hpre r Hr). right. exact Hin.
        - rewrite Forall_forall in Hall. rewrite (Hall r Hr). exact Hd. }
      revert Hstep. apply Forall2_impl. intros g0 rs0 E.
      rewrite app_assoc. exact E. }
  apply (Hgen []). intros r [].
Qed.

End ConcatByEntity.

Lemma fetch_timeseries_names_NoDup (db : Database) :
  NoDup (map fst (fst (fetch_timeseries db))).
Proof.
  unfold fetch_timeseries. cbn [fst]. rewrite groupby_disease_names.
  apply NoDup_nodup.
Qed.

Lemma Forall2_In_l {A B} (R : A -> B -> Prop) (l : list A) (l' : list B) (a : A) :
  Forall2 R l l' -> In a l -> exists b, In b l' /\ R a b.
Proof.
  induction 1 as [| x y l l' Hxy _ IH]; intros Hin; [ contradiction |].
  destruct Hin as [-> | Hin].
  - exists y. split; [ left; reflexivity | exact Hxy ].
  - destruct (IH Hin) as (b & Hb & Hr). exists b. split; [ right; exact Hb | exact Hr ].
Qed.

Lemma concat_length_uniform {A} (n : nat) (ll : list (list A)) :
  Forall (fun l => List.length l = n) ll ->
  List.length (List.concat ll) = (List.length ll * n)%nat.
Proof.
  induction 1 as [| l ll Hl _ IH]; [ reflexivity |].
  simpl. rewrite length_app, Hl, IH. reflexivity.
Qed.

(** X9. [main] forecasts the entities one by one and in isolation: for
    every store and every fit, raising or not, the loop returns, with
    [horizon] rows per disease of the store; and the rows a disease gets in
    the batch are the ones [forecast_rows] gives for its own frame alone,
    so what happens to one entity (a failed fit, a short series) never
    changes the rows of another. *)
Theorem all_rows_per_entity :
  forall ExponentialSmoothing horizon db,
    0 <= horizon ->
    exists rows,
      all_rows ExponentialSmoothing horizon db = Ok rows
      /\ Py.len rows = horizon * Py.len (fst (fetch_timeseries db))
      /\ forall disease df,
           In (disease, df) (fst (fetch_timeseries db)) ->
           forecast_rows ExponentialSmoothing horizon (snd (fetch_timeseries db))
                         disease df
           = Ok (filter (fun r => (fc_disease r =? disease)%string) rows).
Proof.
  intros E h db Hh.
  destruct (all_rows_returns E h db) as [rows Hrows].
  exists rows. split; [ exact Hrows |].
  destruct (all_rows_structure E h db rows Hrows) as (rowss & -> & Hst).
  split.
  - unfold Py.len.
    rewrite (concat_length_uniform (Z.to_nat h)).
    + rewrite <- (Forall2_length Hst). lia.
    + clear - Hst. induction Hst as [| g rs gs rss Hg _ IH]; constructor;
        [ apply Hg | exact IH ].
  - intros d df Hin.
    pose proof (concat_own_entity (entity_rows E h (snd (fetch_timeseries db)))
                  ltac:(intros g rs Hg; apply Hg) _ _ Hst
                  (fetch_timeseries_names_NoDup db)) as Hown.
    assert (Hgen : forall all gs rss,
               Forall2 (entity_rows E h (snd (fetch_timeseries db))) gs rss ->
               Forall2 (fun g rs =>
                          filter (fun r => (fc_disease r =? fst g)%string) all = rs)
                       gs rss ->
               In (d, df) gs ->
               forecast_rows E h (snd (fetch_timeseries db)) d df
               = Ok (filter (fun r => (fc_disease r =? d)%string) all)).
    { intros all gs rss H1. induction H1 as [| g rs gs rss Hg _ IH]; intros H2 Hg_in;
        [ contradiction |].
      inversion H2 as [| ? ? ? ? Hrs H2']; subst.
      destruct Hg_in as [-> | Hg_in].
      - cbn [fst]. destruct Hg as [Hg _]. exact Hg.
      - apply IH; assumption. }
    apply (Hgen _ _ _ Hst Hown Hin).
Qed.

Lemma all_rows_per_entity_witness :
  exists rows,
    all_rows linear_fit 3 mixed_store = Ok rows
    /\ Py.len rows = 3 * Py.len (fst (fetch_timeseries mixed_store)).
Proof.
  destruct (all_rows_per_entity linear_fit 3 mixed_store ltac:(lia))
    as (rows & E & Hlen & _).
  exists rows. split; assumption.
Defined.

(** The keys of a batch are distinct: one name per group, distinct years
    within a group. *)
Lemma all_rows_keys_NoDup :
  forall ExponentialSmoothing horizon db rows,
    all_rows ExponentialSmoothing horizon db = Ok rows ->
    NoDup (map forecast_key rows).
Proof.
  intros E h db rows H.
  destruct (all_rows_structure E h db rows H) as (rowss & -> & Hst).
  pose proof (fetch_timeseries_names_NoDup db) as Hnd. clear H.
  revert Hnd. generalize dependent (fst (fetch_timeseries db)).
  intros groups Hst. induction Hst as [| g rs gs rss Hg Hrest IH]; intros Hnd;
    [ constructor |].
  inversion Hnd as [| ? ? Hd Hnd']; subst.
  destruct Hg as (_ & Hall & Hyears & _).
  cbn [List.concat]. rewrite map_app. apply NoDup_app.
  - clear - Hall Hyears. induction Hall as [| r rs Hr _ IHr]; [ constructor |].
    simpl in *. inversion Hyears as [| ? ? Hy Hyears']; subst.
    constructor; [ | apply IHr; exact Hyears' ].
    intros Hin. apply Hy. apply in_map_iff in Hin.
    destruct Hin as (r' & Ek & Hr'). apply in_map_iff. exists r'.
    split; [ | exact Hr' ]. unfold forecast_key in Ek. congruence.
  - apply IH. exact Hnd'.
  - intros k Hk1 Hk2.
    apply in_map_iff in Hk1. destruct Hk1 as (r1 & <- & Hr1).
    apply in_map_iff in Hk2. destruct Hk2 as (r2 & Ek & Hr2).
    rewrite Forall_forall in Hall. pose proof (Hall r1 Hr1) as Hd1.
    apply Hd. apply in_concat in Hr2. destruct Hr2 as (rs2 & Hrs2 & Hin2).
    clear - Hrest Hrs2 Hin2 Ek Hd1.
    induction Hrest as [| g2 rs' gs rss Hg2 _ IH2]; [ contradiction |].
    destruct Hrs2 as [-> | Hrs2]; [ | right; apply IH2; exact Hrs2 ].
    left. destruct Hg2 as (_ & Hall2 & _). rewrite Forall_forall in Hall2.
    rewrite <- (Hall2 r2 Hin2). unfold forecast_key in Ek. congruence.
Qed.

(** X10. No two rows of a batch that [main] hands to [write_forecasts]
    share a (disease, year) key, whatever the store holds: the one
    [INSERT ... ON CONFLICT DO UPDATE] never proposes a row twice. *)
Theorem all_rows_keys_distinct :
  forall ExponentialSmoothing horizon db rows,
    all_rows ExponentialSmoothing horizon db = Ok rows ->
    NoDup (map forecast_key rows).
Proof.
  intros E h db rows H. apply (all_rows_keys_NoDup E h db rows H).
Qed.

Lemma all_rows_keys_distinct_witness :
  exists rows,
    all_rows linear_fit 3 mixed_store = Ok rows
    /\ map forecast_key rows
       = [("Cholera", 2022); ("Cholera", 2023); ("Cholera", 2024);
          ("Measles", 2023); ("Measles", 2024); ("Measles", 2025)]%string
    /\ NoDup (map forecast_key rows).
Proof.
  eexists. split; [ vm_compute; reflexivity |].
  split; [ reflexivity |].
  apply (all_rows_keys_distinct linear_fit 3 mixed_store).
  vm_compute. reflexivity.
Defined.

(** ** [write_forecasts] *)

Lemma same_forecast_key_spec (x r : Forecast) :
  Sql.same_forecast_key x r = true <-> forecast_key x = forecast_key r.
Proof.
  unfold Sql.same_forecast_key, forecast_key.
  rewrite andb_true_iff, String.eqb_eq, Z.eqb_eq.
  split; [ intros [-> ->]; reflexivity | intros E; injection E; auto ].
Qed.

Lemma same_forecast_key_neq (x r : Forecast) :
  Sql.same_forecast_key x r = false <-> forecast_key x <> forecast_key r.
Proof.
  rewrite <- same_forecast_key_spec.
  destruct (Sql.same_forecast_key x r); split; congruence.
Qed.

Lemma upsert_one_keys (t : list Forecast) (r : Forecast) :
  map forecast_key (Sql.upsert_one t r)
  = if existsb (fun x => Sql.same_forecast_key x r) t
    then map forecast_key t
    else map forecast_key t ++ [forecast_key r].
Proof.
  induction t as [| x t IH]; [ reflexivity |].
  cbn [Sql.upsert_one existsb].
  destruct (Sql.same_forecast_key x r) eqn:Ek; cbn [orb map].
  - apply same_forecast_key_spec in Ek. rewrite Ek. reflexivity.
  - rewrite IH. destruct (existsb _ t); reflexivity.
Qed.

Lemma upsert_one_NoDup (t : list Forecast) (r : Forecast) :
  NoDup (map forecast_key t) -> NoDup (map forecast_key (Sql.upsert_one t r)).
Proof.
  intros Hnd. rewrite upsert_one_keys.
  destruct (existsb (fun x => Sql.same_forecast_key x r) t) eqn:Ex; [ exact Hnd |].
  apply NoDup_app; [ exact Hnd | repeat constructor; intros [] | ].
  intros k Hk [<- | []].
  apply in_map_iff in Hk. destruct Hk as (x & Ek & Hx).
  assert (Hex : existsb (fun x => Sql.same_forecast_key x r) t = true).
  { apply existsb_exists. exists x. split; [ exact Hx |].
    apply same_forecast_key_spec. exact Ek. }
  congruence.
Qed.

Lemma upsert_one_In (t : list Forecast) (r x : Forecast) :
  NoDup (map forecast_key t) ->
  In x (Sql.upsert_one t r)
  <-> x = r \/ (In x t /\ forecast_key x <> forecast_key r).
Proof.
  induction t as [| y t IH]; intros Hnd.
  - simpl. split; [ intros [-> | []]; left; reflexivity | ].
    intros [-> | [[] _]]. left. reflexivity.
  - inversion Hnd as [| ? ? Hy Hnd']; subst.
    cbn [Sql.upsert_one]. destruct (Sql.same_forecast_key y r) eqn:Ek.
    + apply same_forecast_key_spec in Ek.
      assert (Ht : forall z, In z t -> forecast_key z <> forecast_key r).
      { intros z Hz E. apply Hy. rewrite Ek, <- E. apply in_map. exact Hz. }
      split.
      * intros [<- | Hx]; [ left; reflexivity |].
        right. split; [ right; exact Hx | apply Ht; exact Hx ].
      * intros [-> | [[<- | Hx] Hne]]; [ left; reflexivity | contradiction | ].
        right. exact Hx.
    + apply same_forecast_key_neq in Ek. cbn [In]. rewrite (IH Hnd').
      split.
      * intros [<- | [-> | [Hx Hne]]]; [ right; split; [ left; reflexivity | exact Ek ]
                                       | left; reflexivity
                                       | right; split; [ right; exact Hx | exact Hne ] ].
      * intros [-> | [[<- | Hx] Hne]]; [ right; left; reflexivity
                                       | left; reflexivity
                                       | right; right; split; assumption ].
Qed.

Lemma upsert_NoDup (rows : list Forecast) : forall t,
  NoDup (map forecast_key t) -> NoDup (map forecast_key (Sql.upsert t rows)).
Proof.
  unfold Sql.upsert. induction rows as [| r rows IH]; intros t Hnd; [ exact Hnd |].
  simpl. apply IH, upsert_one_NoDup, Hnd.
Qed.

Lemma upsert_In (rows : list Forecast) : forall t x,
  NoDup (map forecast_key t) -> NoDup (map forecast_key rows) ->
  In x (Sql.upsert t rows)
  <-> In x rows \/ (In x t /\ ~ In (forecast_key x) (map forecast_key rows)).
Proof.
  unfold Sql.upsert. induction rows as [| r rows IH]; intros t x Hnd Hrows.
  - simpl. tauto.
  - inversion Hrows as [| ? ? Hr Hrows']; subst.
    cbn [fold_left]. rewrite (IH _ x (upsert_one_NoDup t r Hnd) Hrows').
    rewrite (upsert_one_In t r x Hnd). cbn [map In].
    split.
    + intros [Hx | [[-> | [Hx Hne]] Hnot]].
      * left. right. exact Hx.
      * left. left. reflexivity.
      * right. split; [ exact Hx |]. intros [E | Hin]; [ congruence | contradiction ].
    + intros [[<- | Hx] | [Hx Hnot]].
      * right. split; [ left; reflexivity | exact Hr ].
      * left. exact Hx.
      * right. split; [ | intros Hin; apply Hnot; right; exact Hin ].
        right. split; [ exact Hx |]. intros E. apply Hnot. left. symmetry. exact E.
Qed.

Lemma upsert_one_present (t : list Forecast) (r : Forecast) :
  NoDup (map forecast_key t) -> In r t -> Sql.upsert_one t r = t.
Proof.
  induction t as [| x t IH]; intros Hnd Hin; [ contradiction |].
  inversion Hnd as [| ? ? Hx Hnd']; subst.
  cbn [Sql.upsert_one]. destruct (Sql.same_forecast_key x r) eqn:Ek.
  - apply same_forecast_key_spec in Ek. destruct Hin as [-> | Hin]; [ reflexivity |].
    exfalso. apply Hx. rewrite Ek. apply in_map. exact Hin.
  - apply same_forecast_key_neq in Ek. destruct Hin as [-> | Hin]; [ congruence |].
    f_equal. apply IH; assumption.
Qed.

Lemma upsert_present (rows : list Forecast) (t : list Forecast) :
  NoDup (map forecast_key t) -> (forall r, In r rows -> In r t) ->
  Sql.upsert t rows = t.
Proof.
  unfold Sql.upsert. induction rows as [| r rows IH]; intros Hnd Hin; [ reflexivity |].
  cbn [fold_left]. rewrite (upsert_one_present t r Hnd) by (apply Hin; left; reflexivity).
  apply IH; [ exact Hnd |]. intros r' Hr'. apply Hin. right. exact Hr'.
Qed.

Lemma existsb_same_forecast_key (x : Forecast) (rows : list Forecast) :
  existsb (Sql.same_forecast_key x) rows = true
  <-> In (forecast_key x) (map forecast_key rows).
Proof.
  rewrite existsb_exists, in_map_iff.
  split; intros (r & H1 & H2); exists r.
  - split; [ symmetry; apply same_forecast_key_spec; exact H2 | exact H1 ].
  - split; [ exact H2 | apply same_forecast_key_spec; symmetry; exact H1 ].
Qed.

(** X11. [write_forecasts] is last-write-wins on (disease, year): over a
    table and a batch that each have one row per key, the table afterwards
    has one row per key, and holds exactly the rows of the batch together
    with the earlier rows whose key the batch does not mention.  So a row
    is overwritten, never duplicated, forecasts for other years or diseases
    are never deleted, and the other two tables are left alone. *)
Theorem write_forecasts_upserts :
  forall db rows,
    NoDup (map forecast_key (disease_forecasts db)) ->
    NoDup (map forecast_key rows) ->
    NoDup (map forecast_key (disease_forecasts (write_forecasts db rows)))
    /\ (forall x,
           In x (disease_forecasts (write_forecasts db rows))
           <-> In x rows
               \/ (In x (disease_forecasts db)
                   /\ ~ In (forecast_key x) (map forecast_key rows)))
    /\ Py.len (disease_forecasts (write_forecasts db rows))
       = Py.len rows
         + Py.len (filter (fun x => negb (existsb (Sql.same_forecast_key x) rows))
                          (disease_forecasts db))
    /\ disease_cases_yearly (write_forecasts db rows) = disease_cases_yearly db
    /\ kenya_outbreaks_2007_2022 (write_forecasts db rows)
       = kenya_outbreaks_2007_2022 db.
Proof.
  intros db rows Ht Hrows. cbn [write_forecasts disease_forecasts
                                 disease_cases_yearly kenya_outbreaks_2007_2022].
  set (t := disease_forecasts db) in *.
  pose proof (upsert_NoDup rows t Ht) as Hnd.
  pose proof (fun x => upsert_In rows t x Ht Hrows) as Hin.
  split; [ exact Hnd |]. split; [ exact Hin |]. split; [ | split; reflexivity ].
  set (kept := filter (fun x => negb (existsb (Sql.same_forecast_key x) rows)) t).
  assert (Hperm : Permutation (Sql.upsert t rows) (rows ++ kept)).
  { apply NoDup_Permutation.
    - apply (NoDup_map_inv forecast_key). exact Hnd.
    - apply NoDup_app.
      + apply (NoDup_map_inv forecast_key). exact Hrows.
      + apply NoDup_filter. apply (NoDup_map_inv forecast_key). exact Ht.
      + intros x Hx Hk. apply filter_In in Hk. destruct Hk as [_ Hk].
        apply negb_true_iff in Hk.
        assert (Hex : existsb (Sql.same_forecast_key x) rows = true)
          by (apply existsb_same_forecast_key, in_map; exact Hx).
        congruence.
    - intros x. rewrite Hin, in_app_iff. unfold kept. rewrite filter_In.
      rewrite negb_true_iff, <- not_true_iff_false, existsb_same_forecast_key.
      tauto. }
  unfold Py.len. rewrite (Permutation_length Hperm), length_app. lia.
Qed.

Lemma write_forecasts_upserts_witness :
  map forecast_key
      (disease_forecasts
         (write_forecasts
            {| kenya_outbreaks_2007_2022 := []; disease_cases_yearly := [];
               disease_forecasts :=
                 [ {| fc_disease := "Cholera"; fc_year := 2023;
                      fc_forecast_cases := 1; fc_lower_ci := 1; fc_upper_ci := 1;
                      fc_method := "naive-mean"; fc_data_source := "synthetic" |};
                   {| fc_disease := "Cholera"; fc_year := 2022;
                      fc_forecast_cases := 7; fc_lower_ci := 7; fc_upper_ci := 7;
                      fc_method := "naive-mean"; fc_data_source := "synthetic" |} ] |}
            [ {| fc_disease := "Cholera"; fc_year := 2023;
                 fc_forecast_cases := 2; fc_lower_ci := 2; fc_upper_ci := 2;
                 fc_method := "naive-mean"; fc_data_source := "real" |};
              {| fc_disease := "Cholera"; fc_year := 2024;
                 fc_forecast_cases := 3; fc_lower_ci := 3; fc_upper_ci := 3;
                 fc_method := "naive-mean"; fc_data_source := "real" |} ]))
  = [("Cholera", 2023); ("Cholera", 2022); ("Cholera", 2024)]%string
  /\ NoDup [("Cholera"%string, 2023); ("Cholera"%string, 2022); ("Cholera"%string, 2024)].
Proof.
  split; [ reflexivity |].
  refine (proj1 (write_forecasts_upserts
            {| kenya_outbreaks_2007_2022 := []; disease_cases_yearly := [];
               disease_forecasts :=
                 [ {| fc_disease := "Cholera"; fc_year := 2023;
                      fc_forecast_cases := 1; fc_lower_ci := 1; fc_upper_ci := 1;
                      fc_method := "naive-mean"; fc_data_source := "synthetic" |};
                   {| fc_disease := "Cholera"; fc_year := 2022;
                      fc_forecast_cases := 7; fc_lower_ci := 7; fc_upper_ci := 7;
                      fc_method := "naive-mean"; fc_data_source := "synthetic" |} ] |}
            [ {| fc_disease := "Cholera"; fc_year := 2023;
                 fc_forecast_cases := 2; fc_lower_ci := 2; fc_upper_ci := 2;
                 fc_method := "naive-mean"; fc_data_source := "real" |};
              {| fc_disease := "Cholera"; fc_year := 2024;
                 fc_forecast_cases := 3; fc_lower_ci := 3; fc_upper_ci := 3;
                 fc_method := "naive-mean"; fc_data_source := "real" |} ] _ _)).
  - repeat constructor; simpl; intuition discriminate.
  - repeat constructor; simpl; intuition discriminate.
Defined.

(** ** Running [main] again *)

Lemma build_after_write bit_generator (db : Database) (rows : list Forecast) :
  build_synthetic_if_empty bit_generator db = Ok db ->
  build_synthetic_if_empty bit_generator (write_forecasts db rows)
  = Ok (write_forecasts db rows).
Proof.
  intros Hidem.
  pose proof (build_synthetic_reads bit_generator (write_forecasts db rows) db
                eq_refl eq_refl) as Hr.
  rewrite Hidem in Hr.
  destruct (build_synthetic_if_empty bit_generator (write_forecasts db rows))
    as [d1 |] eqn:E1; [ | contradiction ].
  destruct Hr as [Hy Ha].
  destruct (build_synthetic_keeps bit_generator _ _ E1) as [_ Hf].
  destruct d1 as [a1 y1 f1]. unfold write_forecasts in *. simpl in *.
  subst. reflexivity.
Qed.

(** X12. [main] is idempotent: run again on the database it has just
    produced (the forecast table holding one row per key when the first
    run starts), it synthesizes nothing, computes the same batch and
    overwrites each forecast with itself, so the database does not change. *)
Theorem main_twice_changes_nothing :
  forall bit_generator ExponentialSmoothing horizon db db1,
    NoDup (map forecast_key (disease_forecasts db)) ->
    run bit_generator ExponentialSmoothing horizon db = Ok db1 ->
    run bit_generator ExponentialSmoothing horizon db1 = Ok db1.
Proof.
  intros g E h db db1 Hnd Hrun. unfold run in Hrun.
  apply bind_ok in Hrun. destruct Hrun as (dA & HA & Hrun).
  apply bind_ok in Hrun. destruct Hrun as (rows & Hrows & Hrun).
  injection Hrun as <-.
  pose proof (build_synthetic_idempotent g _ _ HA) as Hidem.
  destruct (build_synthetic_keeps g _ _ HA) as [_ Hf].
  unfold run. rewrite (build_after_write g dA rows Hidem). cbn [bind].
  rewrite (all_rows_reads E h (write_forecasts dA rows) dA eq_refl), Hrows.
  cbn [bind]. f_equal.
  pose proof (all_rows_keys_NoDup E h dA rows Hrows) as Hkeys.
  assert (Ht : NoDup (map forecast_key (disease_forecasts dA))) by (rewrite Hf; exact Hnd).
  unfold write_forecasts. cbn [disease_forecasts kenya_outbreaks_2007_2022
                                disease_cases_yearly].
  f_equal. apply upsert_present.
  - apply upsert_NoDup. exact Ht.
  - intros r Hr. apply (upsert_In rows _ r Ht Hkeys). left. exact Hr.
Qed.

Lemma main_twice_changes_nothing_witness :
  exists db1,
    run sample_noise linear_fit 3 fresh_store = Ok db1
    /\ run sample_noise linear_fit 3 db1 = Ok db1.
Proof.
  destruct (run sample_noise linear_fit 3 fresh_store) as [db1 | e] eqn:E1.
  - exists db1. split; [ reflexivity |].
    apply (main_twice_changes_nothing sample_noise linear_fit 3 fresh_store db1);
      [ constructor | exact E1 ].
  - exfalso. revert E1. vm_compute. discriminate.
Defined.

(** ** The method tag and the alignment of the rows *)

(** X14. The method tag tells the state the series was in: [naive-mean]
    exactly when the series has fewer than 4 points or a zero sum;
    [holt-winters-additive] exactly when the model was tried, the fit
    succeeded and the forecast of the fitted model returned; and a tag that
    starts with [fallback-mean (] exactly when the model was tried and the
    fit, or the forecast of the fitted model, raised. *)
Theorem method_tag_tells_state :
  forall ExponentialSmoothing series_df horizon fc lo hi method,
    fit_and_forecast ExponentialSmoothing series_df horizon = Ok (fc, lo, hi, method) ->
    (method = "naive-mean"%string
     <-> (Py.len series_df < 4
          \/ (series_sum (to_series series_df) =? 0)%float = true))
    /\ (method = "holt-winters-additive"%string
        <-> (4 <= Py.len series_df
             /\ (series_sum (to_series series_df) =? 0)%float = false
             /\ exists model values,
                 ExponentialSmoothing (to_series series_df) = Ok model
                 /\ forecast model horizon = Ok values))
    /\ (String.prefix "fallback-mean (" method = true
        <-> (4 <= Py.len series_df
             /\ (series_sum (to_series series_df) =? 0)%float = false
             /\ ((exists e, ExponentialSmoothing (to_series series_df) = Raise e)
                 \/ (exists model e,
                        ExponentialSmoothing (to_series series_df) = Ok model
                        /\ forecast model horizon = Raise e)))).
Proof.
  intros E df h fc lo hi method H. unfold fit_and_forecast in H.
  rewrite to_series_len in H.
  set (c := (Py.len df <? 4) || (series_sum (to_series df) =? 0)%float) in *.
  assert (Hyes : c = true
                 <-> (Py.len df < 4 \/ (series_sum (to_series df) =? 0)%float = true)).
  { unfold c. rewrite orb_true_iff, Z.ltb_lt. reflexivity. }
  assert (Hno : c = false
                <-> (4 <= Py.len df /\ (series_sum (to_series df) =? 0)%float = false)).
  { unfold c. rewrite orb_false_iff, Z.ltb_ge. reflexivity. }
  assert (Hfb : forall e, String.prefix "fallback-mean (" ("fallback-mean (" ++ str e ++ ")")
                          = true).
  { intros e. cbn [append String.prefix].
    repeat match goal with
           | |- context [Ascii.ascii_dec ?a ?b] =>
               destruct (Ascii.ascii_dec a b); [ | congruence ]
           end.
    destruct (str e ++ ")")%string; reflexivity. }
  destruct c eqn:Ec.
  - injection H as <- <- <- <-.
    split; [ | split ].
    + split; [ intros _; apply Hyes; reflexivity | reflexivity ].
    + split; [ discriminate |].
      intros (H1 & H2 & _). assert (true = false) by (apply Hno; auto). discriminate.
    + split; [ discriminate |].
      intros (H1 & H2 & _). assert (true = false) by (apply Hno; auto). discriminate.
  - destruct (proj1 Hno eq_refl) as [Hlen Hsum].
    destruct (E (to_series df)) as [model | e] eqn:Efit; cbn [try_except bind] in H.
    + destruct (forecast model h) as [values | e] eqn:Efc; cbn [try_except bind] in H;
        injection H as <- <- <- <-.
      * split; [ | split ].
        -- split; [ discriminate |].
           intros Hy. apply Hyes in Hy. discriminate.
        -- split; [ intros _; eauto 6 | reflexivity ].
        -- split; [ discriminate |].
           intros (_ & _ & [[e He] | (m & e & Hm & He)]); [ discriminate |].
           injection Hm as <-. rewrite Efc in He. discriminate.
      * split; [ | split ].
        -- split; [ discriminate |].
           intros Hy. apply Hyes in Hy. discriminate.
        -- split; [ discriminate |].
           intros (_ & _ & m & values & Hm & Hv).
           injection Hm as <-. rewrite Efc in Hv. discriminate.
        -- split; [ intros _; eauto 8 | intros _; apply Hfb ].
    + injection H as <- <- <- <-.
      split; [ | split ].
      * split; [ discriminate |].
        intros Hy. apply Hyes in Hy. discriminate.
      * split; [ discriminate |].
        intros (_ & _ & m & values & Hm & _). discriminate.
      * split; [ intros _; eauto 8 | intros _; apply Hfb ].
Qed.

Lemma method_tag_tells_state_witness :
  String.prefix "fallback-mean (" "fallback-mean (did not converge)" = true
  <-> (4 <= Py.len four_points
       /\ (series_sum (to_series four_points) =? 0)%float = false
       /\ ((exists e, failing_fit "did not converge" (to_series four_points) = Raise e)
           \/ (exists model e,
                  failing_fit "did not converge" (to_series four_points) = Ok model
                  /\ forecast model 3 = Raise e))).
Proof.
  refine (proj2 (proj2 (method_tag_tells_state (failing_fit "did not converge")
                          four_points 3
                          [130; 130; 130]%float [130; 130; 130]%float
                          [130; 130; 130]%float
                          "fallback-mean (did not converge)" _))).
  vm_compute. reflexivity.
Defined.

Lemma skipn_nth_error {A} (l : list A) : forall k p,
  nth_error l k = Some p -> skipn k l = p :: skipn (S k) l.
Proof.
  induction l as [| a l IH]; intros [| k] p H; simpl in H; try discriminate.
  - injection H as ->. reflexivity.
  - change (skipn (S k) (a :: l)) with (skipn k l).
    change (skipn (S (S k)) (a :: l)) with (skipn (S k) l).
    apply IH. exact H.
Qed.

Lemma item_skipn (a : list float) (i : nat) (x : float) :
  item a i = Ok x -> skipn i a = x :: skipn (S i) a.
Proof.
  unfold item. destruct (nth_error a i) eqn:E; [ | discriminate ].
  intros H. injection H as <-. apply skipn_nth_error. exact E.
Qed.

(** X15. Forecast values and forecast years stay aligned: the rows that
    [main] builds for an entity carry, in order, the point, lower and upper
    values of the three arrays [fit_and_forecast] returned, all with its
    method tag, so the i-th year after the last observed one gets the i-th
    forecast. *)
Theorem forecast_rows_aligned :
  forall ExponentialSmoothing horizon data_source disease df rows fc lo hi method,
    forecast_rows ExponentialSmoothing horizon data_source disease df = Ok rows ->
    fit_and_forecast ExponentialSmoothing df horizon = Ok (fc, lo, hi, method) ->
    map fc_forecast_cases rows = fc
    /\ map fc_lower_ci rows = lo
    /\ map fc_upper_ci rows = hi
    /\ Forall (fun r => fc_method r = method) rows.
Proof.
  intros E h src d df rows fc lo hi method Hrows Hfit.
  destruct (fit_and_forecast_ok E df h)
    as (fc' & lo' & hi' & m' & Hfit' & Hfc & Hlo & Hhi).
  rewrite Hfit in Hfit'. injection Hfit' as <- <- <- <-.
  unfold forecast_rows in Hrows. rewrite Hfit in Hrows. cbn [bind] in Hrows.
  apply bind_ok in Hrows. destruct Hrows as (ymax & _ & Hrows).
  set (years := Py.range (ymax + 1) (ymax + 1 + h)) in *.
  assert (Hlen : List.length years = Z.to_nat h).
  { unfold years. rewrite range_length. f_equal. lia. }
  unfold enumerate in Hrows.
  assert (Hgen : forall ys k rs,
             mapM (fun '(i, y) =>
                     p <- item fc i ;; l <- item lo i ;; u <- item hi i ;;
                     Ok {| fc_disease := d; fc_year := y;
                           fc_forecast_cases := p; fc_lower_ci := l;
                           fc_upper_ci := u; fc_method := method;
                           fc_data_source := src |})
                  (combine (seq k (List.length ys)) ys) = Ok rs ->
             (k + List.length ys = Z.to_nat h)%nat ->
             map fc_forecast_cases rs = skipn k fc
             /\ map fc_lower_ci rs = skipn k lo
             /\ map fc_upper_ci rs = skipn k hi
             /\ Forall (fun r => fc_method r = method) rs).
  { induction ys as [| y ys IH]; intros k rs Hm Hk.
    - simpl in Hm. injection Hm as <-. simpl in Hk.
      rewrite !skipn_all2 by lia. repeat split. constructor.
    - cbn [List.length seq combine mapM] in Hm.
      apply bind_ok in Hm. destruct Hm as (r & Hr & Hm).
      apply bind_ok in Hm. destruct Hm as (rs' & Hrs' & Hm). injection Hm as <-.
      apply bind_ok in Hr. destruct Hr as (p & Hp & Hr).
      apply bind_ok in Hr. destruct Hr as (l & Hl & Hr).
      apply bind_ok in Hr. destruct Hr as (u & Hu & Hr). injection Hr as <-.
      destruct (IH (S k) rs' Hrs' ltac:(simpl in Hk; lia)) as (E1 & E2 & E3 & E4).
      cbn [map fc_forecast_cases fc_lower_ci fc_upper_ci].
      rewrite E1, E2, E3.
      rewrite (item_skipn fc k p Hp), (item_skipn lo k l Hl), (item_skipn hi k u Hu).
      repeat split. constructor; [ reflexivity | exact E4 ]. }
  apply (Hgen years 0%nat rows Hrows). lia.
Qed.

Lemma forecast_rows_aligned_witness :
  exists rows,
    forecast_rows linear_fit 3 "synthetic" "Cholera"
                  [(2019, 100); (2020, 120); (2021, 140); (2022, 160)] = Ok rows
    /\ map fc_year rows = [2023; 2024; 2025]
    /\ map fc_forecast_cases rows = [180; 200; 220]%float.
Proof.
  eexists. split; [ vm_compute; reflexivity |].
  split; [ reflexivity |].
  refine (proj1 (forecast_rows_aligned linear_fit 3 "synthetic" "Cholera"
                   [(2019, 100); (2020, 120); (2021, 140); (2022, 160)] _
                   [180; 200; 220]%float [180; 200; 220]%float [180; 200; 220]%float
                   "holt-winters-additive" _ _));
    vm_compute; reflexivity.
Defined.

(** ** Which diseases and years a run forecasts *)

Lemma fetch_timeseries_names_In (db : Database) (d : string) :
  In d (map fst (fst (fetch_timeseries db)))
  <-> In d (map yc_disease (disease_cases_yearly db)).
Proof.
  unfold fetch_timeseries. cbn [fst]. rewrite groupby_disease_names, nodup_In.
  assert (Hperm : Permutation (disease_cases_yearly db)
                              (Sql.select_yearly (disease_cases_yearly db)))
    by apply order_by_perm.
  split; apply Permutation_in, Permutation_map;
    [ apply Permutation_sym |]; exact Hperm.
Qed.

Lemma Forall2_In_r {A B} (R : A -> B -> Prop) (l : list A) (l' : list B) (b : B) :
  Forall2 R l l' -> In b l' -> exists a, In a l /\ R a b.
Proof.
  induction 1 as [| x y l l' Hxy _ IH]; intros Hin; [ contradiction |].
  destruct Hin as [-> | Hin].
  - exists x. split; [ left; reflexivity | exact Hxy ].
  - destruct (IH Hin) as (a & Ha & Hr). exists a. split; [ right; exact Ha | exact Hr ].
Qed.

Lemma Forall2_and {A B} (R S : A -> B -> Prop) (l : list A) (l' : list B) :
  Forall2 R l l' -> Forall2 S l l' -> Forall2 (fun a b => R a b /\ S a b) l l'.
Proof.
  induction 1 as [| x y l l' Hxy _ IH]; intros H2; [ constructor |].
  inversion H2; subst. constructor; [ split; assumption | apply IH; assumption ].
Qed.

(** X16. A batch has forecasts for exactly the diseases that have a row in
    the yearly store it reads.  So once the store holds any row and the
    synthesis is skipped, an aggregate without yearly rows gets no
    forecast at all. *)
Theorem forecasts_only_for_stored_diseases :
  forall ExponentialSmoothing horizon db rows,
    1 <= horizon ->
    all_rows ExponentialSmoothing horizon db = Ok rows ->
    forall d, In d (map fc_disease rows)
              <-> In d (map yc_disease (disease_cases_yearly db)).
Proof.
  intros E h db rows Hh H d.
  destruct (all_rows_structure E h db rows H) as (rowss & -> & Hst).
  rewrite <- fetch_timeseries_names_In. split.
  - intros Hin. apply in_map_iff in Hin. destruct Hin as (r & <- & Hr).
    apply in_concat in Hr. destruct Hr as (rs & Hrs & Hr).
    destruct (Forall2_In_r _ _ _ _ Hst Hrs) as (g & Hg & _ & Hall & _).
    rewrite Forall_forall in Hall. rewrite (Hall r Hr). apply in_map. exact Hg.
  - intros Hin. apply in_map_iff in Hin. destruct Hin as (g & <- & Hg).
    destruct (Forall2_In_l _ _ _ _ Hst Hg) as (rs & Hrs & _ & Hall & _ & Hlen).
    destruct rs as [| r rs]; [ simpl in Hlen; lia |].
    inversion Hall as [| ? ? Hr _]; subst.
    apply in_map_iff. exists r. split; [ exact Hr |].
    apply in_concat. exists (r :: rs). split; [ exact Hrs | left; reflexivity ].
Qed.

Lemma forecasts_only_for_stored_diseases_witness :
  In "Measles"%string
     (map fc_disease
          (match all_rows linear_fit 3 mixed_store with Ok rows => rows | Raise _ => [] end))
  <-> In "Measles"%string (map yc_disease (disease_cases_yearly mixed_store)).
Proof.
  destruct (all_rows linear_fit 3 mixed_store) as [rows | e] eqn:E.
  - apply (forecasts_only_for_stored_diseases linear_fit 3 mixed_store rows);
      [ lia | exact E ].
  - exfalso. revert E. vm_compute. discriminate.
Defined.

(** After the synthetic fill the last observed year of every entity is the
    last of [YEARS]. *)
Lemma synthetic_group_years bit_generator ExponentialSmoothing (db db1 : Database) :
  NoDup (map ob_disease (kenya_outbreaks_2007_2022 db)) ->
  disease_cases_yearly db = [] ->
  build_synthetic_if_empty bit_generator db = Ok db1 ->
  forall data_source disease df rs,
    In (disease, df) (fst (fetch_timeseries db1)) ->
    forecast_rows ExponentialSmoothing FORECAST_HORIZON data_source disease df = Ok rs ->
    In disease (map ob_disease (kenya_outbreaks_2007_2022 db))
    /\ map fc_year rs = [2023; 2024; 2025].
Proof.
  intros Hnd Hempty Hb src d df rs Hin Hrs.
  destruct (build_synthetic_store bit_generator db db1 Hnd Hempty Hb) as [Hrows _].
  destruct (synthesize_all_shape bit_generator _ _ _ _ Hrows) as [_ Hall].
  assert (Hd : In d (map yc_disease (disease_cases_yearly db1))).
  { apply fetch_timeseries_names_In. apply in_map_iff.
    exists (d, df). split; [ reflexivity | exact Hin ]. }
  assert (Ha : In d (map ob_disease (kenya_outbreaks_2007_2022 db))).
  { apply in_map_iff in Hd. destruct Hd as (r & <- & Hr).
    rewrite Forall_forall in Hall. destruct (Hall r Hr) as (_ & Hname & _).
    eapply Permutation_in; [ apply Permutation_sym, select_totals_names | exact Hname ]. }
  split; [ exact Ha |].
  apply in_map_iff in Ha. destruct Ha as (a & Hname & Hain).
  destruct (build_synthetic_sums bit_generator db db1 Hnd Hempty Hb a Hain) as [Hyears _].
  rewrite Hname in Hyears.
  assert (Hdf : df = series_of d (Sql.select_yearly (disease_cases_yearly db1))).
  { pose proof (groupby_disease_series (Sql.select_yearly (disease_cases_yearly db1)))
      as Hs.
    rewrite Forall_forall in Hs. apply (Hs (d, df)). exact Hin. }
  assert (Hperm : Permutation (map fst df) YEARS).
  { rewrite <- Hyears, Hdf. unfold series_of.
    apply Permutation_map, Permutation_map, filter_perm, Permutation_sym, order_by_perm. }
  assert (Hne : df <> []).
  { intros ->. apply Permutation_nil in Hperm. discriminate. }
  destruct (forecast_rows_spec ExponentialSmoothing FORECAST_HORIZON src d df Hne)
    as (rs' & ymax & fc & lo & hi & m & Hrs' & Hy & _ & Hys & _).
  assert (rs' = rs) as -> by congruence.
  destruct (year_max_spec df Hne) as (ymax' & Hy' & Hmax & Hle).
  assert (ymax' = ymax) as -> by congruence.
  assert (Hin22 : In ymax YEARS) by (eapply Permutation_in; eassumption).
  assert (Hle22 : 2022 <= ymax).
  { rewrite Forall_forall in Hle. apply Hle.
    eapply Permutation_in; [ apply Permutation_sym; exact Hperm |].
    vm_compute. tauto. }
  assert (ymax = 2022).
  { unfold YEARS, Py.range in Hin22. simpl in Hin22. lia. }
  subst ymax. rewrite Hys. reflexivity.
Qed.

(** X17. A run that starts from an empty yearly store forecasts 2023, 2024
    and 2025, in this order, for every disease of the aggregates (one row
    per disease assumed), and writes no row for any other year: the
    synthetic series all end with the last of [YEARS]. *)
Theorem synthetic_run_forecast_years :
  forall bit_generator ExponentialSmoothing db db1 rows,
    NoDup (map ob_disease (kenya_outbreaks_2007_2022 db)) ->
    disease_cases_yearly db = [] ->
    build_synthetic_if_empty bit_generator db = Ok db1 ->
    all_rows ExponentialSmoothing FORECAST_HORIZON db1 = Ok rows ->
    Forall (fun r => In (fc_year r) [2023; 2024; 2025]
                     /\ In (fc_disease r) (map ob_disease (kenya_outbreaks_2007_2022 db)))
           rows
    /\ forall a, In a (kenya_outbreaks_2007_2022 db) ->
                 map fc_year (filter (fun r => (fc_disease r =? ob_disease a)%string) rows)
                 = [2023; 2024; 2025].
Proof.
  intros g E db db1 rows Hnd Hempty Hb H.
  destruct (all_rows_structure E FORECAST_HORIZON db1 rows H) as (rowss & -> & Hst).
  pose proof (synthetic_group_years g E db db1 Hnd Hempty Hb
                (snd (fetch_timeseries db1))) as Hgroup.
  split.
  - apply Forall_forall. intros r Hr.
    apply in_concat in Hr. destruct Hr as (rs & Hrs & Hr).
    destruct (Forall2_In_r _ _ _ _ Hst Hrs) as ([d df] & Hg & Hfr & Hall & _).
    cbn [fst snd] in *.
    destruct (Hgroup d df rs Hg Hfr) as [Ha Hys].
    rewrite Forall_forall in Hall. rewrite (Hall r Hr).
    split; [ | exact Ha ].
    rewrite <- Hys. apply in_map. exact Hr.
  - intros a Ha.
    assert (Hd : In (ob_disease a) (map fst (fst (fetch_timeseries db1)))).
    { apply fetch_timeseries_names_In.
      destruct (build_synthetic_sums g db db1 Hnd Hempty Hb a Ha) as [Hyears _].
      destruct (series_of (ob_disease a) (disease_cases_yearly db1))
        as [| [y c] l] eqn:Es; [ discriminate |].
      assert (Hin : In (y, c) (series_of (ob_disease a) (disease_cases_yearly db1)))
        by (rewrite Es; left; reflexivity).
      unfold series_of in Hin. apply in_map_iff in Hin.
      destruct Hin as (r & _ & Hr). apply filter_In in Hr. destruct Hr as [Hr Hk].
      apply String.eqb_eq in Hk. apply in_map_iff. exists r. split; assumption. }
    apply in_map_iff in Hd. destruct Hd as ([d df] & Hname & Hg).
    cbn [fst] in Hname. subst d.
    pose proof (concat_own_entity (entity_rows E FORECAST_HORIZON (snd (fetch_timeseries db1)))
                  ltac:(intros g0 rs0 Hg0; apply Hg0) _ _ Hst
                  (fetch_timeseries_names_NoDup db1)) as Hown.
    destruct (Forall2_In_l _ _ _ _ (Forall2_and _ _ _ _ Hst Hown) Hg)
      as (rs & _ & (Hfr & _) & Hfilter).
    cbn [fst snd] in *. rewrite Hfilter.
    apply (Hgroup (ob_disease a) df rs Hg Hfr).
Qed.

Lemma synthetic_run_forecast_years_witness :
  map fc_year
      (filter (fun r => (fc_disease r =? "Rabies")%string)
              (match all_rows linear_fit FORECAST_HORIZON filled_store with
               | Ok rows => rows
               | Raise _ => []
               end))
  = [2023; 2024; 2025].
Proof.
  destruct (all_rows linear_fit FORECAST_HORIZON filled_store) as [rows | e] eqn:E.
  - apply (proj2 (synthetic_run_forecast_years sample_noise linear_fit
                    fresh_store filled_store rows
                    ltac:(repeat constructor; simpl; intuition discriminate)
                    eq_refl ltac:(vm_compute; reflexivity) E)
             {| ob_disease := "Rabies"; ob_cases := 9 |}).
    left. reflexivity.
  - exfalso. revert E. vm_compute. discriminate.
Defined.

(** ** Where a negative count can be stored *)

Lemma combine_removelast {A B} (da : A) (db : B) (l : list A) : forall l' : list B,
  List.length l' = List.length l -> l <> [] ->
  combine l l' = combine (removelast l) (removelast l') ++ [(last l da, last l' db)].
Proof.
  induction l as [| a l IH]; intros [| b l'] Hlen Hne; simpl in Hlen; try congruence.
  destruct l as [| a' l]; destruct l' as [| b' l']; simpl in Hlen; try congruence.
  - reflexivity.
  - change (combine (a :: a' :: l) (b :: b' :: l'))
      with ((a, b) :: combine (a' :: l) (b' :: l')).
    rewrite (IH (b' :: l')) by (simpl; congruence || discriminate).
    reflexivity.
Qed.

Lemma synthetic_rows_nonneg_but_last (disease : string) (years yearly : list Z) :
  List.length yearly = List.length years ->
  Forall (fun c => 0 <= c) (removelast yearly) ->
  Forall (fun r => yc_year r <> last years 0 -> 0 <= yc_cases r)
         (synthetic_rows disease years yearly).
Proof.
  intros Hlen Hnn. unfold synthetic_rows. apply Forall_map, Forall_forall.
  intros [y c] Hin. cbn [yc_year yc_cases]. intros Hy.
  destruct years as [| y0 years]; [ contradiction |].
  rewrite (combine_removelast 0 0 (y0 :: years) yearly Hlen ltac:(discriminate)) in Hin.
  apply in_app_or in Hin. destruct Hin as [Hin | [E | []]].
  - apply in_combine_r in Hin. rewrite Forall_forall in Hnn. apply Hnn. exact Hin.
  - exfalso. apply Hy. injection E as E1 _. symmetry. exact E1.
Qed.

Lemma synthesize_all_nonneg_but_last bit_generator (years : list Z) :
  forall totals rng rows,
    synthesize_all bit_generator years totals rng = Ok rows ->
    Forall (fun r => yc_year r <> last years 0 -> 0 <= yc_cases r) rows.
Proof.
  induction totals as [| [d t] totals IH]; intros rng rows H; simpl in H.
  - injection H as <-. constructor.
  - apply bind_ok in H. destruct H as ([y0 rng'] & Hs & H).
    apply bind_ok in H. destruct H as (rest & Hrest & H). injection H as <-.
    destruct (synthesize_inv _ _ _ _ _ _ Hs)
      as (rounded & Hnn & _ & Hlen & _ & Hr & _).
    apply Forall_app. split; [ | apply (IH _ _ Hrest) ].
    apply synthetic_rows_nonneg_but_last; [ exact Hlen |].
    rewrite Hr. apply Forall_removelast. exact Hnn.
Qed.

Lemma insert_do_nothing_In (rows : list YearlyCase) : forall t r,
  In r (Sql.insert_do_nothing t rows) -> In r t \/ In r rows.
Proof.
  induction rows as [| x rows IH]; intros t r Hin; [ left; exact Hin |].
  cbn [Sql.insert_do_nothing] in Hin.
  destruct (existsb (Sql.same_key x) t).
  - destruct (IH t r Hin) as [H | H]; [ left; exact H | right; right; exact H ].
  - destruct (IH (t ++ [x]) r Hin) as [H | H]; [ | right; right; exact H ].
    apply in_app_or in H. destruct H as [H | [-> | []]];
      [ left; exact H | right; left; reflexivity ].
Qed.

(** X18. The synthetic fill stores a negative count only in a row of the
    last year: every row it writes for 2007 to 2021 has [cases >= 0],
    since the clamp at 0 comes before the drift correction and the
    correction touches the last year alone. *)
Theorem negative_counts_only_in_last_year :
  forall bit_generator db db',
    disease_cases_yearly db = [] ->
    build_synthetic_if_empty bit_generator db = Ok db' ->
    Forall (fun r => yc_year r <> 2022 -> 0 <= yc_cases r) (disease_cases_yearly db').
Proof.
  intros g db db' Hempty H. unfold build_synthetic_if_empty in H.
  rewrite Hempty in H. change (0 <? Py.len (@nil YearlyCase)) with false in H.
  cbv iota in H. apply bind_ok in H. destruct H as (rows & Hrows & H).
  injection H as <-. cbn [disease_cases_yearly].
  pose proof (synthesize_all_nonneg_but_last g YEARS _ _ _ Hrows) as Hall.
  change (last YEARS 0) with 2022 in Hall.
  rewrite Forall_forall in Hall. apply Forall_forall. intros r Hr.
  destruct (insert_do_nothing_In rows [] r Hr) as [[] | Hin].
  apply Hall. exact Hin.
Qed.

Lemma negative_counts_only_in_last_year_witness :
  Forall (fun r => yc_year r <> 2022 -> 0 <= yc_cases r)
         (disease_cases_yearly filled_store)
  /\ map snd (series_of "Rabies" (disease_cases_yearly filled_store))
     = [1; 1; 1; 1; 1; 1; 1; 1; 1; 1; 1; 1; 1; 1; 1; -6].
Proof.
  split; [ | reflexivity ].
  apply (negative_counts_only_in_last_year sample_noise fresh_store filled_store).
  - reflexivity.
  - vm_compute. reflexivity.
Defined.

(** ** The position of an entity in the batch *)

(** With one row per name, the rows stored for the [k]-th entity of the
    batch are the series that the synthesizer computes from its total once
    [k] blocks of variates are drawn. *)
Lemma synthesize_all_position bit_generator (years : list Z) :
  forall totals rng rows,
    synthesize_all bit_generator years totals rng = Ok rows ->
    NoDup (map fst totals) ->
    forall k disease total_cases,
      nth_error totals k = Some (disease, total_cases) ->
      exists yearly,
        synthesize bit_generator years total_cases (advance rng (k * List.length years))
        = Ok (yearly, advance rng (S k * List.length years))
        /\ series_of disease rows = combine years yearly.
Proof.
  induction totals as [| [d0 t0] totals IH]; intros rng rows H Hnd k d t Hk.
  - destruct k; discriminate.
  - simpl in H.
    apply bind_ok in H. destruct H as ([y0 rng'] & Hs & H).
    apply bind_ok in H. destruct H as (rest & Hrest & H). injection H as <-.
    inversion Hnd as [| ? ? Hd0 Hnd']; subst.
    destruct (synthesize_advances _ _ _ _ _ _ Hs) as [-> Hlen].
    rewrite series_of_app.
    destruct k as [| k]; simpl in Hk.
    + injection Hk as <- <-. exists y0.
      rewrite advance_0. simpl Nat.mul. rewrite Nat.add_0_r.
      split; [ exact Hs |].
      rewrite series_of_synthetic_rows, series_of_absent; [ apply app_nil_r |].
      intros Hin. apply Hd0. apply (synthesize_all_names _ _ _ _ _ Hrest). exact Hin.
    + assert (Hne : d0 <> d).
      { intros <-. apply Hd0. apply nth_error_In in Hk.
        apply in_map_iff. exists (d0, t). auto. }
      rewrite (series_of_other d d0) by assumption. cbn [app].
      destruct (IH _ _ Hrest Hnd' k d t Hk) as (yk & Ek & Hser).
      exists yk. rewrite !advance_advance in Ek.
      replace (S k * List.length years)%nat
        with (List.length years + k * List.length years)%nat by lia.
      replace (S (S k) * List.length years)%nat
        with (List.length years + S k * List.length years)%nat by lia.
      split; assumption.
Qed.

Lemma build_synthetic_position bit_generator (db db' : Database) :
  NoDup (map ob_disease (kenya_outbreaks_2007_2022 db)) ->
  disease_cases_yearly db = [] ->
  build_synthetic_if_empty bit_generator db = Ok db' ->
  forall k disease total_cases,
    nth_error (Sql.select_totals (kenya_outbreaks_2007_2022 db)) k
    = Some (disease, total_cases) ->
    exists yearly,
      synthesize bit_generator YEARS total_cases (advance (default_rng 42) (k * 16))
      = Ok (yearly, advance (default_rng 42) (S k * 16))
      /\ series_of disease (disease_cases_yearly db') = combine YEARS yearly.
Proof.
  intros Hnd Hempty Hb k d t Hk.
  destruct (build_synthetic_store bit_generator db db' Hnd Hempty Hb) as [Hrows _].
  assert (Hnames : NoDup (map fst (Sql.select_totals (kenya_outbreaks_2007_2022 db))))
    by (eapply Permutation_NoDup; [ apply select_totals_names | exact Hnd ]).
  apply (synthesize_all_position bit_generator YEARS _ _ _ Hrows Hnames k d t Hk).
Qed.

(** The query hands the aggregates over by descending total. *)
Lemma insert_sorted_descending (x : Outbreak) (l : list Outbreak) :
  StronglySorted (fun a b => ob_cases b <= ob_cases a) l ->
  StronglySorted (fun a b => ob_cases b <= ob_cases a)
                 (Sql.insert_sorted (fun a b => ob_cases b <=? ob_cases a) x l).
Proof.
  induction 1 as [| y l Hl IH Hy]; cbn [Sql.insert_sorted].
  - constructor; constructor.
  - destruct (Z.leb_spec (ob_cases y) (ob_cases x)) as [Hle | Hgt].
    + constructor; [ constructor; assumption |].
      constructor; [ exact Hle |].
      revert Hy. apply Forall_impl. intros z Hz. lia.
    + constructor; [ exact IH |].
      eapply Permutation_Forall; [ apply insert_sorted_perm |].
      constructor; [ lia | exact Hy ].
Qed.

Lemma select_totals_descending (t : list Outbreak) :
  StronglySorted (fun a b : string * Z => snd b <= snd a) (Sql.select_totals t).
Proof.
  unfold Sql.select_totals.
  assert (H : StronglySorted (fun a b => ob_cases b <= ob_cases a)
                (Sql.order_by (fun a b => ob_cases b <=? ob_cases a) t)).
  { induction t as [| x t IH]; [ constructor |].
    simpl. apply insert_sorted_descending. exact IH. }
  induction H as [| y l Hl IH Hy]; simpl; constructor; [ exact IH |].
  apply Forall_map. exact Hy.
Qed.

(** ** What a batch leaves in the forecast table *)

Lemma upsert_one_new (t : list Forecast) (r : Forecast) : In r (Sql.upsert_one t r).
Proof.
  induction t as [| x t IH]; [ left; reflexivity |].
  cbn [Sql.upsert_one]. destruct (Sql.same_forecast_key x r);
    [ left; reflexivity | right; exact IH ].
Qed.

Lemma upsert_one_keeps (t : list Forecast) (r x : Forecast) :
  In x t -> forecast_key x <> forecast_key r -> In x (Sql.upsert_one t r).
Proof.
  induction t as [| y t IH]; intros Hin Hne; [ contradiction |].
  cbn [Sql.upsert_one]. destruct (Sql.same_forecast_key y r) eqn:Ek.
  - destruct Hin as [-> | Hin]; [ | right; exact Hin ].
    apply same_forecast_key_spec in Ek. contradiction.
  - destruct Hin as [-> | Hin]; [ left; reflexivity | right; apply IH; assumption ].
Qed.

(** Every row of a batch with distinct keys is in the table afterwards,
    whatever the table held. *)
Lemma upsert_batch_In (rows : list Forecast) : forall t r,
  NoDup (map forecast_key rows) -> In r rows -> In r (Sql.upsert t rows).
Proof.
  unfold Sql.upsert.
  assert (Hkeep : forall rows' t' x,
             In x t' -> ~ In (forecast_key x) (map forecast_key rows') ->
             In x (fold_left Sql.upsert_one rows' t')).
  { induction rows' as [| r' rows' IH']; intros t' x Hx Hk; [ exact Hx |].
    cbn [fold_left]. apply IH'.
    - apply upsert_one_keeps; [ exact Hx |].
      intros E. apply Hk. left. symmetry. exact E.
    - intros Hin. apply Hk. right. exact Hin. }
  induction rows as [| r0 rows IH]; intros t r Hnd Hin; [ contradiction |].
  inversion Hnd as [| ? ? Hr0 Hnd']; subst. cbn [fold_left].
  destruct Hin as [-> | Hin].
  - apply Hkeep; [ apply upsert_one_new | exact Hr0 ].
  - apply IH; assumption.
Qed.

(** The years of the rows that a batch holds for one entity. *)
Lemma all_rows_years ExponentialSmoothing (horizon : Z) (db : Database)
      (rows : list Forecast) :
  all_rows ExponentialSmoothing horizon db = Ok rows ->
  forall disease df,
    In (disease, df) (fst (fetch_timeseries db)) ->
    Permutation df (series_of disease (disease_cases_yearly db))
    /\ exists last_observed_year,
        In last_observed_year (map fst df)
        /\ Forall (fun y => y <= last_observed_year) (map fst df)
        /\ map fc_year (filter (fun r => (fc_disease r =? disease)%string) rows)
           = map (fun i => last_observed_year + 1 + Z.of_nat i)
                 (seq 0 (Z.to_nat horizon)).
Proof.
  intros H d df Hin.
  destruct (all_rows_structure ExponentialSmoothing horizon db rows H)
    as (rowss & -> & Hst).
  pose proof (concat_own_entity
                (entity_rows ExponentialSmoothing horizon (snd (fetch_timeseries db)))
                ltac:(intros g0 rs0 Hg0; apply Hg0) _ _ Hst
                (fetch_timeseries_names_NoDup db)) as Hown.
  destruct (Forall2_In_l _ _ _ _ (Forall2_and _ _ _ _ Hst Hown) Hin)
    as (rs & _ & (Hfr & _) & Hfilter).
  cbn [fst snd] in *. rewrite Hfilter.
  assert (Hdf : df = series_of d (Sql.select_yearly (disease_cases_yearly db))).
  { pose proof (groupby_disease_series (Sql.select_yearly (disease_cases_yearly db)))
      as Hs.
    rewrite Forall_forall in Hs. apply (Hs (d, df)). exact Hin. }
  split.
  { rewrite Hdf. unfold series_of.
    apply Permutation_map, filter_perm, Permutation_sym, order_by_perm. }
  assert (Hne : df <> []).
  { pose proof (groupby_disease_nonempty (Sql.select_yearly (disease_cases_yearly db)))
      as Hg.
    rewrite Forall_forall in Hg. apply (Hg (d, df)). exact Hin. }
  destruct (forecast_rows_spec ExponentialSmoothing horizon
              (snd (fetch_timeseries db)) d df Hne)
    as (rs' & ymax & fc & lo & hi & m & Hrs' & Hy & _ & Hys & _).
  assert (rs' = rs) as -> by congruence.
  destruct (year_max_spec df Hne) as (ymax' & Hy' & Hmax & Hle).
  assert (ymax' = ymax) as -> by congruence.
  exists ymax. repeat split; try assumption.
  rewrite Hys. unfold Py.range. do 2 f_equal. lia.
Qed.

(** * The claims *)

(** C1. Every series the synthesizer returns sums to [total_cases] exactly
    and has one value per year: the drift correction is integer arithmetic,
    so no rounding of the floating-point stage reaches the sum.  And it
    does return one, for every total that is not negative and every range
    of 1 to 400 years, when the variates are below 64 in absolute value.
    The sum survives the store: once the step has filled an empty table
    from aggregates with one row per name, the rows kept for each entity
    cover [YEARS] and sum to its aggregate total. *)
Theorem synthesize_sum_exact :
  forall bit_generator years total_cases rng,
    (forall yearly rng',
        synthesize bit_generator years total_cases rng = Ok (yearly, rng') ->
        Py.zsum yearly = total_cases /\ List.length yearly = List.length years)
    /\ (0 <= total_cases ->
        0 < Py.len years <= 400 ->
        (forall k, Binary64.bounded 6 (bit_generator (gen_seed rng) k)) ->
        exists yearly rng',
          synthesize bit_generator years total_cases rng = Ok (yearly, rng')
          /\ Py.zsum yearly = total_cases)
    /\ (forall db db',
        NoDup (map ob_disease (kenya_outbreaks_2007_2022 db)) ->
        disease_cases_yearly db = [] ->
        build_synthetic_if_empty bit_generator db = Ok db' ->
        forall r, In r (kenya_outbreaks_2007_2022 db) ->
          map fst (series_of (ob_disease r) (disease_cases_yearly db')) = YEARS
          /\ Py.zsum (map snd (series_of (ob_disease r) (disease_cases_yearly db')))
             = ob_cases r).
Proof.
  intros g years total rng.
  assert (Hsum : forall yearly rng',
             synthesize g years total rng = Ok (yearly, rng') ->
             Py.zsum yearly = total /\ List.length yearly = List.length years).
  { intros yearly rng' H.
    destruct (synthesize_inv g _ _ _ _ _ H)
      as (rounded & Hnn & Hlen & Hlen' & Hy & Hr & Hla & _).
    split; [ | assumption ].
    assert (Hyl : yearly <> []) by (destruct yearly, years; simpl in *; congruence).
    assert (Hrl : rounded <> []) by (destruct rounded, years; simpl in *; congruence).
    rewrite (zsum_removelast_last yearly Hyl), Hr, Hla.
    rewrite (zsum_removelast_last rounded Hrl). lia. }
  split; [ exact Hsum |].
  split.
  - intros Ht Hn Hg.
    destruct (synthesize_returns g years total rng Ht Hn Hg) as (yearly & rng' & E).
    exists yearly, rng'. split; [ exact E | apply (Hsum _ _ E) ].
  - intros db db' Hnd Hempty Hrun r Hr.
    apply (build_synthetic_sums g db db' Hnd Hempty Hrun r Hr).
Qed.

Lemma synthesize_sum_exact_witness :
  (Py.zsum [7209; 7277; 7344; 7412; 7479; 7547; 7615; 7682; 7750; 7817; 7885;
            7953; 8020; 8088; 8155; 8223] = 123456
   /\ List.length [7209; 7277; 7344; 7412; 7479; 7547; 7615; 7682; 7750; 7817;
                   7885; 7953; 8020; 8088; 8155; 8223] = List.length YEARS)
  /\ (map fst (series_of "Rabies" (disease_cases_yearly filled_store)) = YEARS
      /\ Py.zsum (map snd (series_of "Rabies" (disease_cases_yearly filled_store)))
         = 9).
Proof.
  split.
  - apply (proj1 (synthesize_sum_exact no_noise YEARS 123456 (default_rng 42)) _
             {| gen_seed := 42; gen_drawn := 16 |}).
    vm_compute. reflexivity.
  - apply (proj2 (proj2 (synthesize_sum_exact sample_noise YEARS 9 (default_rng 42)))
             fresh_store filled_store)
      with (r := {| ob_disease := "Rabies"; ob_cases := 9 |}).
    + repeat constructor; simpl; intuition discriminate.
    + reflexivity.
    + vm_compute. reflexivity.
    + left. reflexivity.
Defined.

(** C2, as stated, fails: with [total_cases = 9] over the sixteen [YEARS]
    the trend alone rounds every year up to 1, and the drift correction
    leaves [1 - 7 = -6] in the last year.  Noise of ordinary size does not
    cure it: the years that round to 1 still outnumber the total. *)
Lemma synthesize_last_year_negative :
  synthesize no_noise YEARS 9 (default_rng 42)
  = Ok ([1; 1; 1; 1; 1; 1; 1; 1; 1; 1; 1; 1; 1; 1; 1; -6],
        {| gen_seed := 42; gen_drawn := 16 |})
  /\ ~ Forall (fun c => 0 <= c)
         [1; 1; 1; 1; 1; 1; 1; 1; 1; 1; 1; 1; 1; 1; 1; -6]
  /\ synthesize sample_noise YEARS 9 (default_rng 42)
     = Ok ([1; 0; 1; 1; 0; 0; 1; 1; 1; 1; 1; 1; 1; 1; 1; -3],
           {| gen_seed := 42; gen_drawn := 16 |}).
Proof.
  split; [ vm_compute; reflexivity |].
  split; [ | vm_compute; reflexivity ].
  intros H. rewrite Forall_forall in H.
  specialize (H (-6)). simpl in H. intuition lia.
Qed.

(** C2, amended. Every value but the last is [>= 0]; the last is
    [total_cases] minus the sum of the others, hence negative exactly when
    the others sum to more than [total_cases]. *)
Theorem synthesize_nonneg_but_last :
  forall bit_generator years total_cases rng yearly rng',
    synthesize bit_generator years total_cases rng = Ok (yearly, rng') ->
    Forall (fun c => 0 <= c) (removelast yearly)
    /\ last yearly 0 = total_cases - Py.zsum (removelast yearly)
    /\ (0 <= last yearly 0 <-> Py.zsum (removelast yearly) <= total_cases).
Proof.
  intros g years total rng yearly rng' H.
  destruct (synthesize_inv g _ _ _ _ _ H)
    as (rounded & Hnn & Hlen & Hlen' & Hy & Hr & Hla & _).
  assert (Hrl : rounded <> []) by (destruct rounded, years; simpl in *; congruence).
  assert (E : last yearly 0 = total - Py.zsum (removelast yearly)).
  { rewrite Hla, Hr, (zsum_removelast_last rounded Hrl). lia. }
  split; [ rewrite Hr; apply Forall_removelast; assumption |].
  split; [ exact E | lia ].
Qed.

Lemma synthesize_nonneg_but_last_witness :
  Forall (fun c => 0 <= c) (removelast [6; 6; 6; 6; 6; 6; 6; 6; 6; 6; 6; 6; 6; 6; 6; 10])
  /\ last [6; 6; 6; 6; 6; 6; 6; 6; 6; 6; 6; 6; 6; 6; 6; 10] 0
     = 100 - Py.zsum (removelast [6; 6; 6; 6; 6; 6; 6; 6; 6; 6; 6; 6; 6; 6; 6; 10])
  /\ (0 <= last [6; 6; 6; 6; 6; 6; 6; 6; 6; 6; 6; 6; 6; 6; 6; 10] 0
      <-> Py.zsum (removelast [6; 6; 6; 6; 6; 6; 6; 6; 6; 6; 6; 6; 6; 6; 6; 10]) <= 100).
Proof.
  apply (synthesize_nonneg_but_last no_noise YEARS 100 (default_rng 42) _
           {| gen_seed := 42; gen_drawn := 16 |}).
  vm_compute. reflexivity.
Defined.

(** C3, as stated, fails on the series with no point: it has fewer than 4
    points, a zero sum and no non-zero count, yet its mean is NaN, so the
    returned points are not zero and do not even compare equal to
    themselves. *)
Lemma fit_and_forecast_empty_series :
  fit_and_forecast (failing_fit "") [] 3
  = Ok ([nan; nan; nan], [nan; nan; nan], [nan; nan; nan], "naive-mean"%string)
  /\ Forall (fun yc : Z * Z => snd yc = 0) []
  /\ Forall (fun p => (p =? 0)%float = false /\ (p =? p)%float = false)
            [nan; nan; nan].
Proof.
  split; [ vm_compute; reflexivity |].
  split; [ constructor |].
  repeat constructor.
Qed.

(** C3, amended. In the insufficient state (fewer than 4 points, or a
    float sum that compares equal to zero, which for integer counts is an
    integer sum of zero) [fit_and_forecast] returns the same list three
    times, [horizon] copies of the series mean, tagged [naive-mean].  The
    mean is the float sum over the count, which on integer counts is the
    quotient of their sum by their number, rounded once.  On an all-zero
    series of any length but zero, every point is [0.0]. *)
Theorem fit_and_forecast_naive_mean :
  forall ExponentialSmoothing series_df horizon,
    1 <= horizon ->
    (Py.len series_df < 4
     \/ (series_sum (to_series series_df) =? 0)%float = true
     \/ (abs_sum (map snd series_df) < 2 ^ 53 /\ Py.zsum (map snd series_df) = 0) ->
     let f := Py.replicate (series_mean (to_series series_df)) horizon in
     fit_and_forecast ExponentialSmoothing series_df horizon
     = Ok (f, f, f, "naive-mean"%string)
     /\ List.length f = Z.to_nat horizon
     /\ Forall (fun p => p = series_mean (to_series series_df)) f)
    /\ (abs_sum (map snd series_df) < 2 ^ 53 ->
        series_mean (to_series series_df)
        = (Py.float_of_int (Py.zsum (map snd series_df))
           / Py.float_of_int (Py.len series_df))%float)
    /\ (0 < Py.len series_df <= Py.maxsize ->
        Forall (fun yc => snd yc = 0) series_df ->
        let z := Py.replicate 0%float horizon in
        fit_and_forecast ExponentialSmoothing series_df horizon
        = Ok (z, z, z, "naive-mean"%string)).
Proof.
  intros E df h Hh.
  assert (Hnaive : (series_sum (to_series df) =? 0)%float = true \/ Py.len df < 4 ->
                   fit_and_forecast E df h
                   = Ok (naive (to_series df) h "naive-mean")).
  { intros Hst. unfold fit_and_forecast. rewrite to_series_len.
    replace ((Py.len df <? 4) || (series_sum (to_series df) =? 0)%float) with true;
      [ reflexivity |].
    symmetry. apply orb_true_iff.
    destruct Hst as [Hst | Hst]; [ right; assumption | left; apply Z.ltb_lt; assumption ]. }
  split.
  - intros Hst f.
    assert (Hst' : (series_sum (to_series df) =? 0)%float = true \/ Py.len df < 4).
    { destruct Hst as [Hst | [Hst | [Hb Hz]]]; [ right; assumption | left; assumption |].
      left. rewrite series_sum_zero_iff by assumption. apply Z.eqb_eq. assumption. }
    split; [ apply Hnaive, Hst' |].
    split; [ apply replicate_length |].
    apply Forall_forall. intros p Hp. apply repeat_spec in Hp. exact Hp.
  - split; [ apply series_mean_exact |].
    intros Hlen Hz z. rewrite Hnaive.
    + unfold naive. rewrite (series_mean_zeros df); [ reflexivity | | assumption ].
      unfold Py.maxsize in Hlen. lia.
    + left. rewrite (series_sum_zeros _ Hz). reflexivity.
Qed.

Lemma fit_and_forecast_naive_mean_witness :
  fit_and_forecast linear_fit [(2019, 0); (2020, 0); (2021, 0); (2022, 0); (2023, 0)] 3
  = Ok ([0; 0; 0]%float, [0; 0; 0]%float, [0; 0; 0]%float, "naive-mean"%string).
Proof.
  refine (proj2 (proj2 (fit_and_forecast_naive_mean linear_fit
                   [(2019, 0); (2020, 0); (2021, 0); (2022, 0); (2023, 0)] 3 _)) _ _).
  - lia.
  - vm_compute. split; [ reflexivity | discriminate ].
  - repeat constructor.
Defined.

(** C4. In the fit state, when the fit raises [e], [fit_and_forecast]
    returns (no exception leaves it) [horizon] copies of the series mean as
    point, lower and upper, and the tag [fallback-mean (<str(e)>)]. *)
Theorem fit_and_forecast_fallback :
  forall ExponentialSmoothing series_df horizon e,
    1 <= horizon ->
    4 <= Py.len series_df ->
    (series_sum (to_series series_df) =? 0)%float = false ->
    ExponentialSmoothing (to_series series_df) = Raise e ->
    let f := Py.replicate (series_mean (to_series series_df)) horizon in
    let tag := ("fallback-mean (" ++ str e ++ ")")%string in
    fit_and_forecast ExponentialSmoothing series_df horizon = Ok (f, f, f, tag)
    /\ List.length f = Z.to_nat horizon
    /\ Forall (fun p => p = series_mean (to_series series_df)) f
    /\ String.prefix "fallback-mean" tag = true.
Proof.
  intros E df h e Hh Hlen Hsum Hfit f tag. unfold fit_and_forecast.
  rewrite to_series_len, Hsum, Hfit.
  replace (Py.len df <? 4) with false by (symmetry; apply Z.ltb_ge; assumption).
  split; [ reflexivity |].
  split; [ apply replicate_length |].
  split; [ | reflexivity ].
  apply Forall_forall. intros p Hp. apply repeat_spec in Hp. exact Hp.
Qed.

Lemma fit_and_forecast_fallback_witness :
  fit_and_forecast (failing_fit "did not converge")
                   [(2019, 100); (2020, 120); (2021, 140); (2022, 160)] 3
  = Ok ([130; 130; 130]%float, [130; 130; 130]%float, [130; 130; 130]%float,
        "fallback-mean (did not converge)"%string).
Proof.
  pose proof (fit_and_forecast_fallback (failing_fit "did not converge")
                [(2019, 100); (2020, 120); (2021, 140); (2022, 160)] 3
                (LibraryError "did not converge")
                ltac:(lia) ltac:(vm_compute; discriminate) eq_refl eq_refl)
    as (E & _).
  rewrite E. vm_compute. reflexivity.
Defined.

(** C5, as stated, fails.  The synthesizer draws from the generator of the
    batch, which has moved on by one block of variates for every entity
    synthesized before.  The same total, the same years and the same seed
    give one series at the first position of the batch and another at the
    second, and so does the synthesis step to an entity that another
    entity's total puts first or second in the order of the query. *)
Lemma synthesis_depends_on_position :
  (synthesize sample_noise YEARS 100 (default_rng 42)
   = Ok ([6; 6; 7; 7; 5; 5; 6; 6; 6; 6; 7; 7; 6; 7; 7; 6], advance (default_rng 42) 16)
   /\ synthesize sample_noise YEARS 100 (advance (default_rng 42) 16)
      = Ok ([6; 6; 6; 6; 6; 6; 6; 6; 6; 6; 6; 6; 6; 6; 6; 10], advance (default_rng 42) 32)
   /\ gen_seed (advance (default_rng 42) 16) = gen_seed (default_rng 42))
  /\ exists db1 db2,
      build_synthetic_if_empty sample_noise (two_outbreaks "Cholera" 100 "Measles" 99)
      = Ok db1
      /\ build_synthetic_if_empty sample_noise (two_outbreaks "Cholera" 100 "Measles" 101)
         = Ok db2
      /\ map fst (series_of "Cholera" (disease_cases_yearly db1)) = YEARS
      /\ map fst (series_of "Cholera" (disease_cases_yearly db2)) = YEARS
      /\ map snd (series_of "Cholera" (disease_cases_yearly db1))
         = [6; 6; 7; 7; 5; 5; 6; 6; 6; 6; 7; 7; 6; 7; 7; 6]
      /\ map snd (series_of "Cholera" (disease_cases_yearly db2))
         = [6; 6; 6; 6; 6; 6; 6; 6; 6; 6; 6; 6; 6; 6; 6; 10]
      /\ series_of "Cholera" (disease_cases_yearly db1)
         <> series_of "Cholera" (disease_cases_yearly db2).
Proof.
  split.
  - repeat split; vm_compute; reflexivity.
  - exists (synthesized sample_noise (two_outbreaks "Cholera" 100 "Measles" 99)),
           (synthesized sample_noise (two_outbreaks "Cholera" 100 "Measles" 101)).
    repeat split; try (vm_compute; reflexivity).
    vm_compute. intros H. discriminate H.
Qed.

(** C5, amended. The series of an entity is a function of its total, the
    years, the seed and its position in the batch, and of nothing else:
    entities with the same total at the same position of two batches over
    the same years and seed get the same series, whatever their names and
    whatever the other entities and their totals are.  So it is for the
    synthesis step, where the position is the one in the order of the query
    and the years and the seed are fixed; and the step reads nothing but
    the aggregates. *)
Theorem synthesis_deterministic :
  forall bit_generator,
    (forall seed years totals1 totals2 rows1 rows2 k disease1 disease2 total_cases,
        synthesize_all bit_generator years totals1 (default_rng seed) = Ok rows1 ->
        synthesize_all bit_generator years totals2 (default_rng seed) = Ok rows2 ->
        NoDup (map fst totals1) ->
        NoDup (map fst totals2) ->
        nth_error totals1 k = Some (disease1, total_cases) ->
        nth_error totals2 k = Some (disease2, total_cases) ->
        series_of disease1 rows1 = series_of disease2 rows2)
    /\ (forall db1 db2 db1' db2' k disease1 disease2 total_cases,
           NoDup (map ob_disease (kenya_outbreaks_2007_2022 db1)) ->
           NoDup (map ob_disease (kenya_outbreaks_2007_2022 db2)) ->
           disease_cases_yearly db1 = [] ->
           disease_cases_yearly db2 = [] ->
           build_synthetic_if_empty bit_generator db1 = Ok db1' ->
           build_synthetic_if_empty bit_generator db2 = Ok db2' ->
           nth_error (Sql.select_totals (kenya_outbreaks_2007_2022 db1)) k
           = Some (disease1, total_cases) ->
           nth_error (Sql.select_totals (kenya_outbreaks_2007_2022 db2)) k
           = Some (disease2, total_cases) ->
           series_of disease1 (disease_cases_yearly db1')
           = series_of disease2 (disease_cases_yearly db2'))
    /\ (forall db1 db2,
           kenya_outbreaks_2007_2022 db1 = kenya_outbreaks_2007_2022 db2 ->
           disease_cases_yearly db1 = [] ->
           disease_cases_yearly db2 = [] ->
           match build_synthetic_if_empty bit_generator db1,
                 build_synthetic_if_empty bit_generator db2 with
           | Ok d1, Ok d2 => disease_cases_yearly d1 = disease_cases_yearly d2
           | Raise e1, Raise e2 => e1 = e2
           | _, _ => False
           end).
Proof.
  intros g. split; [| split].
  - intros seed years totals1 totals2 rows1 rows2 k d1 d2 t E1 E2 N1 N2 K1 K2.
    destruct (synthesize_all_position g years _ _ _ E1 N1 k d1 t K1) as (y1 & S1 & ->).
    destruct (synthesize_all_position g years _ _ _ E2 N2 k d2 t K2) as (y2 & S2 & ->).
    rewrite S1 in S2. injection S2 as <-. reflexivity.
  - intros db1 db2 db1' db2' k d1 d2 t N1 N2 Y1 Y2 B1 B2 K1 K2.
    destruct (build_synthetic_position g db1 db1' N1 Y1 B1 k d1 t K1) as (y1 & S1 & ->).
    destruct (build_synthetic_position g db2 db2' N2 Y2 B2 k d2 t K2) as (y2 & S2 & ->).
    rewrite S1 in S2. injection S2 as <-. reflexivity.
  - intros db1 db2 Ha H1 H2.
    pose proof (build_synthetic_reads g db1 db2 Ha ltac:(congruence)) as H.
    destruct (build_synthetic_if_empty g db1), (build_synthetic_if_empty g db2);
      try assumption. apply H.
Qed.

Lemma synthesis_deterministic_witness :
  series_of "Cholera"
    (disease_cases_yearly
       (synthesized sample_noise (two_outbreaks "Cholera" 100 "Measles" 101)))
  = series_of "Malaria"
      (disease_cases_yearly
         (synthesized sample_noise (two_outbreaks "Malaria" 100 "Rabies" 5000))).
Proof.
  apply (proj1 (proj2 (synthesis_deterministic sample_noise))
           (two_outbreaks "Cholera" 100 "Measles" 101)
           (two_outbreaks "Malaria" 100 "Rabies" 5000)
           (synthesized sample_noise (two_outbreaks "Cholera" 100 "Measles" 101))
           (synthesized sample_noise (two_outbreaks "Malaria" 100 "Rabies" 5000))
           1%nat "Cholera"%string "Malaria"%string 100).
  - repeat constructor; simpl; intuition discriminate.
  - repeat constructor; simpl; intuition discriminate.
  - reflexivity.
  - reflexivity.
  - vm_compute. reflexivity.
  - vm_compute. reflexivity.
  - reflexivity.
  - reflexivity.
Defined.

(** C6. Every series [main] forecasts has a row.  For a horizon of at least
    one year the rows that [forecast_rows] emits for such a series carry the
    years [last + 1 .. last + horizon] in this order, where [last] is the
    largest year of the series.  So do, entity by entity, the rows of the
    batch that [main] hands to [write_forecasts], each entity's series
    being the rows the yearly store holds for it; and after a run the
    forecast table holds a row for each of these years of each entity,
    whatever it held before.  With [FORECAST_HORIZON] these are the 3 years
    after the last observed one. *)
Theorem forecast_years_follow_series :
  forall ExponentialSmoothing horizon,
    1 <= horizon ->
    (forall db, Forall (fun g : string * list (Z * Z) => snd g <> [])
                       (fst (fetch_timeseries db)))
    /\ (forall data_source disease df,
           df <> [] ->
           exists rows last_observed_year,
             forecast_rows ExponentialSmoothing horizon data_source disease df = Ok rows
             /\ In last_observed_year (map fst df)
             /\ Forall (fun y => y <= last_observed_year) (map fst df)
             /\ map fc_year rows
                = map (fun i => last_observed_year + 1 + Z.of_nat i)
                      (seq 0 (Z.to_nat horizon))
             /\ (horizon = FORECAST_HORIZON ->
                 map fc_year rows = [last_observed_year + 1; last_observed_year + 2;
                                     last_observed_year + 3]))
    /\ (forall db,
           exists rows,
             all_rows ExponentialSmoothing horizon db = Ok rows
             /\ forall disease df,
                 In (disease, df) (fst (fetch_timeseries db)) ->
                 Permutation df (series_of disease (disease_cases_yearly db))
                 /\ exists last_observed_year,
                     In last_observed_year (map fst df)
                     /\ Forall (fun y => y <= last_observed_year) (map fst df)
                     /\ map fc_year
                            (filter (fun r => (fc_disease r =? disease)%string) rows)
                        = map (fun i => last_observed_year + 1 + Z.of_nat i)
                              (seq 0 (Z.to_nat horizon)))
    /\ (forall bit_generator db db',
           run bit_generator ExponentialSmoothing horizon db = Ok db' ->
           forall disease df,
             In (disease, df) (fst (fetch_timeseries db')) ->
             Permutation df (series_of disease (disease_cases_yearly db'))
             /\ exists last_observed_year,
                 In last_observed_year (map fst df)
                 /\ Forall (fun y => y <= last_observed_year) (map fst df)
                 /\ forall i, (i < Z.to_nat horizon)%nat ->
                      exists r, In r (disease_forecasts db')
                                /\ fc_disease r = disease
                                /\ fc_year r = last_observed_year + 1 + Z.of_nat i)
    /\ (horizon = FORECAST_HORIZON ->
        forall bit_generator db db',
          main bit_generator ExponentialSmoothing db = Ok db' ->
          forall disease df,
            In (disease, df) (fst (fetch_timeseries db')) ->
            exists last_observed_year,
              In last_observed_year (map fst df)
              /\ Forall (fun y => y <= last_observed_year) (map fst df)
              /\ forall y, In y [last_observed_year + 1; last_observed_year + 2;
                                 last_observed_year + 3] ->
                   exists r, In r (disease_forecasts db')
                             /\ fc_disease r = disease /\ fc_year r = y).
Proof.
  intros E h Hh.
  assert (Hrun : forall g db db',
             run g E h db = Ok db' ->
             forall disease df,
               In (disease, df) (fst (fetch_timeseries db')) ->
               Permutation df (series_of disease (disease_cases_yearly db'))
               /\ exists last_observed_year,
                   In last_observed_year (map fst df)
                   /\ Forall (fun y => y <= last_observed_year) (map fst df)
                   /\ forall i, (i < Z.to_nat h)%nat ->
                        exists r, In r (disease_forecasts db')
                                  /\ fc_disease r = disease
                                  /\ fc_year r = last_observed_year + 1 + Z.of_nat i).
  { intros g db db' H d df Hin. unfold run in H.
    apply bind_ok in H. destruct H as (db1 & _ & H).
    apply bind_ok in H. destruct H as (rows & Hr & H). injection H as <-.
    change (fetch_timeseries (write_forecasts db1 rows))
      with (fetch_timeseries db1) in Hin.
    change (disease_cases_yearly (write_forecasts db1 rows))
      with (disease_cases_yearly db1).
    destruct (all_rows_years E h db1 rows Hr d df Hin)
      as (Hperm & y & Hy & Hle & Hyears).
    split; [ exact Hperm |].
    exists y. repeat split; try assumption.
    intros i Hi.
    assert (Hyi : In (y + 1 + Z.of_nat i)
                     (map fc_year
                          (filter (fun r => (fc_disease r =? d)%string) rows))).
    { rewrite Hyears. apply in_map_iff. exists i.
      split; [ reflexivity | apply in_seq; lia ]. }
    apply in_map_iff in Hyi. destruct Hyi as (r & Hr1 & Hr2).
    apply filter_In in Hr2. destruct Hr2 as [Hr2 Hd].
    exists r. repeat split.
    - cbn [write_forecasts disease_forecasts].
      apply upsert_batch_In; [ apply (all_rows_keys_NoDup E h db1 rows Hr) | exact Hr2 ].
    - apply String.eqb_eq. exact Hd.
    - exact Hr1. }
  split; [| split; [| split; [| split ] ] ].
  - intros db. apply groupby_disease_nonempty.
  - intros ds d df Hdf.
    destruct (forecast_rows_spec E h ds d df Hdf)
      as (rows & ymax & fc & lo & hi & m & Hrows & Hy & _ & Hyears & _).
    destruct (year_max_spec df Hdf) as (ymax' & Hy' & Hin & Hall).
    assert (ymax' = ymax) as -> by congruence.
    exists rows, ymax. repeat split; try assumption.
    + rewrite Hyears. unfold Py.range. do 2 f_equal. lia.
    + intros ->. rewrite Hyears. unfold Py.range.
      replace (ymax + 1 + FORECAST_HORIZON - (ymax + 1)) with 3
        by (unfold FORECAST_HORIZON; lia).
      simpl. f_equal; [ lia | f_equal; [ lia | f_equal; lia ] ].
  - intros db. destruct (all_rows_returns E h db) as [rows Hrows].
    exists rows. split; [ exact Hrows |].
    apply (all_rows_years E h db rows Hrows).
  - exact Hrun.
  - intros -> g db db' H d df Hin.
    destruct (Hrun g db db' H d df Hin) as (_ & y & Hy & Hle & Hall).
    exists y. repeat split; try assumption.
    intros y' Hy'.
    assert (Hi : exists i, (i < 3)%nat /\ y' = y + 1 + Z.of_nat i).
    { destruct Hy' as [<- | [<- | [<- | []]]];
        [ exists 0%nat | exists 1%nat | exists 2%nat ]; split; lia. }
    destruct Hi as (i & Hi & ->). apply Hall. exact Hi.
Qed.

Lemma forecast_years_follow_series_witness :
  (exists rows,
      all_rows linear_fit 3 mixed_store = Ok rows
      /\ map fc_year (filter (fun r => (fc_disease r =? "Measles")%string) rows)
         = [2023; 2024; 2025])
  /\ (exists db',
         main sample_noise linear_fit mixed_store = Ok db'
         /\ forall y, In y [2023; 2024; 2025] ->
              exists r, In r (disease_forecasts db')
                        /\ fc_disease r = "Measles"%string /\ fc_year r = y).
Proof.
  pose proof (forecast_years_follow_series linear_fit 3 ltac:(lia))
    as (_ & _ & Hbatch & _ & Hmain).
  split.
  - destruct (Hbatch mixed_store) as (rows & Hrows & Hall).
    exists rows. split; [ exact Hrows |].
    destruct (Hall "Measles"%string [(2022, 40)] ltac:(right; left; reflexivity))
      as (_ & y & Hy & _ & Hyears).
    destruct Hy as [<- | []]. exact Hyears.
  - destruct (main sample_noise linear_fit mixed_store) as [db' | e] eqn:Hdb';
      [| vm_compute in Hdb'; discriminate Hdb' ].
    exists db'. split; [ reflexivity |]. intros y Hy.
    assert (Hin : In ("Measles"%string, [(2022, 40)]) (fst (fetch_timeseries db'))).
    { unfold main, run in Hdb'. apply bind_ok in Hdb'. destruct Hdb' as (db1 & Hb & H).
      injection Hb as <-.
      apply bind_ok in H. destruct H as (rows & _ & H). injection H as <-.
      right; left; reflexivity. }
    destruct (Hmain eq_refl sample_noise mixed_store db' Hdb' "Measles"%string
                    [(2022, 40)] Hin)
      as (y0 & Hy0 & _ & Hall).
    destruct Hy0 as [<- | []]. apply Hall. exact Hy.
Defined.




(** C8. On a yearly store that already holds a row the synthesis step
    returns the database as it is.  Hence after any run of the orchestrator
    the step is a no-op: a second run leaves the yearly store, and so its
    row count, as the first run left it. *)
Theorem synthesis_skipped_when_populated :
  forall bit_generator ExponentialSmoothing horizon db,
    (disease_cases_yearly db <> [] ->
     build_synthetic_if_empty bit_generator db = Ok db)
    /\ (forall db1,
           run bit_generator ExponentialSmoothing horizon db = Ok db1 ->
           build_synthetic_if_empty bit_generator db1 = Ok db1
           /\ exists db2,
               run bit_generator ExponentialSmoothing horizon db1 = Ok db2
               /\ disease_cases_yearly db2 = disease_cases_yearly db1
               /\ List.length (disease_cases_yearly db2)
                  = List.length (disease_cases_yearly db1)).
Proof.
  intros g E h db. split; [ apply build_synthetic_skips |].
  intros db1 Hrun. unfold run in Hrun.
  inv_bind Hrun. rename a into dA. inv_bind Hrun. rename a into rows.
  injection Hrun as <-.
  pose proof (build_synthetic_idempotent g _ _ Hm) as Hidem.
  assert (Hb : build_synthetic_if_empty g (write_forecasts dA rows)
               = Ok (write_forecasts dA rows)).
  { pose proof (build_synthetic_reads g (write_forecasts dA rows) dA eq_refl eq_refl) as Hr.
    rewrite Hidem in Hr.
    destruct (build_synthetic_if_empty g (write_forecasts dA rows)) as [d1 |] eqn:E1;
      [ | contradiction ].
    destruct Hr as [Hy Ha].
    destruct (build_synthetic_keeps g _ _ E1) as [_ Hf].
    destruct d1 as [a1 y1 f1]. unfold write_forecasts in *. simpl in *.
    subst. reflexivity. }
  split; [ exact Hb |].
  exists (write_forecasts (write_forecasts dA rows) rows).
  unfold run. rewrite Hb. simpl bind.
  rewrite (all_rows_reads E h (write_forecasts dA rows) dA eq_refl), Hm0.
  repeat split.
Qed.

(** C9. Every forecast row of a run carries the same provenance, the one of
    the yearly store the run reads: [real] exactly when some row of the
    store has a source other than [synthetic], and [synthetic] otherwise. *)
Theorem provenance_is_per_run :
  forall ExponentialSmoothing horizon db rows,
    all_rows ExponentialSmoothing horizon db = Ok rows ->
    Forall (fun r => fc_data_source r = provenance (disease_cases_yearly db)) rows
    /\ (provenance (disease_cases_yearly db) = "real"%string
        <-> exists r, In r (disease_cases_yearly db)
                      /\ yc_source r <> "synthetic"%string)
    /\ (provenance (disease_cases_yearly db) = "synthetic"%string
        <-> forall r, In r (disease_cases_yearly db)
                      -> yc_source r = "synthetic"%string).
Proof.
  intros E h db rows H.
  assert (Hex : existsb (fun r => negb (yc_source r =? "synthetic")%string)
                        (disease_cases_yearly db) = true
                <-> exists r, In r (disease_cases_yearly db)
                              /\ yc_source r <> "synthetic"%string).
  { rewrite existsb_exists. split; intros (r & Hin & Hr); exists r; split; try assumption.
    - apply negb_true_iff, String.eqb_neq in Hr. exact Hr.
    - apply negb_true_iff, String.eqb_neq. exact Hr. }
  split; [ | split ].
  - unfold all_rows in H.
    pose proof (fetch_timeseries_provenance db) as Hp.
    destruct (fetch_timeseries db) as [ts_map data_source]. simpl in Hp. subst.
    inv_bind H. injection H as <-. apply Forall_concat.
    revert Hm. apply mapM_Forall. intros [d df] rs _ Hrs.
    apply forecast_rows_tags in Hrs. revert Hrs. apply Forall_impl.
    intros r [Hr _]. exact Hr.
  - unfold provenance. rewrite <- Hex.
    destruct (existsb _ (disease_cases_yearly db)); split; congruence.
  - unfold provenance.
    destruct (existsb _ (disease_cases_yearly db)) eqn:Eb.
    + split; [ discriminate |]. intros Hall. exfalso.
      destruct (proj1 Hex eq_refl) as (r & Hin & Hr). auto.
    + split; [ | reflexivity ]. intros _ r Hin.
      destruct (String.eqb_spec (yc_source r) "synthetic") as [Hs | Hs]; [ assumption |].
      assert (Hft : false = true) by (apply Hex; eauto).
      discriminate.
Qed.

Lemma provenance_is_per_run_witness :
  exists rows,
    all_rows linear_fit 3 mixed_store = Ok rows
    /\ map fc_data_source rows = ["real"; "real"; "real"; "real"; "real"; "real"]%string
    /\ Forall (fun r => fc_data_source r = "real"%string) rows.
Proof.
  eexists. split; [ vm_compute; reflexivity |].
  split; [ reflexivity |].
  refine (proj1 (provenance_is_per_run linear_fit 3 mixed_store _ _)).
  vm_compute. reflexivity.
Defined.

(** C10. The query hands the aggregates to the synthesis step by
    descending total, and the step draws every series from the one
    generator it seeds with 42.  So the series stored for the [k]-th
    entity of that order is the one the synthesizer computes from its total
    once [k] blocks of sixteen variates are drawn: a function of [k] and
    of its total.  An entity keeps its name, total and years in two
    batches in which another entity's total is below or above its own; it
    is synthesized first in the one and second in the other, and its two
    series differ exactly when the first two blocks of the generator give
    different series for its total, as they do for a total of 5000 under
    sample variates. *)
Theorem shared_generator_orders_series :
  (forall db,
      StronglySorted (fun a b : string * Z => snd b <= snd a)
                     (Sql.select_totals (kenya_outbreaks_2007_2022 db))
      /\ Permutation (map ob_disease (kenya_outbreaks_2007_2022 db))
                     (map fst (Sql.select_totals (kenya_outbreaks_2007_2022 db))))
  /\ (forall bit_generator db db' k disease total_cases,
         NoDup (map ob_disease (kenya_outbreaks_2007_2022 db)) ->
         disease_cases_yearly db = [] ->
         build_synthetic_if_empty bit_generator db = Ok db' ->
         nth_error (Sql.select_totals (kenya_outbreaks_2007_2022 db)) k
         = Some (disease, total_cases) ->
         exists yearly,
           synthesize bit_generator YEARS total_cases
                      (advance (default_rng 42) (k * 16))
           = Ok (yearly, advance (default_rng 42) (S k * 16))
           /\ series_of disease (disease_cases_yearly db') = combine YEARS yearly)
  /\ (forall bit_generator entity other t db1 db2,
         entity <> other ->
         build_synthetic_if_empty bit_generator (two_outbreaks entity t other (t - 1))
         = Ok db1 ->
         build_synthetic_if_empty bit_generator (two_outbreaks entity t other (t + 1))
         = Ok db2 ->
         exists y0 y1,
           synthesize bit_generator YEARS t (default_rng 42)
           = Ok (y0, advance (default_rng 42) 16)
           /\ synthesize bit_generator YEARS t (advance (default_rng 42) 16)
              = Ok (y1, advance (default_rng 42) 32)
           /\ series_of entity (disease_cases_yearly db1) = combine YEARS y0
           /\ series_of entity (disease_cases_yearly db2) = combine YEARS y1
           /\ (series_of entity (disease_cases_yearly db1)
               = series_of entity (disease_cases_yearly db2) <-> y0 = y1))
  /\ (exists db1 db2,
         build_synthetic_if_empty sample_noise (two_outbreaks "Cholera" 5000 "Measles" 4999)
         = Ok db1
         /\ build_synthetic_if_empty sample_noise
              (two_outbreaks "Cholera" 5000 "Measles" 5001)
            = Ok db2
         /\ map fst (series_of "Cholera" (disease_cases_yearly db1)) = YEARS
         /\ map fst (series_of "Cholera" (disease_cases_yearly db2)) = YEARS
         /\ map snd (series_of "Cholera" (disease_cases_yearly db1))
            = [316; 276; 332; 339; 251; 272; 317; 304; 314; 289; 344; 341; 321; 354;
               335; 295]
         /\ map snd (series_of "Cholera" (disease_cases_yearly db2))
            = [305; 306; 307; 308; 309; 310; 311; 312; 313; 314; 315; 316; 317; 318;
               319; 320]
         /\ series_of "Cholera" (disease_cases_yearly db1)
            <> series_of "Cholera" (disease_cases_yearly db2)).
Proof.
  split; [| split; [| split ] ].
  - intros db. split; [ apply select_totals_descending | apply select_totals_names ].
  - intros g db db' k d t Hnd Hempty Hb Hk.
    apply (build_synthetic_position g db db' Hnd Hempty Hb k d t Hk).
  - intros g a b t db1 db2 Hab B1 B2.
    assert (Hnd : forall c, NoDup (map ob_disease
                                       (kenya_outbreaks_2007_2022 (two_outbreaks a t b c)))).
    { intros c. simpl. constructor; [ | constructor; [ intros [] | constructor ] ].
      intros [H | []]. apply Hab. symmetry. exact H. }
    assert (T1 : nth_error (Sql.select_totals
                              (kenya_outbreaks_2007_2022 (two_outbreaks a t b (t - 1))))
                           0 = Some (a, t)).
    { unfold Sql.select_totals, Sql.order_by. simpl.
      replace (t - 1 <=? t) with true by (symmetry; apply Z.leb_le; lia).
      reflexivity. }
    assert (T2 : nth_error (Sql.select_totals
                              (kenya_outbreaks_2007_2022 (two_outbreaks a t b (t + 1))))
                           1 = Some (a, t)).
    { unfold Sql.select_totals, Sql.order_by. simpl.
      replace (t + 1 <=? t) with false by (symmetry; apply Z.leb_gt; lia).
      reflexivity. }
    destruct (build_synthetic_position g _ db1 (Hnd (t - 1)) eq_refl B1 0%nat a t T1)
      as (y0 & S0 & R0).
    destruct (build_synthetic_position g _ db2 (Hnd (t + 1)) eq_refl B2 1%nat a t T2)
      as (y1 & S1 & R1).
    exists y0, y1.
    destruct (synthesize_advances g _ _ _ _ _ S0) as [_ L0].
    destruct (synthesize_advances g _ _ _ _ _ S1) as [_ L1].
    rewrite advance_0 in S0.
    repeat split; try assumption.
    + rewrite R0, R1. apply (combine_inj_r YEARS); assumption.
    + intros ->. rewrite R0, R1. reflexivity.
  - exists (synthesized sample_noise (two_outbreaks "Cholera" 5000 "Measles" 4999)),
           (synthesized sample_noise (two_outbreaks "Cholera" 5000 "Measles" 5001)).
    repeat split; try (vm_compute; reflexivity).
    vm_compute. intros H. discriminate H.
Qed.

Lemma shared_generator_orders_series_witness :
  exists yearly,
    synthesize sample_noise YEARS 9 (advance (default_rng 42) 16)
    = Ok (yearly, advance (default_rng 42) 32)
    /\ series_of "Rabies" (disease_cases_yearly filled_store) = combine YEARS yearly.
Proof.
  apply (proj1 (proj2 shared_generator_orders_series)
           sample_noise fresh_store filled_store 1%nat "Rabies"%string 9).
  - repeat constructor; simpl; intuition discriminate.
  - reflexivity.
  - vm_compute. reflexivity.
  - reflexivity.
Defined.
